(** * convert_excel_to_json: the itinerary converter

    A shallow embedding of [convert_excel_to_json.py] and the properties of
    its classification, note splitting, date conversion, map link and
    aggregation functions.

    Python [str] values are sequences of Unicode code points; they are
    modelled as lists of code points ([N]).  The standard output of the
    script ([print]) is not part of the model. *)

From Stdlib Require Import String Ascii.
From Stdlib Require Import List NArith ZArith Bool Arith Lia.
From Stdlib Require Import Sorted Permutation.
Import ListNotations.

(** ** Text *)

Definition char := N.
Definition text := list char.

(** The text of an ASCII literal of the source. *)
Definition lit (s : string) : text := map N_of_ascii (list_ascii_of_string s).

(** Code points of the three non-ASCII characters of the source. *)
Definition euro : char := 8364%N.        (* U+20AC *)
Definition rsquo : char := 8217%N.       (* U+2019 *)
Definition arrow : char := 8594%N.       (* U+2192 *)

Fixpoint text_eqb (a b : text) : bool :=
  match a, b with
  | [], [] => true
  | x :: a', y :: b' => N.eqb x y && text_eqb a' b'
  | _, _ => false
  end.

(** [a < b] and [a <= b] on [str]: lexicographic on code points. *)
Fixpoint text_ltb (a b : text) : bool :=
  match a, b with
  | _, [] => false
  | [], _ :: _ => true
  | x :: a', y :: b' => N.ltb x y || (N.eqb x y && text_ltb a' b')
  end.

Definition text_leb (a b : text) : bool := negb (text_ltb b a).

(** [str.isspace] of one character, which is also the class [\s] of [re]
    on [str] patterns. *)
Definition isspace (c : char) : bool :=
  ((9 <=? c) && (c <=? 13) || (28 <=? c) && (c <=? 32) || (c =? 133)
   || (c =? 160) || (c =? 5760) || (8192 <=? c) && (c <=? 8202)
   || (c =? 8232) || (c =? 8233) || (c =? 8239) || (c =? 8287)
   || (c =? 12288))%N.

Fixpoint lstrip (s : text) : text :=
  match s with
  | c :: s' => if isspace c then lstrip s' else s
  | [] => []
  end.

Definition rstrip (s : text) : text := rev (lstrip (rev s)).

(** [s.strip()] *)
Definition strip (s : text) : text := rstrip (lstrip s).

Fixpoint starts_with (p s : text) : bool :=
  match p, s with
  | [], _ => true
  | x :: p', y :: s' => N.eqb x y && starts_with p' s'
  | _ :: _, [] => false
  end.

(** [needle in hay] *)
Fixpoint contains (needle hay : text) : bool :=
  starts_with needle hay ||
  match hay with
  | [] => false
  | _ :: hay' => contains needle hay'
  end.

(** [any(keyword in s for keyword in keywords)] *)
Definition any_in (keywords : list text) (s : text) : bool :=
  existsb (fun keyword => contains keyword s) keywords.

Fixpoint replace_from (old new : text) (skip : nat) (s : text) : text :=
  match s with
  | [] => []
  | c :: s' =>
      match skip with
      | S k => replace_from old new k s'
      | O => if starts_with old s
             then new ++ replace_from old new (length old - 1) s'
             else c :: replace_from old new 0 s'
      end
  end.

(** [s.replace(old, new)] for a non-empty [old]: the occurrences of [old]
    are taken from left to right and do not overlap. *)
Definition replace (old new s : text) : text := replace_from old new 0 s.

(** [sep.join(l)] *)
Fixpoint join (sep : text) (l : list text) : text :=
  match l with
  | [] => []
  | [x] => x
  | x :: l' => x ++ sep ++ join sep l'
  end.

(** [s.split(c)] for a one-character separator. *)
Fixpoint split_char (c : char) (s : text) : list text :=
  match s with
  | [] => [[]]
  | x :: s' =>
      if N.eqb x c then [] :: split_char c s'
      else match split_char c s' with
           | h :: t => (x :: h) :: t
           | [] => [[x]]
           end
  end.

(** ASCII letters. *)
Definition lower_char (c : char) : char :=
  if ((65 <=? c) && (c <=? 90))%N then (c + 32)%N else c.

Definition is_ascii (c : char) : bool := (c <? 128)%N.

(** ** Regular expressions

    The patterns of the source use literal characters, character classes,
    sequence, alternation, the greedy [?] and the greedy [*] and [+] on a
    character class.  [rmatch] is the backtracking matcher of [re]: it
    tries the alternatives in the order of the pattern, the longer
    repetition first, and hands what is left of the text to the
    continuation [k]. *)
Inductive regex :=
| Eps
| Chr (p : char -> bool)
| Seq (r1 r2 : regex)
| Alt (r1 r2 : regex)
| Opt (r : regex)
| Star (p : char -> bool).

Definition Plus (p : char -> bool) : regex := Seq (Chr p) (Star p).

Fixpoint star_match {A : Type} (p : char -> bool) (s : text)
    (k : text -> option A) : option A :=
  match s with
  | c :: s' =>
      if p c then
        match star_match p s' k with
        | Some x => Some x
        | None => k s
        end
      else k s
  | [] => k []
  end.

Fixpoint rmatch {A : Type} (r : regex) (s : text) (k : text -> option A)
    : option A :=
  match r with
  | Eps => k s
  | Chr p =>
      match s with
      | c :: s' => if p c then k s' else None
      | [] => None
      end
  | Seq r1 r2 => rmatch r1 s (fun s' => rmatch r2 s' k)
  | Alt r1 r2 =>
      match rmatch r1 s k with
      | Some x => Some x
      | None => rmatch r2 s k
      end
  | Opt r1 =>
      match rmatch r1 s k with
      | Some x => Some x
      | None => k s
      end
  | Star p => star_match p s k
  end.

(** The texts a pattern denotes, apart from any matching strategy. *)
Inductive Matches : regex -> text -> Prop :=
| M_Eps : Matches Eps []
| M_Chr p c : p c = true -> Matches (Chr p) [c]
| M_Seq r1 r2 a b :
    Matches r1 a -> Matches r2 b -> Matches (Seq r1 r2) (a ++ b)
| M_AltL r1 r2 a : Matches r1 a -> Matches (Alt r1 r2) a
| M_AltR r1 r2 a : Matches r2 a -> Matches (Alt r1 r2) a
| M_OptSome r a : Matches r a -> Matches (Opt r) a
| M_OptNone r : Matches (Opt r) []
| M_Star p a : forallb p a = true -> Matches (Star p) a.

(** [s] has an occurrence of the pattern: a part of it that the pattern
    denotes. *)
Definition occurs (r : regex) (s : text) : Prop :=
  exists a m b, s = a ++ m ++ b /\ Matches r m.

(** The length of the shortest text of a pattern. *)
Fixpoint min_len (r : regex) : nat :=
  match r with
  | Eps => 0
  | Chr _ => 1
  | Seq r1 r2 => min_len r1 + min_len r2
  | Alt r1 r2 => Nat.min (min_len r1) (min_len r2)
  | Opt _ => 0
  | Star _ => 0
  end.

(** Pieces and the separators between them, put back together. *)
Fixpoint interleave (pieces seps : list text) : text :=
  match pieces, seps with
  | piece :: pieces', m :: seps' => piece ++ m ++ interleave pieces' seps'
  | piece :: _, [] => piece
  | [], _ => []
  end.

(** A match of [r] at the start of [s]: what follows the match. *)
Definition re_match (r : regex) (s : text) : option text := rmatch r s Some.

(** The leftmost match of [r] in [s]: the text before it and after it. *)
Fixpoint re_search (r : regex) (s : text) : option (text * text) :=
  match re_match r s with
  | Some rest => Some ([], rest)
  | None =>
      match s with
      | [] => None
      | c :: s' =>
          match re_search r s' with
          | Some (before, rest) => Some (c :: before, rest)
          | None => None
          end
      end
  end.

Fixpoint re_split_fuel (r : regex) (fuel : nat) (s : text) : list text :=
  match fuel with
  | O => [s]
  | S fuel' =>
      match re_search r s with
      | None => [s]
      | Some (before, rest) => before :: re_split_fuel r fuel' rest
      end
  end.

(** [re.split(r, s)] for a pattern without groups whose matches are never
    empty, as all patterns of the source are: every match consumes a
    character, so [length s] rounds reach the end of the text (lemma
    [re_split_eq]). *)
Definition re_split (r : regex) (s : text) : list text :=
  re_split_fuel r (List.length s) s.

(** [re.sub(r, repl, s)] for such a pattern and a replacement without
    escapes: the pieces between the matches, joined by [repl]. *)
Definition re_sub (r : regex) (repl s : text) : text :=
  join repl (re_split r s).

(** The match [m], followed by [rest], is the longest, or the shortest,
    text of the pattern at its place. *)
Definition longest (r : regex) (m rest : text) : Prop :=
  forall m' y, m ++ rest = m' ++ y -> Matches r m' ->
               List.length m' <= List.length m.

Definition shortest (r : regex) (m rest : text) : Prop :=
  forall m' y, m ++ rest = m' ++ y -> Matches r m' ->
               List.length m <= List.length m'.

(** [s] read from left to right as the parts [kept] with the matches
    [found] between them: each match is the leftmost text of the pattern
    in what is left of [s], the one at its place that [at_place] tells,
    and the search goes on after it; the last part has no text of the
    pattern. *)
Fixpoint leftmost_scan (at_place : text -> text -> Prop) (r : regex)
    (s : text) (kept found : list text) : Prop :=
  match kept with
  | [] => False
  | k :: kept' =>
      match found with
      | [] => kept' = [] /\ s = k /\ ~ occurs r s
      | m :: found' =>
          exists rest,
            s = k ++ m ++ rest
            /\ Matches r m
            /\ (forall x m' y, s = x ++ m' ++ y -> Matches r m' ->
                               List.length k <= List.length x)
            /\ at_place m rest
            /\ leftmost_scan at_place r rest kept' found'
      end
  end.

(** The code points that a literal [p] of a pattern compiled with
    [re.IGNORECASE] matches besides the two cases of [p]: the characters
    whose simple lower case is an ASCII letter (U+0130 for i, U+212A for k)
    and the case-equivalent characters of [re] (U+0131 for i, U+017F for
    s). *)
Definition ignorecase_extra (p : char) : list char :=
  if N.eqb p 105 then [304; 305]%N
  else if N.eqb p 107 then [8490]%N
  else if N.eqb p 115 then [383]%N
  else [].

Definition is_lower_letter (c : char) : bool := ((97 <=? c) && (c <=? 122))%N.

(** Does the character [c] match the literal [p] under [re.IGNORECASE]?
    ([p] is an ASCII character or a caseless one.) *)
Definition ignorecase (p c : char) : bool :=
  let q := lower_char p in
  if is_lower_letter q
  then N.eqb c q || N.eqb c (q - 32)%N || existsb (N.eqb c) (ignorecase_extra q)
  else N.eqb c p.

Definition ch (a : ascii) : char := N_of_ascii a.

(** The literal [s] of a pattern compiled with [re.IGNORECASE]. *)
Fixpoint ilit_of (s : text) : regex :=
  match s with
  | [] => Eps
  | [c] => Chr (ignorecase c)
  | c :: s' => Seq (Chr (ignorecase c)) (ilit_of s')
  end.

Definition ilit (s : string) : regex := ilit_of (lit s).

Definition is_empty {A : Type} (l : list A) : bool :=
  match l with
  | [] => true
  | _ :: _ => false
  end.

(** ** The parts of the runtime that are tables or platform choices

    [str.lower] follows the case tables of Unicode, [\d] and [int] accept
    every Unicode decimal digit, and [strftime("%Y")] pads years below 1000
    to four digits on some C libraries and not on others.  The development
    is parametric in them.  What it uses of them is stated as laws:
    [str.lower] lowers the ASCII letters of an ASCII text and nothing else
    in it, lowering twice is lowering once, a text without white space
    at its ends has none after lowering, and a digit outside ASCII has a
    value below ten. *)
Class Runtime := {
  lower : text -> text;
  nonascii_digit : char -> option N;
  year_padded : bool;
  lower_ascii :
    forall s, forallb is_ascii s = true -> lower s = map lower_char s;
  lower_idem : forall s, lower (lower s) = lower s;
  lower_stripped : forall s, strip s = s -> strip (lower s) = lower s;
  nonascii_digit_spec :
    forall c v, nonascii_digit c = Some v -> (v < 10)%N /\ (128 <= c)%N
}.

(** The value of [mapLink]: one string or a list of strings. *)
Inductive map_link :=
| OneLink (link : text)
| LinkList (links : list text).

(** ** Sheets and the itinerary *)

(** A column label: a [str], or an object of another type, given by its
    [str(col)] (header cells that are not text come as numbers, dates and
    booleans). *)
Inductive label :=
| StrLabel (s : text)
| OtherLabel (shown : text).

(** A cell read with [dtype=str]: a [str], or [None] for the missing value
    ([pd.isna]). *)
Definition cell := option text.

(** A sheet as the spreadsheet reader hands it over: its name, the labels
    of its columns and its rows, each with one cell per column.  The
    labels of a sheet are taken to stay distinct after normalisation, so
    that [row[name]] is one cell. *)
Record sheet := {
  sheet_name : text;
  columns : list label;
  rows : list (list cell)
}.

Module Activity.
Record t := {
  time : text;
  activity : text;
  location : text;
  mapLink : map_link;
  directions : list text;
  transportation : list text;
  thingsToDo : list text;
  ticketsToBuy : list text;
  costsAndNotes : list text;
  type : list text;
  city : text
}.
End Activity.

Module DateGroup.
Record t := {
  city : text;
  date : text;
  activities : list Activity.t
}.
End DateGroup.

(** What a run of [table_to_json] ends in: its value or the exception it
    raises. *)
Inductive outcome (A : Type) :=
| Returns (a : A)
| RaisesValueError (sheet_name : text) (missing : list text)
    (found : list label)
| RaisesAttributeError.

Arguments Returns {A} a.
Arguments RaisesValueError {A} sheet_name missing found.
Arguments RaisesAttributeError {A}.

(** [name in names] *)
Definition mem (name : text) (names : list text) : bool :=
  existsb (text_eqb name) names.

(** [d[key].append(value)], after [d[key] = []] where the key is new: the
    dictionary keeps its keys in the order of their first insertion. *)
Fixpoint dict_append {A : Type} (key : text) (value : A)
    (d : list (text * list A)) : list (text * list A) :=
  match d with
  | [] => [(key, [value])]
  | (key', values) :: d' =>
      if text_eqb key' key then (key', values ++ [value]) :: d'
      else (key', values) :: dict_append key value d'
  end.

(** [d.get(key)] *)
Fixpoint dict_get {A : Type} (key : text) (d : list (text * list A))
    : option (list A) :=
  match d with
  | [] => None
  | (key', values) :: d' =>
      if text_eqb key' key then Some values else dict_get key d'
  end.

(** The dictionary after the pairs of a sequence were appended in order. *)
Definition dict_build {A : Type} (records : list (text * A))
    (d : list (text * list A)) : list (text * list A) :=
  fold_left (fun d r => dict_append (fst r) (snd r) d) records d.

(** The values of a key in a sequence of pairs, in order. *)
Definition values_of {A : Type} (key : text) (records : list (text * A))
    : list A :=
  map snd (filter (fun r => text_eqb (fst r) key) records).

Fixpoint insert_sorted {A : Type} (leb : A -> A -> bool) (x : A)
    (l : list A) : list A :=
  match l with
  | [] => [x]
  | y :: l' => if leb x y then x :: l else y :: insert_sorted leb x l'
  end.

(** [sorted(l)]: a stable sort. *)
Fixpoint sorted {A : Type} (leb : A -> A -> bool) (l : list A) : list A :=
  match l with
  | [] => []
  | x :: l' => insert_sorted leb x (sorted leb l')
  end.

(** [set(l)], as a list without repetitions. *)
Fixpoint set_of (l : list text) : list text :=
  match l with
  | [] => []
  | x :: l' => if mem x l' then set_of l' else x :: set_of l'
  end.

(** The cell of the column [name] in a row, [row[name]], for a sheet whose
    labels are distinct after normalisation ([labels_distinct]); with two
    labels of the same name [row[name]] is not a cell but a [Series], and
    the properties that depend on it are stated for distinct labels. *)
Fixpoint row_get (names : list text) (row : list cell) (name : text) : cell :=
  match names, row with
  | n :: names', x :: row' =>
      if text_eqb n name then x else row_get names' row' name
  | _, _ => None
  end.

(** [str(x)] of a cell; the missing value prints as [nan]. *)
Definition cell_str (x : cell) : text :=
  match x with
  | Some s => s
  | None => lit "nan"
  end.

(** [str(x) if not pd.isna(x) else default] *)
Definition cell_or (default : text) (x : cell) : text :=
  match x with
  | Some s => s
  | None => default
  end.

(** The labels of the columns if all of them are [str]. *)
Fixpoint str_labels (cols : list label) : option (list text) :=
  match cols with
  | [] => Some []
  | StrLabel s :: cols' =>
      match str_labels cols' with
      | Some l => Some (s :: l)
      | None => None
      end
  | OtherLabel _ :: _ => None
  end.

Section Program.

Context {R : Runtime}.

(** ** assign_activity_type *)

Definition travel_activity_keywords : list text :=
  [lit "arrive"; lit "flight"; lit "taxi"; lit "walk to"; lit "vaporetto";
   lit "train"; lit "water bus"; lit "check-in"; lit "check out";
   lit "luggage"; lit "customs"; lit "immigration"].

Definition travel_notes_keywords : list text :=
  [lit "flight"; lit "taxi"; lit "vaporetto"; lit "train"].

Definition dining_keywords : list text :=
  [lit "breakfast"; lit "lunch"; lit "dinner"; lit "gelato"; lit "snack"].

Definition activity_keywords : list text :=
  [lit "view"; lit "relax"; lit "explore"; lit "free time"; lit "gondola";
   lit "market"].

Definition activity_notes_keywords : list text :=
  [lit "photo"; lit "sightseeing"; lit "market"].

Definition assign_activity_type (activity notes : text) : list text :=
  let activity_lower := lower activity in
  let notes_lower := lower notes in
  let types := [] in
  let types :=
    if any_in travel_activity_keywords activity_lower
       || any_in travel_notes_keywords notes_lower
    then types ++ [lit "travel"] else types in
  let types :=
    if any_in dining_keywords activity_lower
    then types ++ [lit "dining"] else types in
  let types :=
    if any_in activity_keywords activity_lower
       || any_in activity_notes_keywords notes_lower
    then types ++ [lit "activity"] else types in
  match types with
  | [] => [lit "activity"]
  | _ :: _ => types
  end.

(** ** process_notes *)

(** The filler pattern of [process_notes], compiled with [re.IGNORECASE]:
    [(?:[Hh]old\s+(?:kids’?|children’s?)\s+hands?|watch\s+(?:kids|children))] *)
Definition filler_pattern : regex :=
  Alt
    (Seq (Chr (fun c => ignorecase (ch "H") c || ignorecase (ch "h") c))
      (Seq (ilit "old")
        (Seq (Plus isspace)
          (Seq (Alt (Seq (ilit "kids") (Opt (Chr (ignorecase rsquo))))
                    (Seq (ilit "children")
                      (Seq (Chr (ignorecase rsquo))
                           (Opt (Chr (ignorecase (ch "s")))))))
            (Seq (Plus isspace)
              (Seq (ilit "hand") (Opt (Chr (ignorecase (ch "s"))))))))))
    (Seq (ilit "watch")
      (Seq (Plus isspace) (Alt (ilit "kids") (ilit "children")))).

(** The separators of sentences, [[.\n;]]. *)
Definition is_sentence_separator (c : char) : bool :=
  N.eqb c (ch ".") || N.eqb c 10%N || N.eqb c (ch ";").

Definition sentence_separator : regex := Chr is_sentence_separator.

Definition cost_keywords : list text :=
  [lit "apple pay"; lit "cash"; lit "ticket"; lit "fare"; lit "price";
   lit "booking"; lit "reservation"].

Definition ticket_keywords : list text := [lit "fare"; lit "ticket"].

(** The condition of the source's outer [if]: a cost-related sentence. *)
Definition mentions_cost (sentence : text) : bool :=
  contains (lit "cost") (lower sentence)
  || contains [euro] sentence
  || any_in cost_keywords (lower sentence).

(** The condition of the source's inner [if]. *)
Definition mentions_ticket (sentence : text) : bool :=
  contains [euro] sentence || any_in ticket_keywords (lower sentence).

(** The [for] loop of [process_notes], threading the two lists. *)
Fixpoint classify_sentences (sentences : list text)
    (costs_and_notes tickets_to_buy : list text) : list text * list text :=
  match sentences with
  | [] => (costs_and_notes, tickets_to_buy)
  | sentence :: rest =>
      if mentions_cost sentence then
        let tickets_to_buy :=
          if mentions_ticket sentence then tickets_to_buy ++ [sentence]
          else tickets_to_buy in
        classify_sentences rest (costs_and_notes ++ [sentence]) tickets_to_buy
      else
        classify_sentences rest (costs_and_notes ++ [sentence]) tickets_to_buy
  end.

(** [[s.strip() for s in re.split(r'[.\n;]', notes) if s.strip()]] *)
Definition sentences_of (notes : text) : list text :=
  map strip
    (filter (fun s => negb (is_empty (strip s)))
       (re_split sentence_separator notes)).

(** [notes] is [None] where [pd.isna(notes)] holds. *)
Definition process_notes (notes : option text) : list text * list text :=
  match notes with
  | None => ([], [lit "None."])
  | Some notes =>
      let notes := strip (re_sub filler_pattern [] notes) in
      if is_empty notes then ([], [lit "None."])
      else
        let sentences := sentences_of notes in
        let '(costs_and_notes, tickets_to_buy) :=
          classify_sentences sentences [] [] in
        (if is_empty costs_and_notes then [] else costs_and_notes,
         if is_empty tickets_to_buy then [lit "None."] else tickets_to_buy)
  end.

(** ** generate_map_link *)

(** [\s*(?:to|→)\s*], case-sensitive. *)
Definition leg_separator : regex :=
  Seq (Star isspace)
    (Seq (Alt (Seq (Chr (N.eqb (ch "t"))) (Chr (N.eqb (ch "o"))))
              (Chr (N.eqb arrow)))
         (Star isspace)).

(** The separator of legs occurs in a location: ["to"] or ["→"] is in it. *)
Definition has_separator (location : text) : bool :=
  contains (lit "to") location || contains [arrow] location.

(** A text of the pattern of the separator: ["to"] or ["→"] with white
    space around it. *)
Definition is_leg_separator (m : text) : Prop :=
  exists w1 w2,
    forallb isspace w1 = true /\ forallb isspace w2 = true
    /\ (m = w1 ++ lit "to" ++ w2 \/ m = w1 ++ [arrow] ++ w2).

(** The characters that a placeholder link leaves out. *)
Definition is_space_or_paren (c : char) : bool :=
  N.eqb c (ch " ") || N.eqb c (ch "(") || N.eqb c (ch ")").

Definition maps_base : text := lit "https://maps.app.goo.gl/".

(** [f"https://maps.app.goo.gl/{loc.replace(' ', '').replace('(', '').replace(')', '')}"] *)
Definition placeholder_link (loc : text) : text :=
  maps_base
  ++ replace [ch ")"] [] (replace [ch "("] [] (replace [ch " "] [] loc)).

Definition generate_map_link (location : text) : map_link :=
  let locations := map strip (re_split leg_separator location) in
  if (1 <? List.length locations)%nat
  then LinkList (map placeholder_link locations)
  else OneLink (placeholder_link location).

(** ** convert_date *)

(** [\d]: a decimal digit, with the value [int] gives it. *)
Definition digit_value (c : char) : option N :=
  if ((48 <=? c) && (c <=? 57))%N then Some (c - 48)%N else nonascii_digit c.

(** The class [[lo-hi]] of ASCII digits. *)
Definition digit_in (lo hi : N) (c : char) : option N :=
  if ((48 + lo <=? c) && (c <=? 48 + hi))%N then Some (c - 48)%N else None.

(** One character of a digit class; the continuation gets its value. *)
Definition one {A : Type} (cls : char -> option N) (s : text)
    (k : N -> text -> option A) : option A :=
  match s with
  | c :: s' =>
      match cls c with
      | Some v => k v s'
      | None => None
      end
  | [] => None
  end.

Definition two {A : Type} (cls1 cls2 : char -> option N) (s : text)
    (k : N -> text -> option A) : option A :=
  one cls1 s (fun a s1 => one cls2 s1 (fun b s2 => k (10 * a + b)%N s2)).

(** One literal character of a format. *)
Definition sep {A : Type} (c : char) (s : text) (k : text -> option A)
    : option A :=
  match s with
  | x :: s' => if N.eqb x c then k s' else None
  | [] => None
  end.

(** Alternatives of a directive, tried in the order of its pattern. *)
Fixpoint first_of {A B : Type}
    (alts : list (text -> (B -> text -> option A) -> option A))
    (s : text) (k : B -> text -> option A) : option A :=
  match alts with
  | [] => None
  | alt :: alts' =>
      match alt s k with
      | Some x => Some x
      | None => first_of alts' s k
      end
  end.

(** [%d]: [3[0-1]|[1-2]\d|0[1-9]|[1-9]| [1-9]] *)
Definition dir_d {A : Type} : text -> (N -> text -> option A) -> option A :=
  first_of
    [two (digit_in 3 3) (digit_in 0 1);
     two (digit_in 1 2) digit_value;
     two (digit_in 0 0) (digit_in 1 9);
     one (digit_in 1 9);
     fun s k => sep 32%N s (fun s' => one (digit_in 1 9) s' k)].

(** [%m]: [1[0-2]|0[1-9]|[1-9]] *)
Definition dir_m {A : Type} : text -> (N -> text -> option A) -> option A :=
  first_of
    [two (digit_in 1 1) (digit_in 0 2);
     two (digit_in 0 0) (digit_in 1 9);
     one (digit_in 1 9)].

(** [%H]: [2[0-3]|[0-1]\d|\d] *)
Definition dir_H {A : Type} : text -> (N -> text -> option A) -> option A :=
  first_of
    [two (digit_in 2 2) (digit_in 0 3);
     two (digit_in 0 1) digit_value;
     one digit_value].

(** [%M]: [[0-5]\d|\d] *)
Definition dir_M {A : Type} : text -> (N -> text -> option A) -> option A :=
  first_of [two (digit_in 0 5) digit_value; one digit_value].

(** [%S]: [6[0-1]|[0-5]\d|\d] *)
Definition dir_S {A : Type} : text -> (N -> text -> option A) -> option A :=
  first_of
    [two (digit_in 6 6) (digit_in 0 1);
     two (digit_in 0 5) digit_value;
     one digit_value].

(** [%y]: [\d\d] *)
Definition dir_y {A : Type} : text -> (N -> text -> option A) -> option A :=
  two digit_value digit_value.

(** [%Y]: [\d\d\d\d] *)
Definition dir_Y {A : Type} (s : text) (k : N -> text -> option A)
    : option A :=
  two digit_value digit_value s
    (fun hi s1 => two digit_value digit_value s1
       (fun lo s2 => k (100 * hi + lo)%N s2)).

(** [calendar.month_abbr[1:]], lower-cased as [_strptime] keeps them. *)
Definition a_month : list text :=
  [lit "jan"; lit "feb"; lit "mar"; lit "apr"; lit "may"; lit "jun";
   lit "jul"; lit "aug"; lit "sep"; lit "oct"; lit "nov"; lit "dec"].

(** [calendar.month_name[1:]] *)
Definition f_month : list text :=
  [lit "January"; lit "February"; lit "March"; lit "April"; lit "May";
   lit "June"; lit "July"; lit "August"; lit "September"; lit "October";
   lit "November"; lit "December"].

(** Three characters that match the letters of [name] case-insensitively;
    the continuation gets the characters as they stand in the text. *)
Definition abbr {A : Type} (name : text) (s : text)
    (k : text -> text -> option A) : option A :=
  match name, s with
  | [p1; p2; p3], c1 :: c2 :: c3 :: s' =>
      if ignorecase p1 c1 && ignorecase p2 c2 && ignorecase p3 c3
      then k [c1; c2; c3] s'
      else None
  | _, _ => None
  end.

(** [%b]: [jan|feb|mar|apr|may|jun|jul|aug|sep|oct|nov|dec], compiled with
    [re.IGNORECASE] as every pattern of [_strptime] is. *)
Definition dir_b {A : Type} : text -> (text -> text -> option A) -> option A :=
  first_of (map abbr a_month).

(** White space of a format: [\s+]. *)
Definition spaces {A : Type} (s : text) (k : text -> option A) : option A :=
  rmatch (Plus isspace) s k.

(** [locale_time.a_month.index(b.lower())], counted from 1. *)
Fixpoint index_from (n : N) (names : list text) (b : text) : option N :=
  match names with
  | [] => None
  | name :: names' =>
      if text_eqb name b then Some n else index_from (n + 1)%N names' b
  end.

Definition month_of_abbr (b : text) : option N := index_from 1%N a_month (lower b).

Definition is_leap (y : N) : bool :=
  ((y mod 4 =? 0) && (negb (y mod 100 =? 0) || (y mod 400 =? 0)))%N.

Definition days_in_month (y m : N) : N :=
  if (m =? 2)%N then (if is_leap y then 29 else 28)%N
  else if ((m =? 4) || (m =? 6) || (m =? 9) || (m =? 11))%N then 30%N
  else 31%N.

Record datetime := {
  dt_year : N; dt_month : N; dt_day : N;
  dt_hour : N; dt_minute : N; dt_second : N
}.

(** The constructor [datetime(y, m, d, H, M, S)]; [None] is its
    [ValueError]. *)
Definition make_datetime (y m d H M sec : N) : option datetime :=
  if ((1 <=? y) && (y <=? 9999) && (1 <=? m) && (m <=? 12) && (1 <=? d)
      && (d <=? days_in_month y m) && (H <? 24) && (M <? 60) && (sec <? 60))%N
  then Some {| dt_year := y; dt_month := m; dt_day := d;
               dt_hour := H; dt_minute := M; dt_second := sec |}
  else None.

(** The year of [%y]: [year += 2000 if year <= 68 else 1900]. *)
Definition full_year (y : N) : N :=
  if (y <=? 68)%N then (y + 2000)%N else (y + 1900)%N.

(** The match of the pattern of ['%d-%b-%y'] at the start of the text:
    the groups and what is left of the text. *)
Definition match_dby (s : text) : option (N * text * N * text) :=
  dir_d s (fun d s1 =>
  sep (ch "-") s1 (fun s2 =>
  dir_b s2 (fun b s3 =>
  sep (ch "-") s3 (fun s4 =>
  dir_y s4 (fun y s5 => Some (d, b, y, s5)))))).

(** [datetime.strptime(date_str, '%d-%b-%y')]; [None] is [ValueError]:
    no match, unconverted data, a month that is not in the table, or a day
    the month does not have. *)
Definition strptime_dby (date_str : text) : option datetime :=
  match match_dby date_str with
  | Some (d, b, y, rest) =>
      if is_empty rest then
        match month_of_abbr b with
        | Some m => make_datetime (full_year y) m d 0 0 0
        | None => None
        end
      else None
  | None => None
  end.

Definition match_YmdHMS (s : text) : option (N * N * N * N * N * N * text) :=
  dir_Y s (fun Y s1 =>
  sep (ch "-") s1 (fun s2 =>
  dir_m s2 (fun m s3 =>
  sep (ch "-") s3 (fun s4 =>
  dir_d s4 (fun d s5 =>
  spaces s5 (fun s6 =>
  dir_H s6 (fun H s7 =>
  sep (ch ":") s7 (fun s8 =>
  dir_M s8 (fun M s9 =>
  sep (ch ":") s9 (fun s10 =>
  dir_S s10 (fun sec s11 => Some (Y, m, d, H, M, sec, s11)))))))))))).

(** [datetime.strptime(date_str, '%Y-%m-%d %H:%M:%S')] *)
Definition strptime_YmdHMS (date_str : text) : option datetime :=
  match match_YmdHMS date_str with
  | Some (Y, m, d, H, M, sec, rest) =>
      if is_empty rest then make_datetime Y m d H M sec else None
  | None => None
  end.

Definition digit (n : N) : char := (48 + n)%N.

(** Two and four decimal digits, zero-padded. *)
Definition pad2 (n : N) : text := [digit (n / 10); digit (n mod 10)].

Definition pad4 (n : N) : text :=
  [digit (n / 1000); digit (n / 100 mod 10); digit (n / 10 mod 10);
   digit (n mod 10)].

Fixpoint drop_zeros (s : text) : text :=
  match s with
  | c :: (_ :: _) as s' => if N.eqb c 48 then drop_zeros s' else s
  | _ => s
  end.

(** A number below 10000 in decimal, without padding. *)
Definition decimal (n : N) : text := drop_zeros (pad4 n).

(** [%Y] of [strftime]: four digits where the C library pads the year. *)
Definition year_text (y : N) : text :=
  if year_padded then pad4 y else decimal y.

(** [calendar.month_name[m]] *)
Definition month_name (m : N) : text := nth (N.to_nat m - 1) f_month [].

(** [date_obj.strftime('%B %d, %Y')] *)
Definition strftime (d : datetime) : text :=
  month_name (dt_month d)
  ++ lit " " ++ pad2 (dt_day d) ++ lit ", " ++ year_text (dt_year d).

(** The day of the month without a leading zero. *)
Definition day_text (d : N) : text :=
  if (d <? 10)%N then [digit d] else pad2 d.

(** The form "Month D, YYYY" of a date: the name of the month, the day
    without a leading zero and the year in four digits. *)
Definition display_date (d : datetime) : text :=
  month_name (dt_month d)
  ++ lit " " ++ day_text (dt_day d) ++ lit ", " ++ pad4 (dt_year d).

(** [calendar.month_abbr[m]] *)
Definition month_abbr (m : N) : text :=
  nth (N.to_nat m - 1)
    [lit "Jan"; lit "Feb"; lit "Mar"; lit "Apr"; lit "May"; lit "Jun";
     lit "Jul"; lit "Aug"; lit "Sep"; lit "Oct"; lit "Nov"; lit "Dec"] [].

(** The text of a date in the form of ["3-Jul-25"], for a day written as
    [day]. *)
Definition dby_text (day : text) (m y : N) : text :=
  day ++ lit "-" ++ month_abbr m ++ lit "-" ++ pad2 y.

(** The text of a date and time in the form ["YYYY-MM-DD HH:MM:SS"]. *)
Definition timestamp_text (y m d H M sec : N) : text :=
  pad4 y ++ lit "-" ++ pad2 m ++ lit "-" ++ pad2 d ++ lit " "
  ++ pad2 H ++ lit ":" ++ pad2 M ++ lit ":" ++ pad2 sec.

Definition convert_date (date_str : text) : text :=
  match strptime_dby date_str with
  | Some date_obj => replace (lit " 0") (lit " ") (strftime date_obj)
  | None =>
      match strptime_YmdHMS date_str with
      | Some date_obj => replace (lit " 0") (lit " ") (strftime date_obj)
      | None => date_str
      end
  end.

(** ** normalize_columns *)

Definition normalize_columns (columns : list label) : list text :=
  map (fun col =>
         match col with
         | StrLabel col => lower (strip col)
         | OtherLabel shown => lower shown
         end) columns.

(** ** table_to_json *)

Definition expected_columns : list text :=
  [lit "date"; lit "time"; lit "activity"; lit "location"; lit "directions";
   lit "transportation details"; lit "notes"].

(** [[d.strip() for d in x.split('.') if d.strip()] if x != 'N/A' else ['N/A']] *)
Definition sentence_list (x : text) : list text :=
  if text_eqb x (lit "N/A") then [lit "N/A"]
  else map strip
         (filter (fun d => negb (is_empty (strip d))) (split_char (ch ".") x)).

Definition things_to_do_of (activity location : text) : list text :=
  let activity_lower := lower activity in
  let has (k : text) := contains k activity_lower in
  let things_to_do := [] in
  let things_to_do :=
    if has (lit "arrive")
    then things_to_do ++ [lit "Arrive at " ++ location ++ lit "."]
    else things_to_do in
  let things_to_do :=
    if has (lit "walk")
    then things_to_do ++ [lit "Walk to " ++ location ++ lit "."]
    else things_to_do in
  let things_to_do :=
    if has (lit "taxi") || has (lit "flight") || has (lit "train") || has (lit "vaporetto")
    then things_to_do ++ [lit "Travel to " ++ location ++ lit "."]
    else things_to_do in
  let things_to_do :=
    if has (lit "breakfast") || has (lit "lunch") || has (lit "dinner") || has (lit "gelato")
    then things_to_do
         ++ [lit "Enjoy " ++ activity_lower ++ lit " at " ++ location ++ lit "."]
    else things_to_do in
  let things_to_do :=
    if has (lit "view") || has (lit "explore") || has (lit "relax") || has (lit "free time")
    then things_to_do ++ [lit "Explore or relax at " ++ location ++ lit "."]
    else things_to_do in
  let things_to_do :=
    if has (lit "check-in") || has (lit "check out")
    then things_to_do ++ [lit "Complete check-in/out at " ++ location ++ lit "."]
    else things_to_do in
  let things_to_do :=
    if has (lit "luggage")
    then things_to_do ++ [lit "Handle luggage at " ++ location ++ lit "."]
    else things_to_do in
  if is_empty things_to_do
  then [lit "Perform activity: " ++ activity ++ lit "."]
  else things_to_do.

(** The body of the loop over the rows: the key and the record of a row. *)
Definition process_row (sheet_name : text) (names : list text)
    (row : list cell) : text * Activity.t :=
  let get := row_get names row in
  let date := cell_str (get (lit "date")) in
  let formatted_date := convert_date date in
  let activity := cell_or [] (get (lit "activity")) in
  let location := cell_or [] (get (lit "location")) in
  let directions := cell_or (lit "N/A") (get (lit "directions")) in
  let transportation :=
    cell_or (lit "N/A") (get (lit "transportation details")) in
  let notes := cell_or [] (get (lit "notes")) in
  let directions_list := sentence_list directions in
  let transportation_list := sentence_list transportation in
  let '(costs_and_notes, tickets_to_buy) := process_notes (Some notes) in
  let things_to_do := things_to_do_of activity location in
  (formatted_date,
   {| Activity.time := cell_str (get (lit "time"));
      Activity.activity := activity;
      Activity.location := location;
      Activity.mapLink := generate_map_link location;
      Activity.directions := directions_list;
      Activity.transportation := transportation_list;
      Activity.thingsToDo := things_to_do;
      Activity.ticketsToBuy := tickets_to_buy;
      Activity.costsAndNotes := costs_and_notes;
      Activity.type := assign_activity_type activity notes;
      Activity.city := sheet_name |}).

Definition dict := list (text * list Activity.t).

(** The loop over the rows of a sheet. *)
Definition process_rows (sheet_name : text) (names : list text)
    (rows : list (list cell)) (date_to_activities : dict) : dict :=
  fold_left
    (fun d row =>
       let '(formatted_date, activity_data) :=
         process_row sheet_name names row in
       dict_append formatted_date activity_data d)
    rows date_to_activities.

(** [missing]: the expected columns that are not among the actual ones. *)
Definition missing_columns (actual_columns : list text) : list text :=
  filter (fun col => negb (mem col actual_columns)) expected_columns.

(** The body of the loop over the sheets.  The columns are validated
    first; [col.strip()] on the labels raises [AttributeError] on a label
    that is not a [str]. *)
Definition process_sheet (date_to_activities : dict) (sh : sheet)
    : outcome dict :=
  let actual_columns := normalize_columns (columns sh) in
  if negb (forallb (fun col => mem col actual_columns) expected_columns) then
    RaisesValueError (sheet_name sh) (missing_columns actual_columns)
      (columns sh)
  else
    match str_labels (columns sh) with
    | None => RaisesAttributeError
    | Some cols =>
        let names := map (fun col => lower (strip col)) cols in
        Returns (process_rows (sheet_name sh) names (rows sh)
                   date_to_activities)
    end.

Fixpoint process_sheets (date_to_activities : dict) (sheets : list sheet)
    : outcome dict :=
  match sheets with
  | [] => Returns date_to_activities
  | sh :: sheets' =>
      match process_sheet date_to_activities sh with
      | Returns d => process_sheets d sheets'
      | RaisesValueError n m f => RaisesValueError n m f
      | RaisesAttributeError => RaisesAttributeError
      end
  end.

(** [", ".join(sorted(set(a["city"] for a in activities)))] *)
Definition cities_of (activities : list Activity.t) : text :=
  join (lit ", ") (sorted text_leb (set_of (map Activity.city activities))).

(** The keys of a dictionary are distinct, so [sorted(d.items())] compares
    keys only. *)
Definition sorted_items (d : dict) : dict :=
  sorted (fun a b => text_leb (fst a) (fst b)) d.

(** The sheets are those of the workbook, in the order of
    [xls.sheet_names], read with the [header_row] and [skip_rows] of the
    call. *)
Definition table_to_json (sheets : list sheet) : outcome (list DateGroup.t) :=
  match process_sheets [] sheets with
  | Returns date_to_activities =>
      Returns
        (map (fun '(date, activities) =>
                {| DateGroup.city := cities_of activities;
                   DateGroup.date := date;
                   DateGroup.activities := activities |})
             (sorted_items date_to_activities))
  | RaisesValueError n m f => RaisesValueError n m f
  | RaisesAttributeError => RaisesAttributeError
  end.

(** The keys and records of the rows of a sheet and of all sheets, in the
    order in which the loops meet them. *)
Definition records_of_sheet (sh : sheet) : list (text * Activity.t) :=
  map (process_row (sheet_name sh) (normalize_columns (columns sh))) (rows sh).

Definition records_of (sheets : list sheet) : list (text * Activity.t) :=
  flat_map records_of_sheet sheets.

End Program.

(** * Further definitions

    Definitions that the further properties below are stated with. *)

(** The keywords of the ladder of [things_to_do] in [table_to_json]. *)
Definition things_to_do_keywords : list text :=
  [lit "arrive"; lit "walk"; lit "taxi"; lit "flight"; lit "train";
   lit "vaporetto"; lit "breakfast"; lit "lunch"; lit "dinner";
   lit "gelato"; lit "view"; lit "explore"; lit "relax"; lit "free time";
   lit "check-in"; lit "check out"; lit "luggage"].

(** The links of a [mapLink], one or many. *)
Definition links_of (m : map_link) : list text :=
  match m with
  | OneLink link => [link]
  | LinkList links => links
  end.

(** ** update_html

    [json_data] is made of strings, lists and dictionaries with string
    keys.  [update_html] reads the page, serialises the data with
    [json.dumps], hands the text to [re.sub] as the replacement of the
    pattern [const itineraryData = \{[\s\S]*?\};] and writes the page
    back; on any exception of these steps it writes the JSON text to
    [debug_output.json] instead.  Reading, printing and writing are steps
    that the system can fail; what the system does is given to the run as
    a [system]. *)
#[local] Unset Elimination Schemes.
Inductive json :=
| JString (s : text)
| JArray (items : list json)
| JObject (members : list (text * json)).
#[local] Set Elimination Schemes.

Definition json_of_map_link (m : map_link) : json :=
  match m with
  | OneLink link => JString link
  | LinkList links => JArray (map JString links)
  end.

(** The dictionary [activity_data], its keys in the order of the
    source. *)
Definition json_of_activity (a : Activity.t) : json :=
  JObject
    [(lit "time", JString (Activity.time a));
     (lit "activity", JString (Activity.activity a));
     (lit "location", JString (Activity.location a));
     (lit "mapLink", json_of_map_link (Activity.mapLink a));
     (lit "directions", JArray (map JString (Activity.directions a)));
     (lit "transportation",
      JArray (map JString (Activity.transportation a)));
     (lit "thingsToDo", JArray (map JString (Activity.thingsToDo a)));
     (lit "ticketsToBuy", JArray (map JString (Activity.ticketsToBuy a)));
     (lit "costsAndNotes", JArray (map JString (Activity.costsAndNotes a)));
     (lit "type", JArray (map JString (Activity.type a)));
     (lit "city", JString (Activity.city a))].

Definition json_of_group (g : DateGroup.t) : json :=
  JObject
    [(lit "city", JString (DateGroup.city g));
     (lit "date", JString (DateGroup.date g));
     (lit "activities",
      JArray (map json_of_activity (DateGroup.activities g)))].

(** [{"itinerary": itinerary}], the value that [table_to_json] returns. *)
Definition json_data_of (itinerary : list DateGroup.t) : json :=
  JObject [(lit "itinerary", JArray (map json_of_group itinerary))].

Definition quote : char := 34%N.
Definition backslash : char := 92%N.

(** A digit of ['{0:04x}'.format(i)]. *)
Definition hex_digit (n : N) : char :=
  if (n <? 10)%N then (48 + n)%N else (87 + n)%N.

(** [ESCAPE_DCT] of [json.encoder], on the characters of [ESCAPE]: the
    quote, the backslash and the characters below U+0020. *)
Definition json_escape (c : char) : text :=
  if N.eqb c quote then [backslash; quote]
  else if N.eqb c backslash then [backslash; backslash]
  else if N.eqb c 10 then [backslash; ch "n"]
  else if N.eqb c 13 then [backslash; ch "r"]
  else if N.eqb c 9 then [backslash; ch "t"]
  else if N.eqb c 12 then [backslash; ch "f"]
  else if N.eqb c 8 then [backslash; ch "b"]
  else if (c <? 32)%N
       then [backslash; ch "u"; ch "0"; ch "0";
             hex_digit (c / 16); hex_digit (c mod 16)]
  else [c].

(** [encode_basestring], the encoder of strings with
    [ensure_ascii=False]. *)
Definition encode_basestring (s : text) : text :=
  [quote] ++ flat_map json_escape s ++ [quote].

(** ['\n' + _indent * _current_indent_level] with [indent=2]. *)
Definition newline_indent (level : nat) : text :=
  10%N :: concat (repeat (lit "  ") level).

(** [_iterencode] of [json.encoder] with [indent=2], whose item separator
    is [","] and whose key separator is [": "], for an encoder of strings
    [_encoder]; the chunks are put together. *)
Fixpoint iterencode (_encoder : text -> text) (o : json) (level : nat)
    : text :=
  match o with
  | JString s => _encoder s
  | JArray items =>
      if is_empty items then lit "[]"
      else
        lit "[" ++ newline_indent (S level)
        ++ join (lit "," ++ newline_indent (S level))
             (map (fun value => iterencode _encoder value (S level)) items)
        ++ newline_indent level ++ lit "]"
  | JObject members =>
      if is_empty members then lit "{}"
      else
        lit "{" ++ newline_indent (S level)
        ++ join (lit "," ++ newline_indent (S level))
             (map (fun '(key, value) =>
                     _encoder key ++ lit ": "
                     ++ iterencode _encoder value (S level))
                members)
        ++ newline_indent level ++ lit "}"
  end.

(** [json.dumps(o, indent=2, ensure_ascii=False)] *)
Definition dumps (o : json) : text := iterencode encode_basestring o 0.

(** The keys and the strings of a value. *)
Fixpoint strings_of (o : json) : list text :=
  match o with
  | JString s => [s]
  | JArray items => flat_map strings_of items
  | JObject members =>
      flat_map (fun '(key, value) => key :: strings_of value) members
  end.

(** *** The template of [re.sub]

    [re] parses a replacement that has a backslash as a template: [\g<name>]
    and [\1] to [\99] refer to groups, [\0] and three octal digits are
    characters, [\a \b \f \n \r \t \v \\] are the characters they name, a
    backslash before another ASCII letter is an error and a backslash
    before any other character stays as it is.  The pattern of
    [update_html] has no group, so a reference is valid only if it is
    [\g<name>] with a name that is a number equal to 0, which stands for
    the whole match; which names are such numbers differs between
    versions of Python and is left to [refers_to_match]. *)
Inductive piece :=
| Lit (c : char)
| WholeMatch.

Class GroupNames := {
  refers_to_match : text -> bool
}.

(** [ESCAPES] of [re._parser] *)
Definition escape_of (d : char) : option char :=
  if N.eqb d (ch "a") then Some 7%N
  else if N.eqb d (ch "b") then Some 8%N
  else if N.eqb d (ch "f") then Some 12%N
  else if N.eqb d (ch "n") then Some 10%N
  else if N.eqb d (ch "r") then Some 13%N
  else if N.eqb d (ch "t") then Some 9%N
  else if N.eqb d (ch "v") then Some 11%N
  else if N.eqb d backslash then Some backslash
  else None.

Definition is_octdigit (c : char) : bool := ((48 <=? c) && (c <=? 55))%N.
Definition is_digit (c : char) : bool := ((48 <=? c) && (c <=? 57))%N.
Definition is_ascii_letter (c : char) : bool :=
  ((97 <=? c) && (c <=? 122) || (65 <=? c) && (c <=? 90))%N.

(** The characters [cs] before the pieces of the rest of a template. *)
Definition literal (cs : text) (rest : option (list piece))
    : option (list piece) :=
  option_map (app (map Lit cs)) rest.

(** The text that stands for a match in a template. *)
Definition expand_template (template : list piece) (m : text) : text :=
  flat_map (fun p => match p with
                     | Lit c => [c]
                     | WholeMatch => m
                     end) template.

(** The first occurrence of [needle] in [hay]: what is before it and what
    is after it. *)
Fixpoint find_text (needle hay : text) : option (text * text) :=
  if starts_with needle hay
  then Some ([], skipn (List.length needle) hay)
  else match hay with
       | [] => None
       | c :: hay' =>
           match find_text needle hay' with
           | Some (before, after) => Some (c :: before, after)
           | None => None
           end
       end.

Definition marker_open : text := lit "const itineraryData = {".
Definition marker_close : text := lit "};".

(** The leftmost match of [const itineraryData = \{[\s\S]*?\};] in a
    text: what is before it, the match and what is after it.  The match
    starts at the first [const itineraryData = {] and, the quantifier
    being lazy, ends with the first [};] after it; where no [};] follows
    the first start, none follows a later one. *)
Definition search_marker (s : text) : option (text * text * text) :=
  match find_text marker_open s with
  | None => None
  | Some (before, after) =>
      match find_text marker_close after with
      | None => None
      | Some (body, rest) =>
          Some (before, marker_open ++ body ++ marker_close, rest)
      end
  end.

Fixpoint sub_marker_fuel (fuel : nat) (template : list piece) (s : text)
    : text :=
  match fuel with
  | O => s
  | S fuel' =>
      match search_marker s with
      | None => s
      | Some (before, m, rest) =>
          before ++ expand_template template m
          ++ sub_marker_fuel fuel' template rest
      end
  end.

(** The matches replaced from left to right; a match is never empty, so
    [length s] rounds reach the end of the text. *)
Definition sub_marker (template : list piece) (s : text) : text :=
  sub_marker_fuel (List.length s) template s.

(** What a file holds after a run. *)
Inductive file_state :=
| Untouched                 (* it was not opened for writing *)
| Holds (content : text)    (* it was written and closed: its text *)
| Unfinished.               (* opening or writing it raised: it is as it
                               was, empty or cut short *)

(** What the system does for a run of [update_html], step by step in the
    order of the source; a step that is [false] raises. *)
Record system := {
  page : option text;     (* the text of the page as the file has it,
                             decoded; [None] where opening or reading it
                             raises *)
  linesep : text;         (* [os.linesep] *)
  prints_json : bool;     (* the two prints of the JSON text *)
  writes_page : bool;     (* opening the page for writing and writing it *)
  prints_success : bool;  (* the print after the page was written *)
  prints_error : bool;    (* the print of the exception *)
  writes_debug : bool;    (* opening and writing [debug_output.json] *)
  prints_saved : bool     (* the last print *)
}.

(** What a run of [update_html] ends in: the two files, and whether an
    exception leaves the function. *)
Record update_result := {
  html_file : file_state;
  debug_file : file_state;
  raises : bool
}.

(** A file read in text mode with [newline=None]: the line ends
    ["\r\n"] and ["\r"] come as ["\n"]. *)
Fixpoint universal_newlines (s : text) : text :=
  match s with
  | [] => []
  | c :: s' =>
      if N.eqb c 13 then
        10%N :: match s' with
                | d :: s'' =>
                    if N.eqb d 10 then universal_newlines s''
                    else universal_newlines s'
                | [] => []
                end
      else c :: universal_newlines s'
  end.

(** A file written in text mode with [newline=None]: every ["\n"] goes
    out as the line separator of the system. *)
Definition write_newlines (linesep : text) (s : text) : text :=
  flat_map (fun c => if N.eqb c 10 then linesep else [c]) s.

(** What a run of [main] ends in. *)
Inductive main_outcome :=
| ExcelFileNotFound
| HtmlFileNotFound
| MainRaisesValueError (sheet_name : text) (missing : list text)
    (found : list label)
| MainRaisesAttributeError
| Updates (result : update_result).

Section Update.

Context {R : Runtime} {G : GroupNames}.

(** [parse_template] of [re._parser] for a pattern without groups: the
    pieces of the template, or [None] where the parser raises.  [name] is
    [Some] of the characters read so far inside a [\g<...>]. *)
Fixpoint parse_template (name : option text) (s : text)
    : option (list piece) :=
  match name with
  | Some read =>
      match s with
      | [] => None
      | c :: s1 =>
          if N.eqb c backslash then
            match s1 with
            | [] => None
            | d :: s2 => parse_template (Some (read ++ [c; d])) s2
            end
          else if N.eqb c (ch ">") then
            if is_empty read then None
            else if refers_to_match read
                 then option_map (cons WholeMatch) (parse_template None s1)
                 else None
          else parse_template (Some (read ++ [c])) s1
      end
  | None =>
      match s with
      | [] => Some []
      | c :: s1 =>
          if N.eqb c backslash then
            match s1 with
            | [] => None
            | d :: s2 =>
                if N.eqb d (ch "g") then
                  match s2 with
                  | c3 :: s3 =>
                      if N.eqb c3 (ch "<") then parse_template (Some []) s3
                      else None
                  | [] => None
                  end
                else if N.eqb d (ch "0") then
                  match s2 with
                  | o1 :: s3 =>
                      if is_octdigit o1 then
                        match s3 with
                        | o2 :: s4 =>
                            if is_octdigit o2
                            then literal
                                   [N.land (8 * (o1 - 48) + (o2 - 48)) 255]
                                   (parse_template None s4)
                            else literal [(o1 - 48)%N]
                                   (parse_template None s3)
                        | [] => literal [(o1 - 48)%N]
                                  (parse_template None s3)
                        end
                      else literal [0%N] (parse_template None s2)
                  | [] => literal [0%N] (parse_template None s2)
                  end
                else if is_digit d then
                  match s2 with
                  | d2 :: s3 =>
                      if is_octdigit d && is_octdigit d2 then
                        match s3 with
                        | d3 :: s4 =>
                            if is_octdigit d3 then
                              let c :=
                                (64 * (d - 48) + 8 * (d2 - 48) + (d3 - 48))%N
                              in
                              if (255 <? c)%N then None
                              else literal [c] (parse_template None s4)
                            else None
                        | [] => None
                        end
                      else None
                  | [] => None
                  end
                else
                  match escape_of d with
                  | Some e => literal [e] (parse_template None s2)
                  | None =>
                      if is_ascii_letter d then None
                      else literal [backslash; d] (parse_template None s2)
                  end
            end
          else literal [c] (parse_template None s1)
      end
  end.

(** [re.sub(pattern, repl, s)] for the pattern of [update_html]; [None]
    where the template raises, which it does before any search. *)
Definition re_sub_marker (repl s : text) : option text :=
  match parse_template None repl with
  | Some template => Some (sub_marker template s)
  | None => None
  end.

(** The [except] branch, the page being in the state [html]: the print of
    the exception, the JSON text written to [debug_output.json] and the
    last print; an exception of these steps leaves the function. *)
Definition write_debug_output (sys : system) (json_data : json)
    (html : file_state) : update_result :=
  if negb (prints_error sys) then
    {| html_file := html; debug_file := Untouched; raises := true |}
  else if negb (writes_debug sys) then
    {| html_file := html; debug_file := Unfinished; raises := true |}
  else
    {| html_file := html;
       debug_file := Holds (write_newlines (linesep sys) (dumps json_data));
       raises := negb (prints_saved sys) |}.

Definition update_html (sys : system) (json_data : json) : update_result :=
  match page sys with
  | None => write_debug_output sys json_data Untouched
  | Some stored =>
      let html_content := universal_newlines stored in
      let json_str := dumps json_data in
      if negb (prints_json sys) then
        write_debug_output sys json_data Untouched
      else
        let new_json_str :=
          lit "const itineraryData = " ++ json_str ++ lit ";" in
        match re_sub_marker new_json_str html_content with
        | None => write_debug_output sys json_data Untouched
        | Some updated_html =>
            if negb (writes_page sys) then
              write_debug_output sys json_data Unfinished
            else
              let written :=
                Holds (write_newlines (linesep sys) updated_html) in
              if negb (prints_success sys) then
                write_debug_output sys json_data written
              else
                {| html_file := written; debug_file := Untouched;
                   raises := false |}
        end
  end.

(** ** main

    [workbook header_row] is the sheets of the workbook as they are read
    with that header row. *)
Definition main (excel_exists html_exists : bool)
    (workbook : nat -> list sheet) (sys : system) : main_outcome :=
  if negb excel_exists then ExcelFileNotFound
  else if negb html_exists then HtmlFileNotFound
  else
    match table_to_json (workbook 0) with
    | Returns itinerary =>
        Updates (update_html sys (json_data_of itinerary))
    | RaisesValueError _ _ _ =>
        match table_to_json (workbook 1) with
        | Returns itinerary =>
            Updates (update_html sys (json_data_of itinerary))
        | RaisesValueError name missing found =>
            MainRaisesValueError name missing found
        | RaisesAttributeError => MainRaisesAttributeError
        end
    | RaisesAttributeError => MainRaisesAttributeError
    end.

(** The labels of a sheet stay distinct after normalisation, so that
    [row[name]] is one cell.  (Where two labels come to the same name,
    [row[name]] is a [Series] of cells, on which the tests of the loop
    over the rows raise; the model of the rows is for sheets with
    distinct labels.) *)
Fixpoint distinct (l : list text) : bool :=
  match l with
  | [] => true
  | x :: l' => negb (mem x l') && distinct l'
  end.

Definition labels_distinct (sh : sheet) : bool :=
  distinct (normalize_columns (columns sh)).

(** A sheet that [table_to_json] takes: every expected column is among
    its normalised labels and all its labels are [str]. *)
Definition sheet_accepted (sh : sheet) : Prop :=
  (forall col, In col expected_columns ->
               In col (normalize_columns (columns sh)))
  /\ forall shown, ~ In (OtherLabel shown) (columns sh).

(** A sheet that fails the validation of its columns. *)
Definition sheet_lacks_column (sh : sheet) : Prop :=
  exists col, In col expected_columns
              /\ ~ In col (normalize_columns (columns sh)).

End Update.

(** *** What the properties of [update_html] are stated with *)

(** The literal [s] of a pattern. *)
Fixpoint lit_of (s : text) : regex :=
  match s with
  | [] => Eps
  | c :: s' => Seq (Chr (N.eqb c)) (lit_of s')
  end.

(** The texts of [const itineraryData = \{[\s\S]*?\};], apart from the
    choice that the lazy quantifier makes among them. *)
Definition marker_pattern : regex :=
  Seq (lit_of marker_open)
    (Seq (Star (fun _ => true)) (lit_of marker_close)).

(** The characters that JSON does not write as [\u00XX]: those from
    U+0020 on and the five below it that have an escape of their own. *)
Definition template_safe (c : char) : bool :=
  ((32 <=? c) || (c =? 8) || (c =? 9) || (c =? 10) || (c =? 12)
   || (c =? 13))%N.

(** A string between quotes with a backslash before each quote in it and
    nothing else changed. *)
Definition quoted_char (c : char) : text :=
  if N.eqb c quote then [backslash; quote] else [c].

Definition quoted_string (s : text) : text :=
  [quote] ++ flat_map quoted_char s ++ [quote].

(** * Properties *)

(** Comparisons of numbers that the hypotheses decide. *)
Ltac cmp_by_lia :=
  repeat match goal with
    | |- context [N.leb ?a ?b] =>
        first [ replace (N.leb a b) with true
                  by (symmetry; apply N.leb_le; lia)
              | replace (N.leb a b) with false
                  by (symmetry; apply N.leb_gt; lia) ]
    | |- context [N.ltb ?a ?b] =>
        first [ replace (N.ltb a b) with true
                  by (symmetry; apply N.ltb_lt; lia)
              | replace (N.ltb a b) with false
                  by (symmetry; apply N.ltb_ge; lia) ]
    | |- context [N.eqb ?a ?b] =>
        first [ replace (N.eqb a b) with false
                  by (symmetry; apply N.eqb_neq; lia)
              | replace (N.eqb a b) with true
                  by (symmetry; apply N.eqb_eq; lia) ]
    end.


(** ** Texts *)

Lemma text_eqb_eq (a b : text) : text_eqb a b = true <-> a = b.
Proof.
  revert b. induction a as [|x a IH]; intros [|y b]; simpl;
    try (split; [discriminate | discriminate]); [tauto|].
  rewrite andb_true_iff, N.eqb_eq, IH. split.
  - intros [-> ->]. reflexivity.
  - intros E. injection E. auto.
Qed.

Lemma text_eqb_refl (a : text) : text_eqb a a = true.
Proof. apply text_eqb_eq. reflexivity. Qed.

Lemma text_eqb_neq (a b : text) : text_eqb a b = false <-> a <> b.
Proof.
  rewrite <- text_eqb_eq. destruct (text_eqb a b); split; congruence.
Qed.

Lemma text_eqb_sym (a b : text) : text_eqb a b = text_eqb b a.
Proof.
  destruct (text_eqb a b) eqn:E.
  - apply text_eqb_eq in E. subst. symmetry. apply text_eqb_refl.
  - destruct (text_eqb b a) eqn:E'; [|reflexivity].
    apply text_eqb_eq in E'. subst. rewrite text_eqb_refl in E. discriminate.
Qed.

Lemma mem_In (x : text) (l : list text) : mem x l = true <-> In x l.
Proof.
  unfold mem. rewrite existsb_exists. split.
  - intros [y [Hy E]]. apply text_eqb_eq in E. subst. exact Hy.
  - intros H. exists x. split; [exact H | apply text_eqb_refl].
Qed.

(** ** The matcher and the texts of a pattern *)

Lemma star_match_sound {A : Type} (p : char -> bool) (s : text)
    (k : text -> option A) (x : A) :
  star_match p s k = Some x ->
  exists m rest, s = m ++ rest /\ forallb p m = true /\ k rest = Some x.
Proof.
  induction s as [|c s IH]; simpl; intros H.
  - exists [], []. auto.
  - destruct (p c) eqn:Hc.
    + destruct (star_match p s k) as [y|] eqn:E.
      * injection H as ->. destruct (IH eq_refl) as (m & rest & -> & Hm & Hk).
        exists (c :: m), rest. simpl. rewrite Hc, Hm. auto.
      * exists [], (c :: s). auto.
    + exists [], (c :: s). auto.
Qed.

Lemma rmatch_sound {A : Type} (r : regex) :
  forall (s : text) (k : text -> option A) (x : A),
    rmatch r s k = Some x ->
    exists m rest, s = m ++ rest /\ Matches r m /\ k rest = Some x.
Proof.
  induction r as [|p|r1 IH1 r2 IH2|r1 IH1 r2 IH2|r1 IH1|p];
    intros s k x H; simpl in H.
  - exists [], s. repeat split; [constructor | exact H].
  - destruct s as [|c s]; [discriminate|].
    destruct (p c) eqn:Hc; [|discriminate].
    exists [c], s. repeat split; [constructor; exact Hc | exact H].
  - apply IH1 in H. destruct H as (a & s1 & -> & Ha & H).
    apply IH2 in H. destruct H as (b & rest & -> & Hb & H).
    exists (a ++ b), rest. rewrite app_assoc.
    repeat split; [constructor; assumption | exact H].
  - destruct (rmatch r1 s k) as [y|] eqn:E.
    + injection H as ->. apply IH1 in E.
      destruct E as (m & rest & -> & Hm & Hk).
      exists m, rest. repeat split; [apply M_AltL; exact Hm | exact Hk].
    + apply IH2 in H. destruct H as (m & rest & -> & Hm & Hk).
      exists m, rest. repeat split; [apply M_AltR; exact Hm | exact Hk].
  - destruct (rmatch r1 s k) as [y|] eqn:E.
    + injection H as ->. apply IH1 in E.
      destruct E as (m & rest & -> & Hm & Hk).
      exists m, rest. repeat split; [apply M_OptSome; exact Hm | exact Hk].
    + exists [], s. repeat split; [apply M_OptNone | exact H].
  - apply star_match_sound in H. destruct H as (m & rest & -> & Hm & Hk).
    exists m, rest. repeat split; [constructor; exact Hm | exact Hk].
Qed.

Lemma star_match_complete {A : Type} (p : char -> bool) (m rest : text)
    (k : text -> option A) (x : A) :
  forallb p m = true -> k rest = Some x ->
  exists y, star_match p (m ++ rest) k = Some y.
Proof.
  intros Hm Hk. induction m as [|c m IH]; simpl.
  - destruct rest as [|c rest]; simpl.
    + eauto.
    + destruct (p c); [|eauto].
      destruct (star_match p rest k); eauto.
  - simpl in Hm. apply andb_true_iff in Hm. destruct Hm as [Hc Hm].
    rewrite Hc. destruct (IH Hm) as [y ->]. eauto.
Qed.

(** Backtracking loses no match: where the pattern denotes a prefix of the
    text and the continuation accepts what follows it, the matcher
    succeeds. *)
Lemma rmatch_complete {A : Type} (r : regex) (m : text) :
  Matches r m ->
  forall (rest : text) (k : text -> option A) (x : A),
    k rest = Some x -> exists y, rmatch r (m ++ rest) k = Some y.
Proof.
  induction 1 as [|p c Hc|r1 r2 a b _ IH1 _ IH2|r1 r2 a _ IH|r1 r2 a _ IH
                 |r a _ IH|r|p a Ha]; intros rest k x Hk; simpl.
  - eauto.
  - rewrite Hc. eauto.
  - rewrite <- app_assoc. destruct (IH2 rest k x Hk) as [y Hy].
    exact (IH1 (b ++ rest) (fun s' => rmatch r2 s' k) y Hy).
  - destruct (IH rest k x Hk) as [y ->]. eauto.
  - destruct (rmatch r1 (a ++ rest) k); [eauto|]. exact (IH rest k x Hk).
  - destruct (IH rest k x Hk) as [y ->]. eauto.
  - rewrite Hk. destruct (rmatch r rest k); eauto.
  - exact (star_match_complete p a rest k x Ha Hk).
Qed.

Lemma min_len_le (r : regex) (m : text) :
  Matches r m -> min_len r <= List.length m.
Proof.
  induction 1; simpl; try rewrite length_app; lia.
Qed.

Lemma re_match_sound (r : regex) (s rest : text) :
  re_match r s = Some rest -> exists m, s = m ++ rest /\ Matches r m.
Proof.
  intros H. apply rmatch_sound in H.
  destruct H as (m & rest' & -> & Hm & E). injection E as ->. eauto.
Qed.

Lemma re_match_complete (r : regex) (m : text) :
  Matches r m -> forall rest, re_match r (m ++ rest) <> None.
Proof.
  intros Hm rest. destruct (rmatch_complete r m Hm rest Some rest eq_refl) as [y Hy].
  unfold re_match. rewrite Hy. discriminate.
Qed.

Lemma re_search_none (r : regex) (s : text) :
  re_search r s = None -> ~ occurs r s.
Proof.
  induction s as [|c s IH]; simpl; intros H (a & m & b & E & Hm).
  - destruct a; [|discriminate]. destruct m; [|discriminate].
    destruct (re_match r []) eqn:E'; [discriminate|].
    exact (re_match_complete r _ Hm [] E').
  - destruct (re_match r (c :: s)) eqn:E'; [discriminate|].
    destruct a as [|c' a]; simpl in E.
    + rewrite E in E'. exact (re_match_complete r _ Hm b E').
    + injection E as -> ->.
      destruct (re_search r (a ++ m ++ b)) as [[? ?]|] eqn:E2; [discriminate|].
      apply (IH eq_refl). exists a, m, b. auto.
Qed.

(** The match found is the leftmost one: the pattern denotes the text
    between the two parts, and nothing before it. *)
Lemma re_search_some (r : regex) (s before rest : text) :
  0 < min_len r ->
  re_search r s = Some (before, rest) ->
  exists m, s = before ++ m ++ rest /\ Matches r m /\ ~ occurs r before.
Proof.
  intros Hr. revert before. induction s as [|c s IH]; simpl; intros before H.
  - destruct (re_match r []) eqn:E; [|discriminate].
    injection H as <- <-. apply re_match_sound in E.
    destruct E as (m & E & Hm). exists m. repeat split; auto.
    intros (a & m' & b & E' & Hm'). apply min_len_le in Hm'.
    destruct a; [|discriminate]. destruct m'; [simpl in Hm'; lia|discriminate].
  - destruct (re_match r (c :: s)) eqn:E.
    + injection H as <- <-. apply re_match_sound in E.
      destruct E as (m & E & Hm). exists m. repeat split; auto.
      intros (a & m' & b & E' & Hm'). apply min_len_le in Hm'.
      destruct a; [|discriminate]. destruct m'; [simpl in Hm'; lia|discriminate].
    + destruct (re_search r s) as [[b0 rest0]|] eqn:E2; [|discriminate].
      injection H as <- <-.
      destruct (IH b0 eq_refl) as (m & -> & Hm & Hno).
      exists m. repeat split; auto.
      intros (a & m' & b & E' & Hm').
      destruct a as [|c' a]; simpl in E'.
      * apply (re_match_complete r m' Hm' (b ++ m ++ rest0)).
        rewrite app_assoc, <- E'. exact E.
      * injection E' as -> ->. apply Hno. exists a, m', b. auto.
Qed.

Lemma re_search_shorter (r : regex) (s before rest : text) :
  0 < min_len r ->
  re_search r s = Some (before, rest) -> List.length rest < List.length s.
Proof.
  intros Hr H. destruct (re_search_some r s before rest Hr H) as (m & -> & Hm & _).
  apply min_len_le in Hm. rewrite !length_app. lia.
Qed.

Lemma re_split_fuel_enough (r : regex) :
  0 < min_len r ->
  forall (n n' : nat) (s : text),
    List.length s <= n -> List.length s <= n' ->
    re_split_fuel r n s = re_split_fuel r n' s.
Proof.
  intros Hr. induction n as [|n IH]; intros n' s Hn Hn'.
  - destruct s; [|simpl in Hn; lia].
    destruct n'; cbn [re_split_fuel]; [reflexivity|].
    destruct (re_search r []) as [[b rest]|] eqn:E; [|reflexivity].
    apply (re_search_shorter _ _ _ _ Hr) in E. simpl in E. lia.
  - destruct n' as [|n'].
    + destruct s; [|simpl in Hn'; lia]. cbn [re_split_fuel].
      destruct (re_search r []) as [[b rest]|] eqn:E; [|reflexivity].
      apply (re_search_shorter _ _ _ _ Hr) in E. simpl in E. lia.
    + cbn [re_split_fuel]. destruct (re_search r s) as [[b rest]|] eqn:E; [|reflexivity].
      apply (re_search_shorter _ _ _ _ Hr) in E.
      f_equal. apply IH; lia.
Qed.

(** The rounds of [re_split] reach the end of the text: one more match is
    looked for after each match found. *)
Lemma re_split_eq (r : regex) (s : text) :
  0 < min_len r ->
  re_split r s =
  match re_search r s with
  | None => [s]
  | Some (before, rest) => before :: re_split r rest
  end.
Proof.
  intros Hr. unfold re_split. destruct s as [|c s].
  - cbn [List.length re_split_fuel].
    destruct (re_search r []) as [[b rest]|] eqn:E; [|reflexivity].
    apply (re_search_shorter _ _ _ _ Hr) in E. simpl in E. lia.
  - cbn [List.length re_split_fuel].
    destruct (re_search r (c :: s)) as [[b rest]|] eqn:E; [|reflexivity].
    apply (re_search_shorter _ _ _ _ Hr) in E. simpl in E.
    f_equal. apply re_split_fuel_enough; [exact Hr | lia | lia].
Qed.

(** [re.split]: the text is the pieces with matches of the pattern between
    them, and no piece has an occurrence of the pattern. *)
Lemma re_split_spec (r : regex) :
  0 < min_len r ->
  forall s : text,
    exists seps,
      List.length (re_split r s) = S (List.length seps)
      /\ interleave (re_split r s) seps = s
      /\ Forall (Matches r) seps
      /\ Forall (fun piece => ~ occurs r piece) (re_split r s).
Proof.
  intros Hr s.
  induction s as [s IH] using (induction_ltof1 _ (@List.length char)).
  unfold ltof in IH. rewrite (re_split_eq r s Hr).
  destruct (re_search r s) as [[b rest]|] eqn:E.
  - destruct (re_search_some _ _ _ _ Hr E) as (m & -> & Hm & Hno).
    destruct (IH rest) as (seps & Hlen & Hint & Hseps & Hpieces).
    { rewrite !length_app. apply min_len_le in Hm. lia. }
    exists (m :: seps). cbn [List.length interleave]. repeat split.
    + rewrite Hlen. reflexivity.
    + rewrite Hint. reflexivity.
    + constructor; assumption.
    + constructor; assumption.
  - exists []. simpl. repeat split; [constructor|].
    constructor; [|constructor]. exact (re_search_none _ _ E).
Qed.

(** ** The choices of the matcher

    [rmatch] hands the continuation one candidate after the other; for the
    filler pattern the candidates at a place are two at most, the longer
    first. *)

Fixpoint first_some {A : Type} (k : text -> option A) (cands : list text)
    : option A :=
  match cands with
  | [] => None
  | t :: cands' =>
      match k t with
      | Some x => Some x
      | None => first_some k cands'
      end
  end.

(** The continuation takes no text that starts with a character of [P]. *)
Definition rejects {A : Type} (P : char -> bool) (k : text -> option A)
    : Prop :=
  forall c t, P c = true -> k (c :: t) = None.

(** The matcher has one way at most through [r] when what follows takes
    no text that starts with a character of [P]. *)
Definition det (P : char -> bool) (r : regex) : Prop :=
  forall s, exists o : option text,
    forall (A : Type) (k : text -> option A),
      rejects P k ->
      rmatch r s k = match o with Some t => k t | None => None end.

(** The texts of [r] start with a character of [Q]. *)
Definition starts (Q : char -> bool) (r : regex) : Prop :=
  forall (A : Type) (k : text -> option A) (s : text),
    match s with c :: _ => Q c = false | [] => True end ->
    rmatch r s k = None.

(** The candidates of [r] at a place, the shorter rest first. *)
Definition enumerates (r : regex) : Prop :=
  forall s, exists cands : list text,
    StronglySorted (fun a b => List.length a <= List.length b) cands
    /\ forall (A : Type) (k : text -> option A),
         rmatch r s k = first_some k cands.

Lemma rejects_none {A : Type} (k : text -> option A) :
  rejects (fun _ => false) k.
Proof. intros c t H. discriminate H. Qed.

Lemma rejects_starts {A : Type} (P Q : char -> bool) (r : regex)
    (k : text -> option A) :
  starts Q r -> (forall c, P c = true -> Q c = false) ->
  rejects P (fun t => rmatch r t k).
Proof. intros Hs Hd c t Hc. apply Hs. apply Hd. exact Hc. Qed.

Lemma det_weaken (P P' : char -> bool) (r : regex) :
  (forall c, P c = true -> P' c = true) -> det P r -> det P' r.
Proof.
  intros HP Hr s. destruct (Hr s) as [o Ho]. exists o. intros A k Hk.
  apply Ho. intros c t Hc. apply Hk. apply HP. exact Hc.
Qed.

Lemma det_chr (P q : char -> bool) : det P (Chr q).
Proof.
  intros [|c t].
  - exists None. reflexivity.
  - destruct (q c) eqn:E.
    + exists (Some t). intros A k _. simpl. rewrite E. reflexivity.
    + exists None. intros A k _. simpl. rewrite E. reflexivity.
Qed.

Lemma det_seq (P1 P2 : char -> bool) (r1 r2 : regex) :
  det P1 r1 ->
  (forall (A : Type) (k : text -> option A),
      rejects P2 k -> rejects P1 (fun t => rmatch r2 t k)) ->
  det P2 r2 -> det P2 (Seq r1 r2).
Proof.
  intros H1 Hside H2 s. destruct (H1 s) as [[t|] Ho1].
  - destruct (H2 t) as [o2 Ho2]. exists o2. intros A k Hk.
    cbn [rmatch]. rewrite (Ho1 _ _ (Hside A k Hk)). apply Ho2. exact Hk.
  - exists None. intros A k Hk. cbn [rmatch].
    apply (Ho1 _ _ (Hside A k Hk)).
Qed.

(** The run of the characters of [p] at the start of [s] is taken whole. *)
Fixpoint skip (p : char -> bool) (s : text) : text :=
  match s with
  | c :: s' => if p c then skip p s' else s
  | [] => []
  end.

Lemma star_match_skip {A : Type} (p : char -> bool) (s : text)
    (k : text -> option A) :
  rejects p k -> star_match p s k = k (skip p s).
Proof.
  intros Hk. induction s as [|c s IH]; simpl; [reflexivity|].
  destruct (p c) eqn:E; [|reflexivity].
  rewrite IH. destruct (k (skip p s)) eqn:Et; [reflexivity|].
  apply Hk. exact E.
Qed.

Lemma det_plus (p : char -> bool) : det p (Plus p).
Proof.
  intros [|c t].
  - exists None. reflexivity.
  - destruct (p c) eqn:E.
    + exists (Some (skip p t)). intros A k Hk. unfold Plus.
      cbn [rmatch]. rewrite E. apply star_match_skip. exact Hk.
    + exists None. intros A k _. unfold Plus. cbn [rmatch]. rewrite E.
      reflexivity.
Qed.

Lemma det_opt_chr (q : char -> bool) : det q (Opt (Chr q)).
Proof.
  intros [|c t].
  - exists (Some []). reflexivity.
  - destruct (q c) eqn:E.
    + exists (Some t). intros A k Hk. cbn [rmatch]. rewrite E.
      destruct (k t) eqn:Et; [reflexivity|]. apply Hk. exact E.
    + exists (Some (c :: t)). intros A k _. cbn [rmatch]. rewrite E.
      reflexivity.
Qed.

Lemma det_alt (P Q1 Q2 : char -> bool) (r1 r2 : regex) :
  det P r1 -> det P r2 -> starts Q1 r1 -> starts Q2 r2 ->
  (forall c, Q1 c = true -> Q2 c = false) ->
  det P (Alt r1 r2).
Proof.
  intros H1 H2 S1 S2 Hd [|c t].
  - exists None. intros A k _. cbn [rmatch].
    rewrite (S1 A k [] I), (S2 A k [] I). reflexivity.
  - destruct (Q1 c) eqn:E.
    + destruct (H1 (c :: t)) as [o Ho]. exists o. intros A k Hk.
      cbn [rmatch]. rewrite (S2 A k (c :: t) (Hd c E)), (Ho A k Hk).
      destruct o as [u|]; [destruct (k u)|]; reflexivity.
    + destruct (H2 (c :: t)) as [o Ho]. exists o. intros A k Hk.
      cbn [rmatch]. rewrite (S1 A k (c :: t) E). apply Ho. exact Hk.
Qed.

Lemma starts_chr (q : char -> bool) : starts q (Chr q).
Proof.
  intros A k [|c t] H; simpl; [reflexivity|]. rewrite H. reflexivity.
Qed.

Lemma starts_seq (Q : char -> bool) (r1 r2 : regex) :
  starts Q r1 -> starts Q (Seq r1 r2).
Proof. intros H A k s Hs. cbn [rmatch]. apply H. exact Hs. Qed.

Lemma starts_alt (Q1 Q2 : char -> bool) (r1 r2 : regex) :
  starts Q1 r1 -> starts Q2 r2 ->
  starts (fun c => Q1 c || Q2 c) (Alt r1 r2).
Proof.
  intros H1 H2 A k s Hs. cbn [rmatch].
  rewrite (H1 A k s), (H2 A k s); [reflexivity | |];
    destruct s as [|c t]; try exact I; apply orb_false_iff in Hs; tauto.
Qed.

Lemma enumerates_det (r : regex) : det (fun _ => false) r -> enumerates r.
Proof.
  intros H s. destruct (H s) as [[t|] Ho].
  - exists [t]. split; [repeat constructor|]. intros A k.
    rewrite (Ho A k (rejects_none k)). simpl. destruct (k t); reflexivity.
  - exists []. split; [constructor|]. intros A k.
    apply (Ho A k (rejects_none k)).
Qed.

Lemma enumerates_opt_chr (q : char -> bool) : enumerates (Opt (Chr q)).
Proof.
  intros [|c t].
  - exists [[]]. split; [repeat constructor|]. intros A k. simpl.
    destruct (k []); reflexivity.
  - destruct (q c) eqn:E.
    + exists [t; c :: t]. split.
      * repeat constructor; simpl; lia.
      * intros A k. cbn [rmatch first_some]. rewrite E.
        destruct (k t); [reflexivity|]. destruct (k (c :: t)); reflexivity.
    + exists [c :: t]. split; [repeat constructor|]. intros A k.
      cbn [rmatch first_some]. rewrite E. destruct (k (c :: t)); reflexivity.
Qed.

Lemma enumerates_seq (P : char -> bool) (r1 r2 : regex) :
  det P r1 ->
  (forall (A : Type) (k : text -> option A),
      rejects P (fun t => rmatch r2 t k)) ->
  enumerates r2 -> enumerates (Seq r1 r2).
Proof.
  intros H1 Hside H2 s. destruct (H1 s) as [[t|] Ho1].
  - destruct (H2 t) as (cands & Hsorted & Hc). exists cands.
    split; [exact Hsorted|]. intros A k. cbn [rmatch].
    rewrite (Ho1 _ _ (Hside A k)). apply Hc.
  - exists []. split; [constructor|]. intros A k. cbn [rmatch].
    apply (Ho1 _ _ (Hside A k)).
Qed.

Lemma enumerates_alt (Q1 Q2 : char -> bool) (r1 r2 : regex) :
  enumerates r1 -> enumerates r2 -> starts Q1 r1 -> starts Q2 r2 ->
  (forall c, Q1 c = true -> Q2 c = false) ->
  enumerates (Alt r1 r2).
Proof.
  intros H1 H2 S1 S2 Hd [|c t].
  - exists []. split; [constructor|]. intros A k. cbn [rmatch].
    rewrite (S1 A k [] I), (S2 A k [] I). reflexivity.
  - destruct (Q1 c) eqn:E.
    + destruct (H1 (c :: t)) as (cands & Hsorted & Hc). exists cands.
      split; [exact Hsorted|]. intros A k. cbn [rmatch].
      rewrite (S2 A k (c :: t) (Hd c E)), Hc.
      destruct (first_some k cands); reflexivity.
    + destruct (H2 (c :: t)) as (cands & Hsorted & Hc). exists cands.
      split; [exact Hsorted|]. intros A k. cbn [rmatch].
      rewrite (S1 A k (c :: t) E). apply Hc.
Qed.

Lemma first_some_In {A : Type} (k : text -> option A) (cands : list text)
    (x : A) :
  first_some k cands = Some x -> exists t, In t cands /\ k t = Some x.
Proof.
  induction cands as [|t cands IH]; simpl; [discriminate|].
  destruct (k t) eqn:E.
  - intros H. injection H as <-. exists t. auto.
  - intros H. destruct (IH H) as (u & Hu & Hk). exists u. auto.
Qed.

(** Where the candidates come the longer match first, the match that
    [re] takes is the longest text of the pattern at its place. *)
Lemma enumerates_longest (r : regex) :
  enumerates r ->
  forall s rest, re_match r s = Some rest ->
  forall m' y, s = m' ++ y -> Matches r m' ->
               List.length rest <= List.length y.
Proof.
  intros Hr s rest H m' y -> Hm'.
  destruct (Hr (m' ++ y)) as (cands & Hsorted & Hc).
  unfold re_match in H. rewrite Hc in H.
  destruct cands as [|t cands]; [discriminate H|].
  simpl in H. injection H as ->.
  destruct (rmatch_complete r m' Hm' y
              (fun u => if text_eqb u y then Some u else None) y)
    as [z Hz].
  { rewrite text_eqb_refl. reflexivity. }
  rewrite Hc in Hz. apply first_some_In in Hz.
  destruct Hz as (u & Hu & Hk).
  destruct (text_eqb u y) eqn:E; [|discriminate Hk].
  apply text_eqb_eq in E. subst u.
  destruct Hu as [->|Hu]; [lia|].
  inversion_clear Hsorted as [|? ? _ Hall].
  rewrite Forall_forall in Hall. exact (Hall y Hu).
Qed.

(** No text of the pattern starts before the match that the search
    finds, and the match is the one that [re] takes at its place. *)
Lemma re_search_leftmost (r : regex) (s before rest : text) :
  re_search r s = Some (before, rest) ->
  (forall x m' y, s = x ++ m' ++ y -> Matches r m' ->
                  List.length before <= List.length x)
  /\ exists m, s = before ++ m ++ rest /\ re_match r (m ++ rest) = Some rest.
Proof.
  revert before. induction s as [|c s IH]; simpl; intros before H.
  - destruct (re_match r []) eqn:E; [|discriminate].
    injection H as <- <-. split; [intros; simpl; lia|].
    pose proof E as E'. apply re_match_sound in E'.
    destruct E' as (m & E' & _). exists m. simpl. rewrite <- E'. auto.
  - destruct (re_match r (c :: s)) eqn:E.
    + injection H as <- <-. split; [intros; simpl; lia|].
      pose proof E as E'. apply re_match_sound in E'.
      destruct E' as (m & E' & _). exists m. simpl. rewrite <- E'. auto.
    + destruct (re_search r s) as [[b0 rest0]|] eqn:E2; [|discriminate].
      injection H as <- <-.
      destruct (IH b0 eq_refl) as (Hleft & m & Hs & Hm). split.
      * intros x m' y Hx Hm'. destruct x as [|c' x].
        -- exfalso. simpl in Hx.
           apply (re_match_complete r m' Hm' y). rewrite <- Hx. exact E.
        -- simpl in Hx. injection Hx as _ Hx. simpl.
           apply le_n_S. exact (Hleft x m' y Hx Hm').
      * exists m. split; [simpl; rewrite <- Hs; reflexivity | exact Hm].
Qed.

(** The parts and the matches of [re.split], for a pattern whose match at
    a place is the longest text of the pattern there. *)
Lemma re_split_scan (r : regex) :
  0 < min_len r ->
  (forall s rest, re_match r s = Some rest ->
   forall m' y, s = m' ++ y -> Matches r m' ->
                List.length rest <= List.length y) ->
  forall s : text,
    exists found,
      List.length (re_split r s) = S (List.length found)
      /\ interleave (re_split r s) found = s
      /\ Forall (Matches r) found
      /\ Forall (fun piece => ~ occurs r piece) (re_split r s)
      /\ leftmost_scan (longest r) r s (re_split r s) found.
Proof.
  intros Hr Hlong s.
  induction s as [s IH] using (induction_ltof1 _ (@List.length char)).
  unfold ltof in IH. rewrite (re_split_eq r s Hr).
  destruct (re_search r s) as [[b rest]|] eqn:E.
  - destruct (re_search_some _ _ _ _ Hr E) as (m & Hs & Hm & Hno).
    destruct (re_search_leftmost _ _ _ _ E) as (Hleft & m0 & Hs0 & Hm0).
    assert (Em : m0 = m).
    { rewrite Hs in Hs0. apply app_inv_head in Hs0.
      apply app_inv_tail in Hs0. congruence. }
    subst m0.
    destruct (IH rest) as (found & Hlen & Hint & Hfound & Hpieces & Hscan).
    { rewrite Hs, !length_app. apply min_len_le in Hm. lia. }
    exists (m :: found). cbn [List.length interleave leftmost_scan].
    split; [rewrite Hlen; reflexivity|].
    split; [rewrite Hint; symmetry; exact Hs|].
    split; [constructor; assumption|].
    split; [constructor; assumption|].
    exists rest. split; [exact Hs|]. split; [exact Hm|].
    split; [exact Hleft|]. split; [|exact Hscan].
    intros m' y Hy Hm'.
    pose proof (Hlong _ _ Hm0 m' y Hy Hm') as Hl.
    apply (f_equal (@List.length char)) in Hy. rewrite !length_app in Hy.
    lia.
  - exists []. cbn [List.length interleave leftmost_scan].
    pose proof (re_search_none _ _ E) as Hno.
    repeat split; try constructor; auto.
Qed.

(** ** Stripping and searching texts *)

Lemma lstrip_split (s : text) :
  exists ws, s = ws ++ lstrip s /\ forallb isspace ws = true.
Proof.
  induction s as [|c s (ws & E & Hws)]; simpl.
  - exists []. auto.
  - destruct (isspace c) eqn:Hc.
    + exists (c :: ws). simpl. rewrite Hc, Hws. split; [congruence | reflexivity].
    + exists []. auto.
Qed.

Lemma rstrip_split (s : text) :
  exists ws, s = rstrip s ++ ws /\ forallb isspace ws = true.
Proof.
  destruct (lstrip_split (rev s)) as (ws & E & Hws).
  exists (rev ws). split.
  - unfold rstrip. rewrite <- rev_app_distr, <- E, rev_involutive. reflexivity.
  - rewrite forallb_forall in *. intros c Hc. apply Hws, in_rev, Hc.
Qed.

Lemma In_lstrip (c : char) (s : text) : In c (lstrip s) -> In c s.
Proof.
  destruct (lstrip_split s) as (ws & E & _). intros H.
  rewrite E. apply in_or_app. right. exact H.
Qed.

Lemma In_strip (c : char) (s : text) : In c (strip s) -> In c s.
Proof.
  intros H. apply In_lstrip. destruct (rstrip_split (lstrip s)) as (ws & E & _).
  rewrite E. apply in_or_app. left. exact H.
Qed.

(** A text that does not start with white space. *)
Definition head_ok (s : text) : Prop :=
  match s with
  | c :: _ => isspace c = false
  | [] => True
  end.

Lemma lstrip_head_ok (s : text) : head_ok (lstrip s).
Proof.
  induction s as [|c s IH]; simpl; [exact I|].
  destruct (isspace c) eqn:Hc; [exact IH | exact Hc].
Qed.

Lemma head_ok_lstrip (s : text) : head_ok s -> lstrip s = s.
Proof.
  destruct s as [|c s]; simpl; [reflexivity|]. intros ->. reflexivity.
Qed.

Lemma rstrip_head_ok (s : text) : head_ok s -> head_ok (rstrip s).
Proof.
  destruct (rstrip_split s) as (ws & E & _). intros H.
  destruct (rstrip s) as [|c t]; [exact I|].
  rewrite E in H. exact H.
Qed.

Lemma strip_idem (s : text) : strip (strip s) = strip s.
Proof.
  assert (H1 : head_ok (strip s)) by apply rstrip_head_ok, lstrip_head_ok.
  assert (H2 : head_ok (rev (strip s))).
  { unfold strip, rstrip. rewrite rev_involutive. apply lstrip_head_ok. }
  unfold strip at 1. rewrite (head_ok_lstrip _ H1).
  unfold rstrip. rewrite (head_ok_lstrip _ H2). apply rev_involutive.
Qed.

Lemma is_empty_false {A : Type} (l : list A) : is_empty l = false <-> l <> [].
Proof. destruct l; simpl; split; congruence. Qed.

Lemma is_empty_true {A : Type} (l : list A) : is_empty l = true <-> l = [].
Proof. destruct l; simpl; split; congruence. Qed.

Lemma starts_with_app (p s : text) :
  starts_with p s = true <-> exists rest, s = p ++ rest.
Proof.
  revert s. induction p as [|x p IH]; intros s; simpl.
  - split; [eauto | reflexivity].
  - destruct s as [|y s].
    + split; [discriminate | intros [rest E]; discriminate].
    + rewrite andb_true_iff, N.eqb_eq, IH. split.
      * intros [-> [rest ->]]. eauto.
      * intros [rest E]. injection E as -> ->. eauto.
Qed.

Lemma contains_app (needle hay : text) :
  contains needle hay = true <-> exists a b, hay = a ++ needle ++ b.
Proof.
  induction hay as [|c hay IH]; simpl.
  - rewrite orb_false_r, starts_with_app. split.
    + intros [rest E]. exists [], rest. exact E.
    + intros (a & b & E). destruct a; [|discriminate]. eauto.
  - rewrite orb_true_iff, IH, starts_with_app. split.
    + intros [[rest E]|(a & b & E)].
      * exists [], rest. exact E.
      * exists (c :: a), b. simpl. congruence.
    + intros (a & b & E). destruct a as [|c' a]; simpl in E.
      * left. eauto.
      * right. injection E as -> ->. eauto.
Qed.

Lemma join_nil (l : list text) : join [] l = concat l.
Proof.
  induction l as [|x [|y l] IH]; simpl in *.
  - reflexivity.
  - rewrite app_nil_r. reflexivity.
  - rewrite IH. reflexivity.
Qed.

(** ** The patterns of the program *)

Lemma filler_pattern_nonempty : 0 < min_len filler_pattern.
Proof. vm_compute. lia. Qed.

(** *** The filler pattern takes the longest phrase *)

Lemma det_eps (P : char -> bool) : det P Eps.
Proof. intros s. exists (Some s). reflexivity. Qed.

Lemma det_ilit_of (P : char -> bool) (w : text) : det P (ilit_of w).
Proof.
  induction w as [|c w IH]; [apply det_eps|].
  destruct w as [|c' w]; [apply det_chr|].
  change (ilit_of (c :: c' :: w))
    with (Seq (Chr (ignorecase c)) (ilit_of (c' :: w))).
  apply (det_seq (fun _ => false)); [apply det_chr | | exact IH].
  intros A k _. apply rejects_none.
Qed.

Lemma starts_ilit_of (c : char) (w : text) :
  starts (ignorecase c) (ilit_of (c :: w)).
Proof.
  destruct w as [|c' w]; [apply starts_chr|].
  change (ilit_of (c :: c' :: w))
    with (Seq (Chr (ignorecase c)) (ilit_of (c' :: w))).
  apply starts_seq, starts_chr.
Qed.

Lemma starts_plus (p : char -> bool) : starts p (Plus p).
Proof. unfold Plus. apply starts_seq, starts_chr. Qed.

(** The characters that a literal matches under [re.IGNORECASE]. *)
Definition ignorecase_set (p : char) : list char :=
  [p; lower_char p; (lower_char p - 32)%N] ++ ignorecase_extra (lower_char p).

Lemma ignorecase_inv (p c : char) :
  ignorecase p c = true -> In c (ignorecase_set p).
Proof.
  unfold ignorecase, ignorecase_set. cbv zeta.
  destruct (is_lower_letter (lower_char p)).
  - rewrite !orb_true_iff, !N.eqb_eq. intros [[->| ->]|H].
    + right. left. reflexivity.
    + right. right. left. reflexivity.
    + apply existsb_exists in H. destruct H as (x & Hx & E).
      apply N.eqb_eq in E. subst x. right. right. right. exact Hx.
  - rewrite N.eqb_eq. intros ->. left. reflexivity.
Qed.

(** A class with the characters of [l] at most and a class with none of
    them have no character in common. *)
Lemma classes_apart (X Y : char -> bool) (l : list char) :
  (forall c, X c = true -> In c l) ->
  forallb (fun c => negb (Y c)) l = true ->
  (forall c, X c = true -> Y c = false)
  /\ (forall c, Y c = true -> X c = false).
Proof.
  intros HX Hl. rewrite forallb_forall in Hl.
  assert (H : forall c, X c = true -> Y c = false).
  { intros c Hc. apply negb_true_iff. apply Hl. apply HX. exact Hc. }
  split; [exact H|]. intros c Hc. destruct (X c) eqn:E; [|reflexivity].
  rewrite (H c E) in Hc. discriminate Hc.
Qed.

Lemma ignorecase_or_inv (p q c : char) :
  ignorecase p c || ignorecase q c = true ->
  In c (ignorecase_set p ++ ignorecase_set q).
Proof.
  intros H. apply orb_true_iff in H. apply in_or_app.
  destruct H as [H|H]; [left | right]; apply ignorecase_inv; exact H.
Qed.

Lemma filler_enumerates : enumerates filler_pattern.
Proof.
  unfold filler_pattern.
  apply (enumerates_alt
           (fun c => ignorecase (ch "H") c || ignorecase (ch "h") c)
           (ignorecase (ch "w"))).
  - apply (enumerates_seq (fun _ => false));
      [apply det_chr | intros; apply rejects_none |].
    apply (enumerates_seq (fun _ => false));
      [apply det_ilit_of | intros; apply rejects_none |].
    apply (enumerates_seq isspace); [apply det_plus | |].
    { intros A k.
      apply (rejects_starts isspace
               (fun c => ignorecase (ch "k") c || ignorecase (ch "c") c)).
      - apply starts_seq. apply starts_alt.
        + apply starts_seq. exact (starts_ilit_of (ch "k") (lit "ids")).
        + apply starts_seq. exact (starts_ilit_of (ch "c") (lit "hildren")).
      - apply (classes_apart _ _ _ (ignorecase_or_inv (ch "k") (ch "c"))).
        reflexivity. }
    apply (enumerates_seq
             (fun c => ignorecase rsquo c || ignorecase (ch "s") c)).
    { apply (det_alt _ (ignorecase (ch "k")) (ignorecase (ch "c"))).
      - apply (det_weaken (ignorecase rsquo));
          [intros c Hc; rewrite Hc; reflexivity|].
        apply (det_seq (fun _ => false));
          [apply det_ilit_of | intros; apply rejects_none
          | apply det_opt_chr].
      - apply (det_weaken (ignorecase (ch "s")));
          [intros c Hc; rewrite Hc; apply orb_true_r|].
        apply (det_seq (fun _ => false));
          [apply det_ilit_of | intros; apply rejects_none |].
        apply (det_seq (fun _ => false));
          [apply det_chr | intros; apply rejects_none | apply det_opt_chr].
      - apply starts_seq. exact (starts_ilit_of (ch "k") (lit "ids")).
      - apply starts_seq. exact (starts_ilit_of (ch "c") (lit "hildren")).
      - apply (classes_apart _ _ _ (ignorecase_inv (ch "k"))). reflexivity. }
    { intros A k. apply (rejects_starts _ isspace).
      - apply starts_seq, starts_plus.
      - apply (classes_apart _ _ _ (ignorecase_or_inv rsquo (ch "s"))).
        reflexivity. }
    apply (enumerates_seq isspace); [apply det_plus | |].
    { intros A k. apply (rejects_starts isspace (ignorecase (ch "h"))).
      - apply starts_seq. exact (starts_ilit_of (ch "h") (lit "and")).
      - apply (classes_apart _ _ _ (ignorecase_inv (ch "h"))). reflexivity. }
    apply (enumerates_seq (fun _ => false));
      [apply det_ilit_of | intros; apply rejects_none
      | apply enumerates_opt_chr].
  - apply (enumerates_seq (fun _ => false));
      [apply det_ilit_of | intros; apply rejects_none |].
    apply (enumerates_seq isspace); [apply det_plus | |].
    { intros A k.
      apply (rejects_starts isspace
               (fun c => ignorecase (ch "k") c || ignorecase (ch "c") c)).
      - apply starts_alt.
        + exact (starts_ilit_of (ch "k") (lit "ids")).
        + exact (starts_ilit_of (ch "c") (lit "hildren")).
      - apply (classes_apart _ _ _ (ignorecase_or_inv (ch "k") (ch "c"))).
        reflexivity. }
    apply enumerates_det.
    apply (det_alt _ (ignorecase (ch "k")) (ignorecase (ch "c")));
      [apply det_ilit_of | apply det_ilit_of
      | exact (starts_ilit_of (ch "k") (lit "ids"))
      | exact (starts_ilit_of (ch "c") (lit "hildren")) |].
    apply (classes_apart _ _ _ (ignorecase_inv (ch "k"))). reflexivity.
  - apply starts_seq, starts_chr.
  - apply starts_seq. exact (starts_ilit_of (ch "w") (lit "atch")).
  - apply (classes_apart _ _ _ (ignorecase_or_inv (ch "H") (ch "h"))).
    reflexivity.
Qed.

(** The parts of the notes and the filler phrases between them. *)
Lemma filler_scan (notes : text) :
  exists fillers,
    List.length (re_split filler_pattern notes) = S (List.length fillers)
    /\ interleave (re_split filler_pattern notes) fillers = notes
    /\ Forall (Matches filler_pattern) fillers
    /\ Forall (fun part => ~ occurs filler_pattern part)
         (re_split filler_pattern notes)
    /\ leftmost_scan (longest filler_pattern) filler_pattern notes
         (re_split filler_pattern notes) fillers.
Proof.
  apply re_split_scan; [exact filler_pattern_nonempty|].
  exact (enumerates_longest _ filler_enumerates).
Qed.

Lemma sentence_separator_nonempty : 0 < min_len sentence_separator.
Proof. vm_compute. lia. Qed.

Lemma leg_separator_nonempty : 0 < min_len leg_separator.
Proof. vm_compute. lia. Qed.

Lemma sentence_piece_clean (notes piece : text) (c : char) :
  In piece (re_split sentence_separator notes) ->
  In c piece -> is_sentence_separator c = false.
Proof.
  intros Hp Hc.
  destruct (re_split_spec _ sentence_separator_nonempty notes)
    as (seps & _ & _ & _ & Hclean).
  rewrite Forall_forall in Hclean. specialize (Hclean _ Hp).
  destruct (is_sentence_separator c) eqn:E; [|reflexivity].
  exfalso. apply Hclean. apply in_split in Hc. destruct Hc as (a & b & ->).
  exists a, [c], b. split; [reflexivity|]. constructor. exact E.
Qed.

(** ** Placeholder links and the separator of legs *)

Lemma replace_single (c : char) (s : text) :
  replace [c] [] s = filter (fun x => negb (N.eqb x c)) s.
Proof.
  unfold replace. induction s as [|x s IH]; [reflexivity|].
  cbn [replace_from starts_with List.length Nat.sub app filter].
  rewrite andb_true_r, (N.eqb_sym c x).
  destruct (N.eqb x c); cbn [negb]; rewrite IH; reflexivity.
Qed.

Lemma placeholder_link_eq (loc : text) :
  placeholder_link loc
  = maps_base ++ filter (fun c => negb (is_space_or_paren c)) loc.
Proof.
  unfold placeholder_link. rewrite !replace_single. f_equal.
  induction loc as [|c loc IH]; [reflexivity|].
  cbn [filter]. unfold is_space_or_paren at 1.
  destruct (N.eqb c (ch " ")); cbn [negb orb]; [exact IH|].
  cbn [filter]. destruct (N.eqb c (ch "(")); cbn [negb orb]; [exact IH|].
  cbn [filter]. destruct (N.eqb c (ch ")")); cbn [negb]; [exact IH|].
  rewrite IH. reflexivity.
Qed.

Lemma leg_separator_matches (m : text) :
  Matches leg_separator m <-> is_leg_separator m.
Proof.
  unfold leg_separator, is_leg_separator. split.
  - intros H. inversion_clear H as [| |? ? w1 m1 H1 H2| | | | |].
    inversion_clear H2 as [| |? ? x w2 Hx H3| | | | |].
    inversion_clear H1 as [| | | | | | |? ? Hw1].
    inversion_clear H3 as [| | | | | | |? ? Hw2].
    exists w1, w2. repeat split; try assumption.
    inversion_clear Hx as [| | |? ? ? Hto|? ? ? Harrow| | |].
    + inversion_clear Hto as [| |? ? t o Ht Ho| | | | |].
      inversion_clear Ht as [|? ? Ht'| | | | | |].
      inversion_clear Ho as [|? ? Ho'| | | | | |].
      apply N.eqb_eq in Ht', Ho'. subst. left. reflexivity.
    + inversion_clear Harrow as [|? ? Ha| | | | | |].
      apply N.eqb_eq in Ha. subst. right. reflexivity.
  - intros (w1 & w2 & Hw1 & Hw2 & [-> | ->]).
    + apply M_Seq; [apply M_Star; exact Hw1|].
      apply M_Seq; [|apply M_Star; exact Hw2].
      apply M_AltL. apply (M_Seq _ _ [ch "t"] [ch "o"]);
        constructor; reflexivity.
    + apply M_Seq; [apply M_Star; exact Hw1|].
      apply M_Seq; [|apply M_Star; exact Hw2].
      apply M_AltR. constructor. reflexivity.
Qed.

Lemma occurs_leg_separator (s : text) :
  occurs leg_separator s <-> has_separator s = true.
Proof.
  unfold has_separator. rewrite orb_true_iff, !contains_app. split.
  - intros (a & m & b & -> & Hm). apply leg_separator_matches in Hm.
    destruct Hm as (w1 & w2 & _ & _ & [-> | ->]).
    + left. exists (a ++ w1), (w2 ++ b). rewrite <- !app_assoc. reflexivity.
    + right. exists (a ++ w1), (w2 ++ b). rewrite <- !app_assoc. reflexivity.
  - intros [(a & b & ->)|(a & b & ->)].
    + exists a, (lit "to"), b. split; [reflexivity|].
      apply leg_separator_matches. exists [], []. rewrite app_nil_r. auto.
    + exists a, [arrow], b. split; [reflexivity|].
      apply leg_separator_matches. exists [], []. auto.
Qed.

Lemma re_split_not_nil (r : regex) (s : text) : re_split r s <> [].
Proof.
  unfold re_split. destruct (List.length s); cbn [re_split_fuel];
    [discriminate|].
  destruct (re_search r s) as [[b rest]|]; discriminate.
Qed.

(** ** The order of texts and sorting *)

Lemma text_ltb_irrefl (a : text) : text_ltb a a = false.
Proof.
  induction a as [|x a IH]; simpl; [reflexivity|].
  rewrite N.ltb_irrefl, N.eqb_refl, IH. reflexivity.
Qed.

Lemma text_ltb_trans (a b c : text) :
  text_ltb a b = true -> text_ltb b c = true -> text_ltb a c = true.
Proof.
  revert b c. induction a as [|x a IH]; intros [|y b] [|z c]; simpl;
    try discriminate; try reflexivity.
  rewrite !orb_true_iff, !andb_true_iff, !N.ltb_lt, !N.eqb_eq.
  intros [H1|[-> H1]] [H2|[-> H2]].
  - left. lia.
  - left. exact H1.
  - left. exact H2.
  - right. split; [reflexivity | exact (IH _ _ H1 H2)].
Qed.

Lemma text_ltb_connected (a b : text) :
  text_ltb a b = false -> text_ltb b a = false -> a = b.
Proof.
  revert b. induction a as [|x a IH]; intros [|y b]; simpl;
    try discriminate; try reflexivity.
  rewrite !orb_false_iff, !andb_false_iff, !N.ltb_ge, !N.eqb_neq.
  intros [H1 H1'] [H2 H2'].
  assert (x = y) by lia. subst y. f_equal.
  apply IH; [destruct H1' | destruct H2']; congruence.
Qed.

Lemma text_ltb_asym (a b : text) :
  text_ltb a b = true -> text_ltb b a = false.
Proof.
  intros H. destruct (text_ltb b a) eqn:E; [|reflexivity].
  pose proof (text_ltb_trans _ _ _ H E) as H'.
  rewrite text_ltb_irrefl in H'. discriminate.
Qed.

Lemma text_leb_total (a b : text) :
  text_leb a b = true \/ text_leb b a = true.
Proof.
  unfold text_leb. destruct (text_ltb b a) eqn:E; [|left; reflexivity].
  right. rewrite (text_ltb_asym _ _ E). reflexivity.
Qed.

Lemma text_leb_trans (a b c : text) :
  text_leb a b = true -> text_leb b c = true -> text_leb a c = true.
Proof.
  unfold text_leb. rewrite !negb_true_iff. intros H1 H2.
  destruct (text_ltb c a) eqn:E; [|reflexivity].
  destruct (text_ltb a b) eqn:E'.
  - rewrite (text_ltb_trans _ _ _ E E') in H2. discriminate.
  - rewrite (text_ltb_connected _ _ E' H1) in E. congruence.
Qed.

Section Sorting.

Variable A : Type.
Variable leb : A -> A -> bool.
Hypothesis leb_total : forall a b, leb a b = true \/ leb b a = true.
Hypothesis leb_trans :
  forall a b c, leb a b = true -> leb b c = true -> leb a c = true.

Let le (a b : A) : Prop := leb a b = true.

Lemma insert_sorted_perm (x : A) (l : list A) :
  Permutation (insert_sorted leb x l) (x :: l).
Proof.
  induction l as [|y l IH]; simpl; [apply Permutation_refl|].
  destruct (leb x y); [apply Permutation_refl|].
  apply perm_trans with (y :: x :: l); [apply perm_skip, IH | apply perm_swap].
Qed.

Lemma sorted_perm (l : list A) : Permutation (sorted leb l) l.
Proof.
  induction l as [|x l IH]; simpl; [apply perm_nil|].
  apply perm_trans with (x :: sorted leb l);
    [apply insert_sorted_perm | apply perm_skip, IH].
Qed.

Lemma insert_sorted_sorted (x : A) (l : list A) :
  StronglySorted le l -> StronglySorted le (insert_sorted leb x l).
Proof.
  induction 1 as [|y l Hl IH Hy]; simpl.
  - constructor; constructor.
  - destruct (leb x y) eqn:E.
    + constructor; [constructor; assumption|].
      constructor; [exact E|].
      eapply Forall_impl; [|exact Hy]. intros z Hz. exact (leb_trans _ _ _ E Hz).
    + constructor; [exact IH|].
      apply Forall_forall. intros z Hz.
      apply (Permutation_in _ (insert_sorted_perm x l)) in Hz.
      destruct Hz as [<-|Hz].
      * destruct (leb_total x y) as [H|H]; [congruence | exact H].
      * rewrite Forall_forall in Hy. exact (Hy _ Hz).
Qed.

Lemma sorted_sorted (l : list A) : StronglySorted le (sorted leb l).
Proof.
  induction l as [|x l IH]; simpl; [constructor|].
  apply insert_sorted_sorted, IH.
Qed.

End Sorting.

Lemma map_insert_sorted {A : Type} (f : A -> text) (x : A) (l : list A) :
  map f (insert_sorted (fun a b => text_leb (f a) (f b)) x l)
  = insert_sorted text_leb (f x) (map f l).
Proof.
  induction l as [|y l IH]; simpl; [reflexivity|].
  destruct (text_leb (f x) (f y)); simpl; [reflexivity|].
  rewrite IH. reflexivity.
Qed.

Lemma map_sorted {A : Type} (f : A -> text) (l : list A) :
  map f (sorted (fun a b => text_leb (f a) (f b)) l)
  = sorted text_leb (map f l).
Proof.
  induction l as [|x l IH]; simpl; [reflexivity|].
  rewrite map_insert_sorted, IH. reflexivity.
Qed.

(** Sorted texts without repetitions ascend strictly. *)
Lemma sorted_texts_strict (l : list text) :
  NoDup l ->
  StronglySorted (fun a b => text_ltb a b = true) (sorted text_leb l).
Proof.
  intros Hnd.
  assert (Hnd' : NoDup (sorted text_leb l)).
  { apply (Permutation_NoDup (l := l)); [|exact Hnd].
    apply Permutation_sym, sorted_perm. }
  pose proof (sorted_sorted _ text_leb text_leb_total text_leb_trans l) as Hs.
  induction Hs as [|x l' Hl IH Hx]; [constructor|].
  inversion_clear Hnd' as [|? ? Hnotin Hnd''].
  constructor; [exact (IH Hnd'')|].
  apply Forall_forall. intros y Hy. rewrite Forall_forall in Hx.
  specialize (Hx _ Hy). unfold text_leb in Hx. apply negb_true_iff in Hx.
  destruct (text_ltb x y) eqn:E; [reflexivity|].
  exfalso. apply Hnotin. rewrite (text_ltb_connected _ _ E Hx). exact Hy.
Qed.

Lemma set_of_In (c : text) (l : list text) : In c (set_of l) <-> In c l.
Proof.
  induction l as [|x l IH]; simpl; [tauto|].
  destruct (mem x l) eqn:E; simpl; rewrite IH; [|tauto].
  apply mem_In in E. split; [tauto | intros [<-|H]; assumption].
Qed.

Lemma set_of_NoDup (l : list text) : NoDup (set_of l).
Proof.
  induction l as [|x l IH]; simpl; [constructor|].
  destruct (mem x l) eqn:E; [exact IH|].
  constructor; [|exact IH]. rewrite set_of_In, <- mem_In, E. discriminate.
Qed.

(** ** Dictionaries *)

Lemma dict_get_append {A : Type} (key key' : text) (value : A)
    (d : list (text * list A)) :
  dict_get key' (dict_append key value d) =
  if text_eqb key key'
  then Some (match dict_get key d with
             | Some values => values ++ [value]
             | None => [value]
             end)
  else dict_get key' d.
Proof.
  induction d as [|[k vs] d IH]; simpl.
  - destruct (text_eqb key key'); reflexivity.
  - destruct (text_eqb k key) eqn:E; simpl.
    + apply text_eqb_eq in E. subst k.
      destruct (text_eqb key key'); reflexivity.
    + destruct (text_eqb k key') eqn:E'; [|exact IH].
      apply text_eqb_eq in E'. subst k.
      rewrite (proj2 (text_eqb_neq key key')); [reflexivity|].
      apply text_eqb_neq in E. congruence.
Qed.

Lemma dict_append_keys {A : Type} (key : text) (value : A)
    (d : list (text * list A)) :
  map fst (dict_append key value d) =
  if mem key (map fst d) then map fst d else map fst d ++ [key].
Proof.
  induction d as [|[k vs] d IH]; simpl; [reflexivity|].
  unfold mem at 1. cbn [existsb]. rewrite (text_eqb_sym key k).
  destruct (text_eqb k key); simpl; [reflexivity|].
  rewrite IH. unfold mem. destruct (existsb (text_eqb key) (map fst d));
    reflexivity.
Qed.

Lemma dict_build_snoc {A : Type} (records : list (text * A)) (r : text * A)
    (d : list (text * list A)) :
  dict_build (records ++ [r]) d
  = dict_append (fst r) (snd r) (dict_build records d).
Proof. unfold dict_build. rewrite fold_left_app. reflexivity. Qed.

Lemma values_of_snoc {A : Type} (key : text) (records : list (text * A))
    (r : text * A) :
  values_of key (records ++ [r]) =
  values_of key records ++ (if text_eqb (fst r) key then [snd r] else []).
Proof.
  unfold values_of. rewrite filter_app, map_app. simpl.
  destruct (text_eqb (fst r) key); reflexivity.
Qed.

(** What the dictionary holds for a key after the records were gathered:
    the records of that key, in order, if there are any. *)
Lemma dict_get_build {A : Type} (records : list (text * A)) (key : text) :
  dict_get key (dict_build records []) =
  match values_of key records with
  | [] => None
  | values => Some values
  end.
Proof.
  induction records as [|r records IH] using rev_ind; [reflexivity|].
  rewrite dict_build_snoc, dict_get_append, values_of_snoc.
  destruct (text_eqb (fst r) key) eqn:E.
  - apply text_eqb_eq in E. subst key. rewrite IH.
    destruct (values_of (fst r) records); reflexivity.
  - rewrite IH, app_nil_r. reflexivity.
Qed.

Lemma dict_build_keys_NoDup {A : Type} (records : list (text * A)) :
  NoDup (map fst (dict_build records [])).
Proof.
  induction records as [|r records IH] using rev_ind; [constructor|].
  rewrite dict_build_snoc, dict_append_keys.
  destruct (mem (fst r) (map fst (dict_build records []))) eqn:E;
    [exact IH|].
  apply NoDup_app; [exact IH | repeat constructor; intros [] |].
  intros k Hk [<-|[]]. apply mem_In in Hk. congruence.
Qed.

Lemma dict_get_In {A : Type} (d : list (text * list A)) (key : text)
    (values : list A) :
  NoDup (map fst d) ->
  In (key, values) d -> dict_get key d = Some values.
Proof.
  induction d as [|[k vs] d IH]; simpl; [tauto|].
  intros Hnd [E|H]; inversion_clear Hnd as [|? ? Hnotin Hnd'].
  - injection E as -> ->. rewrite text_eqb_refl. reflexivity.
  - destruct (text_eqb k key) eqn:E; [|exact (IH Hnd' H)].
    apply text_eqb_eq in E. subst k. exfalso. apply Hnotin.
    apply (in_map fst) in H. exact H.
Qed.

Lemma dict_get_key {A : Type} (d : list (text * list A)) (key : text) :
  In key (map fst d) <-> dict_get key d <> None.
Proof.
  induction d as [|[k vs] d IH]; simpl; [tauto|].
  destruct (text_eqb k key) eqn:E.
  - apply text_eqb_eq in E. split; [discriminate | auto].
  - apply text_eqb_neq in E. rewrite <- IH. tauto.
Qed.

Lemma values_of_In {A : Type} (key : text) (records : list (text * A)) :
  In key (map fst records) <-> values_of key records <> [].
Proof.
  unfold values_of. induction records as [|r records IH]; simpl; [tauto|].
  destruct (text_eqb (fst r) key) eqn:E; simpl.
  - apply text_eqb_eq in E. split; [discriminate | auto].
  - apply text_eqb_neq in E. rewrite <- IH. tauto.
Qed.

Section Properties.

Context {R : Runtime}.

(** ** assign_activity_type *)

(** C1: [assign_activity_type] never returns the empty list, and when the
    activity and notes texts match none of the travel, dining and activity
    keyword sets the result is exactly [["activity"]]. *)
Theorem assign_activity_type_nonempty_default :
  forall activity notes : text,
    assign_activity_type activity notes <> []
    /\ (any_in travel_activity_keywords (lower activity) = false ->
        any_in travel_notes_keywords (lower notes) = false ->
        any_in dining_keywords (lower activity) = false ->
        any_in activity_keywords (lower activity) = false ->
        any_in activity_notes_keywords (lower notes) = false ->
        assign_activity_type activity notes = [lit "activity"]).
Proof.
  intros activity notes. unfold assign_activity_type. split.
  - destruct (any_in travel_activity_keywords (lower activity)
              || any_in travel_notes_keywords (lower notes)),
      (any_in dining_keywords (lower activity)),
      (any_in activity_keywords (lower activity)
       || any_in activity_notes_keywords (lower notes));
      simpl; discriminate.
  - intros -> -> -> -> ->. reflexivity.
Qed.

(** ** process_notes *)

Lemma ticket_is_cost (sentence : text) :
  mentions_ticket sentence = true -> mentions_cost sentence = true.
Proof.
  unfold mentions_ticket, mentions_cost, any_in, ticket_keywords, cost_keywords.
  cbn [existsb]. intros H.
  repeat match goal with
    | _ : context [contains ?a ?b] |- _ => destruct (contains a b)
    | |- context [contains ?a ?b] => destruct (contains a b)
    end; try reflexivity; discriminate.
Qed.

Lemma classify_sentences_eq (sentences costs tickets : list text) :
  classify_sentences sentences costs tickets =
  (costs ++ sentences, tickets ++ filter mentions_ticket sentences).
Proof.
  revert costs tickets.
  induction sentences as [|sentence rest IH]; intros costs tickets; simpl.
  - rewrite !app_nil_r. reflexivity.
  - destruct (mentions_ticket sentence) eqn:Et.
    + rewrite (ticket_is_cost _ Et), IH, <- !app_assoc. reflexivity.
    + destruct (mentions_cost sentence); rewrite IH, <- !app_assoc;
        reflexivity.
Qed.

(** The two lists of [process_notes] in terms of the fragments. *)
Lemma process_notes_eq (notes : text) :
  process_notes (Some notes) =
  let fragments := sentences_of (strip (re_sub filler_pattern [] notes)) in
  (fragments,
   if is_empty (filter mentions_ticket fragments) then [lit "None."]
   else filter mentions_ticket fragments).
Proof.
  unfold process_notes.
  destruct (is_empty (strip (re_sub filler_pattern [] notes))) eqn:E.
  - apply is_empty_true in E. rewrite E. reflexivity.
  - rewrite classify_sentences_eq. cbn [app].
    destruct (sentences_of (strip (re_sub filler_pattern [] notes)));
      reflexivity.
Qed.

Lemma sentences_of_trimmed (notes : text) :
  Forall (fun f => f <> [] /\ strip f = f) (sentences_of notes).
Proof.
  unfold sentences_of. apply Forall_forall. intros f Hf.
  apply in_map_iff in Hf. destruct Hf as (piece & <- & Hp).
  apply filter_In in Hp. destruct Hp as [_ Hp].
  apply negb_true_iff, is_empty_false in Hp.
  split; [exact Hp | apply strip_idem].
Qed.

(** A fragment has no full stop, so it is not the text [None.]. *)
Lemma fragment_not_sentinel (notes f : text) :
  In f (sentences_of notes) -> f <> lit "None.".
Proof.
  unfold sentences_of. intros Hf ->.
  apply in_map_iff in Hf. destruct Hf as (piece & E & Hp).
  apply filter_In in Hp. destruct Hp as [Hp _].
  assert (Hdot : In (ch ".") (strip piece)).
  { rewrite E. vm_compute. tauto. }
  apply In_strip in Hdot.
  pose proof (sentence_piece_clean _ _ _ Hp Hdot) as H. discriminate H.
Qed.

Lemma mentions_ticket_words (f : text) :
  mentions_ticket f = true <->
  contains [euro] f = true
  \/ contains (lit "fare") (lower f) = true
  \/ contains (lit "ticket") (lower f) = true.
Proof.
  unfold mentions_ticket, any_in, ticket_keywords. cbn [existsb].
  rewrite !orb_true_iff. intuition discriminate.
Qed.

(** C2, as amended: the fragments of a notes text are what is left of it
    after the filler phrases are removed, split at the separators, trimmed
    and kept when non-empty.  [process_notes] puts every fragment on the
    costs-and-notes list, in order, and a fragment is on the
    tickets-to-buy list exactly when it contains the euro sign or, in
    lower case, the word "fare" or "ticket".  It holds for the empty text
    as well. *)
Theorem process_notes_fragments :
  forall notes : text,
    let fragments := sentences_of (strip (re_sub filler_pattern [] notes)) in
    let costs_and_notes := fst (process_notes (Some notes)) in
    let tickets_to_buy := snd (process_notes (Some notes)) in
    Forall (fun f => f <> [] /\ strip f = f) fragments
    /\ costs_and_notes = fragments
    /\ (forall f, In f fragments ->
          (In f tickets_to_buy <->
           contains [euro] f = true
           \/ contains (lit "fare") (lower f) = true
           \/ contains (lit "ticket") (lower f) = true))
    /\ (forall t, In t tickets_to_buy -> In t fragments \/ t = lit "None.").
Proof.
  intros notes fragments costs_and_notes tickets_to_buy.
  subst costs_and_notes tickets_to_buy. rewrite process_notes_eq.
  fold fragments. cbn [fst snd].
  split; [apply sentences_of_trimmed|]. split; [reflexivity|]. split.
  - intros f Hf. rewrite <- mentions_ticket_words.
    destruct (filter mentions_ticket fragments) as [|t0 ts] eqn:E; cbn [is_empty].
    + split.
      * intros [<-|[]]. exfalso.
        exact (fragment_not_sentinel _ _ Hf eq_refl).
      * intros Ht. exfalso.
        assert (H : In f (filter mentions_ticket fragments))
          by (apply filter_In; auto).
        rewrite E in H. exact H.
    + rewrite <- E, filter_In. tauto.
  - intros t Ht.
    destruct (filter mentions_ticket fragments) as [|t0 ts] eqn:E;
      cbn [is_empty] in Ht.
    + destruct Ht as [<-|[]]. right. reflexivity.
    + left. rewrite <- E in Ht. apply filter_In in Ht. tauto.
Qed.

(** C3: [process_notes] returns a pair of lists on every input, absent
    and empty notes included; the tickets-to-buy list is never empty, and
    it is [["None."]] when the notes are absent or empty or when no
    fragment meets the ticket criteria.  The searches behind the result
    run to the end of the text whatever the bound on their rounds. *)
Theorem process_notes_total :
  forall notes : option text,
    (exists costs_and_notes tickets_to_buy,
        process_notes notes = (costs_and_notes, tickets_to_buy)
        /\ tickets_to_buy <> [])
    /\ (notes = None \/ notes = Some [] ->
        process_notes notes = ([], [lit "None."]))
    /\ (forall text_of_notes,
          notes = Some text_of_notes ->
          (forall f,
              In f (sentences_of
                      (strip (re_sub filler_pattern [] text_of_notes))) ->
              contains [euro] f = false
              /\ contains (lit "fare") (lower f) = false
              /\ contains (lit "ticket") (lower f) = false) ->
          snd (process_notes notes) = [lit "None."])
    /\ (forall (s : text) (fuel : nat),
          List.length s <= fuel ->
          re_split_fuel filler_pattern fuel s = re_split filler_pattern s
          /\ re_split_fuel sentence_separator fuel s
             = re_split sentence_separator s).
Proof.
  intros notes. split; [|split; [|split]].
  - destruct notes as [notes|].
    + rewrite process_notes_eq. cbv zeta. eexists _, _. split; [reflexivity|].
      destruct (filter mentions_ticket _) eqn:E; cbn [is_empty]; discriminate.
    + exists [], [lit "None."]. split; [reflexivity | discriminate].
  - intros [->| ->]; reflexivity.
  - intros n -> Hnone. rewrite process_notes_eq. cbn [snd].
    set (fragments := sentences_of _) in *.
    replace (filter mentions_ticket fragments) with (@nil text);
      [reflexivity|].
    symmetry. induction fragments as [|f fs IH]; [reflexivity|].
    simpl. destruct (mentions_ticket f) eqn:E.
    + apply mentions_ticket_words in E.
      destruct (Hnone f (or_introl eq_refl)) as (H1 & H2 & H3).
      rewrite H1, H2, H3 in E. destruct E as [E|[E|E]]; discriminate.
    + apply IH. intros f' Hf'. apply Hnone. right. exact Hf'.
  - intros s fuel Hfuel. unfold re_split. split.
    + apply re_split_fuel_enough;
        [exact filler_pattern_nonempty | exact Hfuel | apply Nat.le_refl].
    + apply re_split_fuel_enough;
        [exact sentence_separator_nonempty | exact Hfuel | apply Nat.le_refl].
Qed.

Lemma re_match_all (r : regex) (s : text) :
  re_match r s = Some [] -> Matches r s.
Proof.
  intros H. apply re_match_sound in H. destruct H as (m & -> & Hm).
  rewrite app_nil_r. exact Hm.
Qed.

(** C8, as amended: the filler phrases are the texts of the pattern of the
    source, among them "hold kids hands" with the apostrophe U+2019 after
    "kids" or with none, "hold children’s hands" with that apostrophe,
    "watch kids" and "watch children", in any case of their letters.
    [process_notes] takes them out of the notes before it splits them:
    the notes are kept parts with filler phrases between them, every
    removed part is a filler phrase, no kept part has a filler phrase in
    it, and the fragments are those of the kept parts put together and
    trimmed; when nothing is left the result is [([], ["None."])].  The
    phrases are found from left to right in one pass: each removed part
    is the leftmost filler phrase in what is left of the notes and the
    longest one at its place, so that a phrase is removed whole, "hands"
    with its "s". *)
Theorem process_notes_removes_fillers :
  forall notes : text,
    (exists kept fillers : list text,
        List.length kept = S (List.length fillers)
        /\ interleave kept fillers = notes
        /\ Forall (Matches filler_pattern) fillers
        /\ Forall (fun part => ~ occurs filler_pattern part) kept
        /\ leftmost_scan (longest filler_pattern) filler_pattern notes
             kept fillers
        /\ re_sub filler_pattern [] notes = concat kept
        /\ fst (process_notes (Some notes))
           = sentences_of (strip (concat kept))
        /\ (strip (concat kept) = [] ->
            process_notes (Some notes) = ([], [lit "None."])))
    /\ Matches filler_pattern (lit "Hold kids" ++ [rsquo] ++ lit " hands")
    /\ Matches filler_pattern (lit "hold kids hands")
    /\ Matches filler_pattern (lit "HOLD children" ++ [rsquo] ++ lit "s hand")
    /\ Matches filler_pattern (lit "watch kids")
    /\ Matches filler_pattern (lit "Watch   Children")
    /\ re_sub filler_pattern [] (lit "Please hold kids hands now")
       = lit "Please  now".
Proof.
  intros notes. split.
  - destruct (filler_scan notes)
      as (fillers & Hlen & Hint & Hfill & Hkept & Hscan).
    exists (re_split filler_pattern notes), fillers.
    assert (Hsub : re_sub filler_pattern [] notes
                   = concat (re_split filler_pattern notes))
      by apply join_nil.
    repeat split; try assumption.
    + rewrite process_notes_eq, Hsub. reflexivity.
    + intros Hnothing. unfold process_notes.
      rewrite Hsub, Hnothing. reflexivity.
  - repeat split; try (apply re_match_all; reflexivity).
Qed.

(** ** convert_date *)

Lemma digit_value_lt (c : char) (v : N) :
  digit_value c = Some v -> (v < 10)%N.
Proof.
  unfold digit_value.
  destruct ((48 <=? c) && (c <=? 57))%N eqn:E.
  - apply andb_true_iff in E. destruct E as [E1 E2].
    apply N.leb_le in E1, E2. intros H. injection H as <-. lia.
  - intros H. apply nonascii_digit_spec in H. tauto.
Qed.

(** Below 128 only the ASCII digits are digits. *)
Lemma digit_value_ascii (c : char) :
  (c < 128)%N ->
  digit_value c
  = if ((48 <=? c) && (c <=? 57))%N then Some (c - 48)%N else None.
Proof.
  intros Hc. unfold digit_value.
  destruct ((48 <=? c) && (c <=? 57))%N; [reflexivity|].
  destruct (nonascii_digit c) as [v|] eqn:E; [|reflexivity].
  apply nonascii_digit_spec in E. lia.
Qed.

Lemma digit_value_digit (a : N) :
  (a < 10)%N -> digit_value (digit a) = Some a.
Proof.
  intros Ha. unfold digit_value, digit. cmp_by_lia. cbn [andb].
  f_equal. lia.
Qed.

Lemma digit_in_digit (lo hi a : N) :
  digit_in lo hi (digit a)
  = if ((lo <=? a) && (a <=? hi))%N then Some a else None.
Proof.
  unfold digit_in, digit.
  replace (48 + lo <=? 48 + a)%N with (lo <=? a)%N
    by (destruct (N.leb_spec lo a); symmetry;
        [apply N.leb_le | apply N.leb_gt]; lia).
  replace (48 + a <=? 48 + hi)%N with (a <=? hi)%N
    by (destruct (N.leb_spec a hi); symmetry;
        [apply N.leb_le | apply N.leb_gt]; lia).
  destruct ((lo <=? a) && (a <=? hi))%N; [|reflexivity].
  f_equal. lia.
Qed.

Lemma one_inv {A : Type} (cls : char -> option N) (s : text)
    (k : N -> text -> option A) (x : A) :
  one cls s k = Some x ->
  exists c s' v, s = c :: s' /\ cls c = Some v /\ k v s' = Some x.
Proof.
  destruct s as [|c s']; simpl; [discriminate|].
  destruct (cls c) as [v|] eqn:E; [|discriminate]. eauto 6.
Qed.

Lemma two_inv {A : Type} (cls1 cls2 : char -> option N) (s : text)
    (k : N -> text -> option A) (x : A) :
  two cls1 cls2 s k = Some x ->
  exists c1 c2 s' a b,
    s = c1 :: c2 :: s' /\ cls1 c1 = Some a /\ cls2 c2 = Some b
    /\ k (10 * a + b)%N s' = Some x.
Proof.
  unfold two. intros H.
  apply one_inv in H. destruct H as (c1 & s1 & a & -> & Ha & H).
  apply one_inv in H. destruct H as (c2 & s2 & b & -> & Hb & H).
  exists c1, c2, s2, a, b. auto.
Qed.

Lemma sep_inv {A : Type} (c : char) (s : text) (k : text -> option A)
    (x : A) :
  sep c s k = Some x -> exists s', s = c :: s' /\ k s' = Some x.
Proof.
  destruct s as [|c' s']; simpl; [discriminate|].
  destruct (N.eqb_spec c' c); [|discriminate]. subst. eauto.
Qed.

Lemma first_of_inv {A B : Type}
    (alts : list (text -> (B -> text -> option A) -> option A))
    (s : text) (k : B -> text -> option A) (x : A) :
  first_of alts s k = Some x ->
  exists alt, In alt alts /\ alt s k = Some x.
Proof.
  induction alts as [|alt alts IH]; simpl; [discriminate|].
  destruct (alt s k) as [y|] eqn:E.
  - intros H. injection H as ->. eauto.
  - intros H. destruct (IH H) as (alt' & Hin & H'). eauto.
Qed.

(** The text of a match of [%d] starts with a digit or a space, and the
    continuation accepted a value. *)
Lemma dir_d_inv {A : Type} (s : text) (k : N -> text -> option A) (x : A) :
  dir_d s k = Some x -> exists d s', k d s' = Some x.
Proof.
  unfold dir_d. intros H. apply first_of_inv in H.
  destruct H as (alt & Hin & H). cbn [In] in Hin.
  destruct Hin as [<-|[<-|[<-|[<-|[<-|[]]]]]].
  - apply two_inv in H. destruct H as (? & ? & ? & ? & ? & _ & _ & _ & H). eauto.
  - apply two_inv in H. destruct H as (? & ? & ? & ? & ? & _ & _ & _ & H). eauto.
  - apply two_inv in H. destruct H as (? & ? & ? & ? & ? & _ & _ & _ & H). eauto.
  - apply one_inv in H. destruct H as (? & ? & ? & _ & _ & H). eauto.
  - apply sep_inv in H. destruct H as (? & _ & H).
    apply one_inv in H. destruct H as (? & ? & ? & _ & _ & H). eauto.
Qed.

Lemma dir_b_inv {A : Type} (s : text) (k : text -> text -> option A)
    (x : A) :
  dir_b s k = Some x -> exists b s', k b s' = Some x.
Proof.
  unfold dir_b. intros H. apply first_of_inv in H.
  destruct H as (alt & Hin & H). apply in_map_iff in Hin.
  destruct Hin as (name & <- & _). unfold abbr in H.
  destruct name as [|p1 [|p2 [|p3 [|]]]]; try discriminate.
  destruct s as [|c1 [|c2 [|c3 s']]]; try discriminate.
  destruct (_ && _ && _); [eauto | discriminate].
Qed.

Lemma dir_y_inv {A : Type} (s : text) (k : N -> text -> option A) (x : A) :
  dir_y s k = Some x -> exists y s', (y < 100)%N /\ k y s' = Some x.
Proof.
  unfold dir_y. intros H. apply two_inv in H.
  destruct H as (c1 & c2 & s' & a & b & _ & Ha & Hb & H).
  apply digit_value_lt in Ha, Hb.
  exists (10 * a + b)%N, s'. split; [lia | exact H].
Qed.

Lemma match_dby_year (s rest b : text) (d y : N) :
  match_dby s = Some (d, b, y, rest) -> (y < 100)%N.
Proof.
  unfold match_dby. intros H.
  apply dir_d_inv in H. destruct H as (d' & s1 & H).
  apply sep_inv in H. destruct H as (s2 & _ & H).
  apply dir_b_inv in H. destruct H as (b' & s3 & H).
  apply sep_inv in H. destruct H as (s4 & _ & H).
  apply dir_y_inv in H. destruct H as (y' & s5 & Hy & H).
  injection H as _ _ <- _. exact Hy.
Qed.

Lemma make_datetime_inv (y m d H M sec : N) (dt : datetime) :
  make_datetime y m d H M sec = Some dt ->
  dt = {| dt_year := y; dt_month := m; dt_day := d;
          dt_hour := H; dt_minute := M; dt_second := sec |}
  /\ (1 <= y <= 9999)%N /\ (1 <= m <= 12)%N
  /\ (1 <= d <= days_in_month y m)%N
  /\ (H < 24)%N /\ (M < 60)%N /\ (sec < 60)%N.
Proof.
  unfold make_datetime.
  destruct (_ && _)%bool eqn:E; [|discriminate].
  intros Hdt. injection Hdt as <-.
  repeat (apply andb_true_iff in E; destruct E as [E ?]).
  repeat match goal with
    | H : (_ <=? _)%N = true |- _ => apply N.leb_le in H
    | H : (_ <? _)%N = true |- _ => apply N.ltb_lt in H
    end.
  repeat split; assumption.
Qed.

Lemma days_in_month_le (y m : N) : (days_in_month y m <= 31)%N.
Proof.
  unfold days_in_month.
  destruct (m =? 2)%N; [destruct (is_leap y); lia|].
  destruct (_ || _)%bool; lia.
Qed.

Ltac Zify.zify_post_hook ::= Z.to_euclidean_division_equations.

Lemma replace_keep (c : char) (s : text) :
  N.eqb 32 c = false ->
  replace_from (lit " 0") (lit " ") 0 (c :: s)
  = c :: replace_from (lit " 0") (lit " ") 0 s.
Proof.
  intros H. change (lit " 0") with [32; 48]%N.
  cbn [replace_from starts_with]. rewrite H. reflexivity.
Qed.

Lemma replace_space_keep (c : char) (s : text) :
  N.eqb 48 c = false ->
  replace_from (lit " 0") (lit " ") 0 (32%N :: c :: s)
  = 32%N :: replace_from (lit " 0") (lit " ") 0 (c :: s).
Proof.
  intros H. change (lit " 0") with [32; 48]%N.
  cbn [replace_from starts_with]. rewrite H. reflexivity.
Qed.

Lemma replace_space_zero (s : text) :
  replace_from (lit " 0") (lit " ") 0 (32%N :: 48%N :: s)
  = 32%N :: replace_from (lit " 0") (lit " ") 0 s.
Proof. reflexivity. Qed.

Lemma replace_prefix (a b : text) :
  forallb (fun c => negb (N.eqb 32 c)) a = true ->
  replace_from (lit " 0") (lit " ") 0 (a ++ b)
  = a ++ replace_from (lit " 0") (lit " ") 0 b.
Proof.
  induction a as [|c a IH]; simpl app; [reflexivity|].
  intros H. cbn [forallb] in H. apply andb_true_iff in H.
  destruct H as [Hc Ha]. apply negb_true_iff in Hc.
  rewrite (replace_keep _ _ Hc), (IH Ha). reflexivity.
Qed.

Ltac enum_N d :=
  destruct d as [|d]; [try lia|];
  repeat (destruct d as [d|d|]; try lia).

Lemma month_name_no_space (m : N) :
  (1 <= m <= 12)%N ->
  forallb (fun c => negb (N.eqb 32 c)) (month_name m) = true.
Proof. intros H. enum_N m; reflexivity. Qed.

Ltac digit_ne := unfold digit; apply N.eqb_neq; lia.

(** Four digits that do not start with a zero are padded or not the same. *)
Lemma year_text_pad4 (y : N) :
  (1000 <= y <= 9999)%N -> year_text y = pad4 y.
Proof.
  intros Hy. unfold year_text. destruct year_padded; [reflexivity|].
  unfold decimal, pad4. cbn [drop_zeros].
  replace (N.eqb (digit (y / 1000)) 48) with false; [reflexivity|].
  symmetry. digit_ne.
Qed.

(** The replacement takes the zero off a day below ten and nothing else,
    where the year has four digits. *)
Lemma strftime_replace (y m d : N) :
  (1 <= m <= 12)%N -> (1 <= d <= 31)%N -> (1000 <= y <= 9999)%N ->
  replace (lit " 0") (lit " ")
    (month_name m ++ lit " " ++ pad2 d ++ lit ", " ++ year_text y)
  = month_name m ++ lit " " ++ day_text d ++ lit ", " ++ pad4 y.
Proof.
  intros Hm Hd Hy. rewrite (year_text_pad4 _ Hy). unfold replace.
  rewrite (replace_prefix _ _ (month_name_no_space _ Hm)). f_equal.
  unfold pad2, pad4, day_text.
  change (lit " ") with [32%N]. change (lit ", ") with [44%N; 32%N].
  cbn [app].
  destruct (N.ltb_spec d 10) as [Hlt|Hge].
  - replace (d / 10)%N with 0%N by lia. replace (d mod 10)%N with d by lia.
    change (digit 0) with 48%N. rewrite replace_space_zero.
    rewrite replace_keep by digit_ne.
    rewrite replace_keep by reflexivity.
    rewrite replace_space_keep by digit_ne.
    rewrite !replace_keep by digit_ne. reflexivity.
  - rewrite replace_space_keep by digit_ne.
    rewrite 2 replace_keep by digit_ne.
    rewrite replace_keep by reflexivity.
    rewrite replace_space_keep by digit_ne.
    rewrite !replace_keep by digit_ne. reflexivity.
Qed.

Lemma format_valid_date (y m d H M sec : N) (dt : datetime) :
  make_datetime y m d H M sec = Some dt -> (1000 <= y)%N ->
  replace (lit " 0") (lit " ") (strftime dt) = display_date dt.
Proof.
  intros Hdt Hy. apply make_datetime_inv in Hdt.
  destruct Hdt as (-> & Hy' & Hm & Hd & _).
  pose proof (days_in_month_le y m).
  unfold strftime, display_date. cbn [dt_year dt_month dt_day].
  apply strftime_replace; lia.
Qed.

(** A text accepted as ['%d-%b-%y']. *)
Lemma convert_date_dby (date_str : text) (dt : datetime) :
  strptime_dby date_str = Some dt ->
  convert_date date_str = display_date dt
  /\ (1969 <= dt_year dt <= 2068)%N.
Proof.
  intros H. unfold convert_date. rewrite H.
  unfold strptime_dby in H.
  destruct (match_dby date_str) as [[[[d b] y] rest]|] eqn:E; [|discriminate].
  apply match_dby_year in E.
  destruct (is_empty rest); [|discriminate].
  destruct (month_of_abbr b) as [m|]; [|discriminate].
  assert (Hy : (1969 <= full_year y <= 2068)%N).
  { unfold full_year. destruct (N.leb_spec y 68); lia. }
  split.
  - apply (format_valid_date _ _ _ _ _ _ _ H). lia.
  - apply make_datetime_inv in H. destruct H as (-> & _). exact Hy.
Qed.

Lemma digit_in_low (lo hi : N) (c : char) :
  (c < 48)%N -> digit_in lo hi c = None.
Proof. intros H. unfold digit_in. cmp_by_lia. reflexivity. Qed.

Lemma digit_value_low (c : char) : (c < 48)%N -> digit_value c = None.
Proof.
  intros H. rewrite digit_value_ascii by lia. cmp_by_lia. reflexivity.
Qed.

Lemma digit_value_some (c : char) :
  digit_value c <> None -> c <> 45%N /\ c <> 32%N.
Proof.
  intros H. split; intros ->; apply H; apply digit_value_low; lia.
Qed.

(** A text that starts with three digits is not of the form
    ['%d-%b-%y']. *)
Lemma match_dby_digits (c1 c2 c3 : char) (rest : text) :
  digit_value c1 <> None -> digit_value c2 <> None ->
  digit_value c3 <> None ->
  match_dby (c1 :: c2 :: c3 :: rest) = None.
Proof.
  intros H1 H2 H3.
  apply digit_value_some in H1, H2, H3.
  destruct H1 as [_ H1], H2 as [H2 _], H3 as [H3 _].
  apply N.eqb_neq in H1, H2, H3.
  unfold match_dby, dir_d. cbn [first_of two one sep].
  unfold ch. change (N_of_ascii "-") with 45%N. rewrite H1, H2, H3.
  repeat match goal with
    | |- context [digit_in ?lo ?hi ?c] => destruct (digit_in lo hi c)
    | |- context [digit_value ?c] => destruct (digit_value c)
    end; reflexivity.
Qed.

Lemma dir_Y_inv {A : Type} (s : text) (k : N -> text -> option A) (x : A) :
  dir_Y s k = Some x ->
  exists c1 c2 c3 rest,
    s = c1 :: c2 :: c3 :: rest /\ digit_value c1 <> None
    /\ digit_value c2 <> None /\ digit_value c3 <> None.
Proof.
  unfold dir_Y. intros H. apply two_inv in H.
  destruct H as (c1 & c2 & s' & a & b & -> & Ha & Hb & H).
  apply two_inv in H.
  destruct H as (c3 & c4 & s'' & c & d & -> & Hc & _ & _).
  exists c1, c2, c3, (c4 :: s''). repeat split; congruence.
Qed.

(** A text accepted as ['%Y-%m-%d %H:%M:%S'] is not accepted as
    ['%d-%b-%y'], which is tried first. *)
Lemma strptime_formats_disjoint (date_str : text) (dt : datetime) :
  strptime_YmdHMS date_str = Some dt -> strptime_dby date_str = None.
Proof.
  unfold strptime_YmdHMS, strptime_dby.
  destruct (match_YmdHMS date_str) as [r|] eqn:E; [|discriminate].
  intros _. unfold match_YmdHMS in E. apply dir_Y_inv in E.
  destruct E as (c1 & c2 & c3 & rest & -> & H1 & H2 & H3).
  rewrite (match_dby_digits _ _ _ _ H1 H2 H3). reflexivity.
Qed.

(** A text accepted as ['%Y-%m-%d %H:%M:%S'], with a year of four
    digits that does not start with a zero. *)
Lemma convert_date_YmdHMS (date_str : text) (dt : datetime) :
  strptime_YmdHMS date_str = Some dt -> (1000 <= dt_year dt)%N ->
  convert_date date_str = display_date dt.
Proof.
  intros H Hy. unfold convert_date.
  rewrite (strptime_formats_disjoint _ _ H), H.
  unfold strptime_YmdHMS in H.
  destruct (match_YmdHMS date_str) as [[[[[[[y m] d] hh] mm] ss] rest]|];
    [|discriminate].
  destruct (is_empty rest); [|discriminate].
  apply (format_valid_date _ _ _ _ _ _ _ H).
  apply make_datetime_inv in H. destruct H as (-> & _). exact Hy.
Qed.

(** *** The texts of the two forms are accepted *)

Lemma sep_cons {A : Type} (c : char) (s : text) (k : text -> option A) :
  sep c (c :: s) k = k s.
Proof. simpl. rewrite N.eqb_refl. reflexivity. Qed.

Ltac digits :=
  rewrite ?digit_in_digit, ?digit_in_low, ?digit_value_low by lia;
  rewrite ?digit_value_digit by lia.

Lemma dir_d_pad2 {A : Type} (d : N) (rest : text)
    (k : N -> text -> option A) (x : A) :
  (1 <= d <= 31)%N -> k d rest = Some x ->
  dir_d (pad2 d ++ rest) k = Some x.
Proof.
  intros Hd Hk. unfold dir_d, pad2. cbn [first_of app two one].
  assert (Hcases : (d / 10 = 0 \/ d / 10 = 1 \/ d / 10 = 2 \/ d / 10 = 3)%N)
    by lia.
  assert (Hv : forall q, (d / 10 = q)%N -> k (10 * q + d mod 10)%N rest = Some x).
  { intros q Hq. replace (10 * q + d mod 10)%N with d by lia. exact Hk. }
  digits.
  destruct Hcases as [E|[E|[E|E]]]; rewrite E in *; cmp_by_lia; cbn [andb];
    rewrite (Hv _ eq_refl); reflexivity.
Qed.

Lemma dir_d_day_text {A : Type} (d : N) (c : char) (rest : text)
    (k : N -> text -> option A) (x : A) :
  (1 <= d <= 31)%N -> (c < 48)%N -> k d (c :: rest) = Some x ->
  dir_d (day_text d ++ c :: rest) k = Some x.
Proof.
  intros Hd Hc Hk. unfold day_text. destruct (N.ltb_spec d 10) as [Hlt|Hge].
  - unfold dir_d. cbn [first_of app two one]. digits. cmp_by_lia.
    repeat match goal with
      | |- context [N.leb ?a ?b] => destruct (N.leb a b)
      end; cbn [andb]; rewrite ?Hk; reflexivity.
  - apply dir_d_pad2; assumption.
Qed.

Lemma dir_m_pad2 {A : Type} (m : N) (rest : text)
    (k : N -> text -> option A) (x : A) :
  (1 <= m <= 12)%N -> k m rest = Some x ->
  dir_m (pad2 m ++ rest) k = Some x.
Proof.
  intros Hm Hk. unfold dir_m, pad2. cbn [first_of app two one].
  assert (Hcases : (m / 10 = 0 \/ m / 10 = 1)%N) by lia.
  assert (Hv : forall q, (m / 10 = q)%N -> k (10 * q + m mod 10)%N rest = Some x).
  { intros q Hq. replace (10 * q + m mod 10)%N with m by lia. exact Hk. }
  digits.
  destruct Hcases as [E|E]; rewrite E in *; cmp_by_lia; cbn [andb];
    rewrite (Hv _ eq_refl); reflexivity.
Qed.

Lemma dir_H_pad2 {A : Type} (H : N) (rest : text)
    (k : N -> text -> option A) (x : A) :
  (H < 24)%N -> k H rest = Some x -> dir_H (pad2 H ++ rest) k = Some x.
Proof.
  intros HH Hk. unfold dir_H, pad2. cbn [first_of app two one].
  assert (Hcases : (H / 10 = 0 \/ H / 10 = 1 \/ H / 10 = 2)%N) by lia.
  assert (Hv : forall q, (H / 10 = q)%N -> k (10 * q + H mod 10)%N rest = Some x).
  { intros q Hq. replace (10 * q + H mod 10)%N with H by lia. exact Hk. }
  digits.
  destruct Hcases as [E|[E|E]]; rewrite E in *; cmp_by_lia; cbn [andb];
    rewrite (Hv _ eq_refl); reflexivity.
Qed.

Lemma dir_M_pad2 {A : Type} (M : N) (rest : text)
    (k : N -> text -> option A) (x : A) :
  (M < 60)%N -> k M rest = Some x -> dir_M (pad2 M ++ rest) k = Some x.
Proof.
  intros HM Hk. unfold dir_M, pad2. cbn [first_of app two one]. digits.
  cmp_by_lia. cbn [andb].
  replace (10 * (M / 10) + M mod 10)%N with M by lia.
  rewrite Hk. reflexivity.
Qed.

Lemma dir_S_pad2 {A : Type} (sec : N) (rest : text)
    (k : N -> text -> option A) (x : A) :
  (sec < 60)%N -> k sec rest = Some x -> dir_S (pad2 sec ++ rest) k = Some x.
Proof.
  intros HS Hk. unfold dir_S, pad2. cbn [first_of app two one]. digits.
  cmp_by_lia. cbn [andb].
  replace (10 * (sec / 10) + sec mod 10)%N with sec by lia.
  rewrite Hk. reflexivity.
Qed.

Lemma dir_y_pad2 {A : Type} (y : N) (rest : text)
    (k : N -> text -> option A) :
  (y < 100)%N -> dir_y (pad2 y ++ rest) k = k y rest.
Proof.
  intros Hy. unfold dir_y, pad2. cbn [app two one]. digits.
  replace (10 * (y / 10) + y mod 10)%N with y by lia. reflexivity.
Qed.

Lemma dir_Y_pad4 {A : Type} (y : N) (rest : text)
    (k : N -> text -> option A) :
  (y <= 9999)%N -> dir_Y (pad4 y ++ rest) k = k y rest.
Proof.
  intros Hy. unfold dir_Y, pad4. cbn [app two one]. digits.
  replace (100 * (10 * (y / 1000) + y / 100 mod 10)
           + (10 * (y / 10 mod 10) + y mod 10))%N with y by lia.
  reflexivity.
Qed.

Lemma isspace_digit (a : N) : (a < 10)%N -> isspace (digit a) = false.
Proof. intros Ha. unfold isspace, digit. cmp_by_lia. reflexivity. Qed.

Lemma spaces_one {A : Type} (a : N) (rest : text) (k : text -> option A) :
  (a < 10)%N ->
  spaces (32%N :: digit a :: rest) k = k (digit a :: rest).
Proof.
  intros Ha. unfold spaces, Plus. cbn [rmatch star_match].
  change (isspace 32%N) with true. cbv iota.
  rewrite (isspace_digit _ Ha). reflexivity.
Qed.

Lemma dir_b_month_abbr {A : Type} (m : N) (rest : text)
    (k : text -> text -> option A) (x : A) :
  (1 <= m <= 12)%N -> k (month_abbr m) rest = Some x ->
  dir_b (month_abbr m ++ rest) k = Some x.
Proof.
  intros Hm. enum_N m; intros Hk; cbv in Hk |- *; rewrite Hk; reflexivity.
Qed.

Lemma month_of_abbr_month_abbr (m : N) :
  (1 <= m <= 12)%N -> month_of_abbr (month_abbr m) = Some m.
Proof.
  intros Hm. unfold month_of_abbr.
  enum_N m; rewrite lower_ascii by reflexivity; reflexivity.
Qed.

Lemma make_datetime_valid (y m d H M sec : N) :
  (1 <= y <= 9999)%N -> (1 <= m <= 12)%N ->
  (1 <= d <= days_in_month y m)%N ->
  (H < 24)%N -> (M < 60)%N -> (sec < 60)%N ->
  make_datetime y m d H M sec
  = Some {| dt_year := y; dt_month := m; dt_day := d;
            dt_hour := H; dt_minute := M; dt_second := sec |}.
Proof.
  intros Hy Hm Hd HH HM HS. unfold make_datetime.
  replace (d <=? days_in_month y m)%N with true
    by (symmetry; apply N.leb_le; lia).
  cmp_by_lia. reflexivity.
Qed.

Lemma strptime_dby_accepts (day : text) (d m y : N) :
  (1 <= m <= 12)%N -> (y < 100)%N ->
  (1 <= d <= days_in_month (full_year y) m)%N ->
  day = day_text d \/ day = pad2 d ->
  strptime_dby (dby_text day m y)
  = Some {| dt_year := full_year y; dt_month := m; dt_day := d;
            dt_hour := 0; dt_minute := 0; dt_second := 0 |}.
Proof.
  intros Hm Hy Hd Hday.
  pose proof (days_in_month_le (full_year y) m) as Hle.
  assert (Hmatch : match_dby (dby_text day m y)
                   = Some (d, month_abbr m, y, [])).
  { unfold match_dby, dby_text. change (lit "-") with [ch "-"].
    cbn [app].
    assert (Hrest :
              sep (ch "-") (ch "-" :: month_abbr m ++ ch "-" :: pad2 y)
                (fun s2 => dir_b s2 (fun b s3 =>
                 sep (ch "-") s3 (fun s4 =>
                 dir_y s4 (fun y0 s5 => Some (d, b, y0, s5)))))
              = Some (d, month_abbr m, y, [])).
    { rewrite sep_cons. apply dir_b_month_abbr; [exact Hm|].
      rewrite sep_cons.
      rewrite <- (app_nil_r (pad2 y)), dir_y_pad2 by exact Hy. reflexivity. }
    destruct Hday as [-> | ->].
    - apply dir_d_day_text; [lia | reflexivity | exact Hrest].
    - apply dir_d_pad2; [lia | exact Hrest]. }
  unfold strptime_dby. rewrite Hmatch. cbn [is_empty].
  rewrite (month_of_abbr_month_abbr _ Hm).
  apply make_datetime_valid; try lia.
  unfold full_year. destruct (N.leb_spec y 68); lia.
Qed.

Lemma strptime_YmdHMS_accepts (y m d H M sec : N) :
  (1 <= y <= 9999)%N -> (1 <= m <= 12)%N ->
  (1 <= d <= days_in_month y m)%N ->
  (H < 24)%N -> (M < 60)%N -> (sec < 60)%N ->
  strptime_YmdHMS (timestamp_text y m d H M sec)
  = Some {| dt_year := y; dt_month := m; dt_day := d;
            dt_hour := H; dt_minute := M; dt_second := sec |}.
Proof.
  intros Hy Hm Hd HH HM HS.
  pose proof (days_in_month_le y m) as Hle.
  assert (Hmatch : match_YmdHMS (timestamp_text y m d H M sec)
                   = Some (y, m, d, H, M, sec, [])).
  { unfold match_YmdHMS, timestamp_text.
    change (lit "-") with [ch "-"]. change (lit ":") with [ch ":"].
    change (lit " ") with [32%N]. cbn [app].
    rewrite dir_Y_pad4 by lia. rewrite sep_cons.
    apply dir_m_pad2; [exact Hm|]. rewrite sep_cons.
    apply dir_d_pad2; [lia|].
    unfold pad2 at 1. cbn [app]. rewrite spaces_one by lia.
    apply (dir_H_pad2 H (ch ":" :: pad2 M ++ ch ":" :: pad2 sec));
      [exact HH|].
    rewrite sep_cons. apply dir_M_pad2; [exact HM|]. rewrite sep_cons.
    rewrite <- (app_nil_r (pad2 sec)). apply dir_S_pad2; [exact HS|].
    reflexivity. }
  unfold strptime_YmdHMS. rewrite Hmatch. cbn [is_empty].
  apply make_datetime_valid; assumption.
Qed.

(** C4, as amended: [convert_date] maps the text of a date in the form of
    ["3-Jul-25"] (the day with or without a leading zero) and the text of
    a date and time in the form ["YYYY-MM-DD HH:MM:SS"] whose year is 1000
    or later to the name of the month, the day without a leading zero, a
    comma and the year in four digits; so it does with every text that
    [strptime] accepts in one of the two formats, under the same
    condition on the year.  A text that [strptime] accepts in neither
    format is returned as it is.  ["3-Jul-25"] gives ["July 3, 2025"]. *)
Theorem convert_date_formats :
  (forall (day : text) (d m y : N),
      (1 <= m <= 12)%N -> (y < 100)%N ->
      (1 <= d <= days_in_month (full_year y) m)%N ->
      day = day_text d \/ day = pad2 d ->
      convert_date (dby_text day m y)
      = month_name m ++ lit " " ++ day_text d ++ lit ", "
        ++ pad4 (full_year y))
  /\ (forall y m d H M sec : N,
        (1000 <= y <= 9999)%N -> (1 <= m <= 12)%N ->
        (1 <= d <= days_in_month y m)%N ->
        (H < 24)%N -> (M < 60)%N -> (sec < 60)%N ->
        convert_date (timestamp_text y m d H M sec)
        = month_name m ++ lit " " ++ day_text d ++ lit ", " ++ pad4 y)
  /\ (forall (date_str : text) (dt : datetime),
        strptime_dby date_str = Some dt ->
        convert_date date_str = display_date dt)
  /\ (forall (date_str : text) (dt : datetime),
        strptime_YmdHMS date_str = Some dt -> (1000 <= dt_year dt)%N ->
        convert_date date_str = display_date dt)
  /\ (forall date_str : text,
        strptime_dby date_str = None -> strptime_YmdHMS date_str = None ->
        convert_date date_str = date_str)
  /\ convert_date (lit "3-Jul-25") = lit "July 3, 2025"
  /\ convert_date (lit "2025-07-03 00:00:00") = lit "July 3, 2025"
  /\ convert_date (lit "not-a-date") = lit "not-a-date".
Proof.
  assert (H1 : forall (day : text) (d m y : N),
             (1 <= m <= 12)%N -> (y < 100)%N ->
             (1 <= d <= days_in_month (full_year y) m)%N ->
             day = day_text d \/ day = pad2 d ->
             convert_date (dby_text day m y)
             = month_name m ++ lit " " ++ day_text d ++ lit ", "
               ++ pad4 (full_year y)).
  { intros day d m y Hm Hy Hd Hday.
    pose proof (strptime_dby_accepts day d m y Hm Hy Hd Hday) as Hacc.
    apply convert_date_dby in Hacc. destruct Hacc as [Hacc _]. exact Hacc. }
  assert (H2 : forall y m d H M sec : N,
             (1000 <= y <= 9999)%N -> (1 <= m <= 12)%N ->
             (1 <= d <= days_in_month y m)%N ->
             (H < 24)%N -> (M < 60)%N -> (sec < 60)%N ->
             convert_date (timestamp_text y m d H M sec)
             = month_name m ++ lit " " ++ day_text d ++ lit ", " ++ pad4 y).
  { intros y m d H M sec Hy Hm Hd HH HM HS.
    assert (Hacc := strptime_YmdHMS_accepts y m d H M sec).
    rewrite (convert_date_YmdHMS _ _ (Hacc ltac:(lia) Hm Hd HH HM HS));
      [reflexivity | cbn [dt_year]; lia]. }
  split; [exact H1|]. split; [exact H2|]. split; [|split; [|split]].
  - intros date_str dt H. exact (proj1 (convert_date_dby _ _ H)).
  - exact convert_date_YmdHMS.
  - intros date_str Hd Hy. unfold convert_date. rewrite Hd, Hy. reflexivity.
  - split; [|split].
    + change (lit "3-Jul-25") with (dby_text (day_text 3) 7 25).
      rewrite (H1 (day_text 3) 3%N 7%N 25%N);
        [reflexivity | lia | lia | vm_compute; split; discriminate
        | left; reflexivity].
    + change (lit "2025-07-03 00:00:00") with (timestamp_text 2025 7 3 0 0 0).
      rewrite (H2 2025 7 3 0 0 0)%N;
        [reflexivity | lia | lia | vm_compute; split; discriminate
        | lia | lia | lia].
    + unfold convert_date.
      replace (strptime_dby (lit "not-a-date")) with (@None datetime)
        by reflexivity.
      replace (strptime_YmdHMS (lit "not-a-date")) with (@None datetime);
        [reflexivity|].
      unfold strptime_YmdHMS, match_YmdHMS, dir_Y, two.
      change (lit "not-a-date") with (110%N :: lit "ot-a-date").
      cbn [one]. rewrite (digit_value_ascii 110%N) by lia. reflexivity.
Qed.

(** ** generate_map_link *)

(** C7: a location with the separator ["to"] or ["→"] in it is split
    into its legs, in order, the parts between the separators (taken with
    the white space around them); there are at least two, none has a
    separator left in it, and the result is one placeholder link for each
    trimmed leg.  A location without a separator gives a single
    placeholder link.  A placeholder link is the base URL followed by the
    name without its spaces and parentheses.  ["Venice to Murano"] gives
    the links of ["Venice"] and ["Murano"]. *)
Theorem generate_map_link_legs :
  forall location : text,
    (has_separator location = true ->
     exists seps : list text,
       let legs := re_split leg_separator location in
       seps <> []
       /\ List.length legs = S (List.length seps)
       /\ interleave legs seps = location
       /\ Forall is_leg_separator seps
       /\ Forall (fun leg => has_separator leg = false) legs
       /\ generate_map_link location
          = LinkList (map (fun leg => placeholder_link (strip leg)) legs))
    /\ (has_separator location = false ->
        generate_map_link location = OneLink (placeholder_link location))
    /\ placeholder_link location
       = maps_base ++ filter (fun c => negb (is_space_or_paren c)) location
    /\ generate_map_link (lit "Venice to Murano")
       = LinkList [maps_base ++ lit "Venice"; maps_base ++ lit "Murano"].
Proof.
  intros location. split; [|split; [|split]].
  - intros Hsep.
    destruct (re_split_spec _ leg_separator_nonempty location)
      as (seps & Hlen & Hint & Hseps & Hlegs).
    exists seps. cbv zeta.
    assert (Hmany : seps <> []).
    { intros ->. rewrite (re_split_eq _ location leg_separator_nonempty) in Hlen.
      destruct (re_search leg_separator location) as [[b rest]|] eqn:E.
      - cbn [List.length] in Hlen.
        destruct (re_split leg_separator rest) eqn:E';
          [exact (re_split_not_nil _ _ E') | discriminate].
      - apply re_search_none in E. apply E, occurs_leg_separator, Hsep. }
    repeat split; try assumption.
    + eapply Forall_impl; [|exact Hseps].
      intros m. apply leg_separator_matches.
    + eapply Forall_impl; [|exact Hlegs].
      intros leg Hleg. destruct (has_separator leg) eqn:E; [|reflexivity].
      exfalso. apply Hleg, occurs_leg_separator, E.
    + unfold generate_map_link. rewrite length_map, Hlen.
      destruct seps as [|m seps]; [contradiction|].
      cbn [List.length Nat.ltb Nat.leb]. rewrite map_map. reflexivity.
  - intros Hnone. unfold generate_map_link.
    rewrite (re_split_eq _ location leg_separator_nonempty).
    destruct (re_search leg_separator location) as [[b rest]|] eqn:E.
    + apply (re_search_some _ _ _ _ leg_separator_nonempty) in E.
      destruct E as (m & -> & Hm & _).
      assert (H : has_separator (b ++ m ++ rest) = true).
      { apply occurs_leg_separator. exists b, m, rest. auto. }
      congruence.
    + reflexivity.
  - apply placeholder_link_eq.
  - reflexivity.
Qed.

(** C9: the separator is looked for anywhere in the text, inside words as
    well: the single word ["Porto"] is split at its ["to"] into the legs
    ["Por"] and [""], and the result is a list of two links, the second
    one the bare base URL. *)
Theorem generate_map_link_splits_inside_word :
  exists location : text,
    existsb isspace location = false
    /\ contains (lit "to") location = true
    /\ map strip (re_split leg_separator location) = [lit "Por"; []]
    /\ generate_map_link location
       = LinkList [maps_base ++ lit "Por"; maps_base ++ []].
Proof.
  exists (lit "Porto"). repeat split.
Qed.

(** ** normalize_columns *)

(** C10: on the labels of a sheet, [normalize_columns] is idempotent (its
    result, taken as labels again, is normalised to itself), and every
    label of its result is stripped and in lower case.  The labels that
    the reader of the spreadsheet hands over are strings, and numbers,
    dates and booleans, whose string form has no white space around it:
    that is the hypothesis on the labels that are not strings. *)
Theorem normalize_columns_idempotent :
  forall columns : list label,
    (forall shown, In (OtherLabel shown) columns -> strip shown = shown) ->
    normalize_columns (map StrLabel (normalize_columns columns))
    = normalize_columns columns
    /\ Forall (fun l => strip l = l /\ lower l = l)
         (normalize_columns columns).
Proof.
  intros columns Hother.
  assert (Hout : Forall (fun l => strip l = l /\ lower l = l)
                   (normalize_columns columns)).
  { unfold normalize_columns. apply Forall_forall. intros l Hl.
    apply in_map_iff in Hl. destruct Hl as ([col|shown] & <- & Hcol).
    - split; [apply lower_stripped, strip_idem | apply lower_idem].
    - split; [apply lower_stripped, Hother, Hcol | apply lower_idem]. }
  split; [|exact Hout].
  revert Hout. generalize (normalize_columns columns). intros names Hnames.
  induction Hnames as [|l names [Hs Hl] _ IH]; [reflexivity|].
  cbn [map normalize_columns] in *. rewrite Hs, Hl. f_equal. exact IH.
Qed.

(** ** table_to_json *)

Lemma process_sheets_app (before after : list sheet) (d0 d : dict) :
  process_sheets d0 before = Returns d ->
  process_sheets d0 (before ++ after) = process_sheets d after.
Proof.
  revert d0. induction before as [|sh before IH]; intros d0 H; simpl in *.
  - injection H as ->. reflexivity.
  - destruct (process_sheet d0 sh); try discriminate. exact (IH _ H).
Qed.

Lemma process_rows_build (name : text) (names : list text)
    (rws : list (list cell)) (d : dict) :
  process_rows name names rws d
  = dict_build (map (process_row name names) rws) d.
Proof.
  unfold process_rows, dict_build. revert d.
  induction rws as [|row rws IH]; intros d; simpl; [reflexivity|].
  rewrite <- IH. destruct (process_row name names row). reflexivity.
Qed.

Lemma str_labels_normalize (cols : list label) (l : list text) :
  str_labels cols = Some l ->
  map (fun col => lower (strip col)) l = normalize_columns cols.
Proof.
  unfold normalize_columns. revert l.
  induction cols as [|[col|shown] cols IH]; intros l H; simpl in H.
  - injection H as <-. reflexivity.
  - destruct (str_labels cols) as [l'|]; [|discriminate].
    injection H as <-. simpl. f_equal. exact (IH l' eq_refl).
  - discriminate.
Qed.

Lemma process_sheet_build (d d' : dict) (sh : sheet) :
  process_sheet d sh = Returns d' ->
  d' = dict_build (records_of_sheet sh) d.
Proof.
  unfold process_sheet, records_of_sheet.
  destruct (negb (forallb _ expected_columns)); [discriminate|].
  destruct (str_labels (columns sh)) as [cols|] eqn:E; [|discriminate].
  intros H. injection H as <-.
  rewrite process_rows_build, (str_labels_normalize _ _ E). reflexivity.
Qed.

Lemma process_sheets_build (sheets : list sheet) (d d' : dict) :
  process_sheets d sheets = Returns d' ->
  d' = dict_build (records_of sheets) d.
Proof.
  revert d. induction sheets as [|sh sheets IH]; intros d H; simpl in H.
  - injection H as <-. reflexivity.
  - destruct (process_sheet d sh) as [d1| |] eqn:E; try discriminate.
    apply process_sheet_build in E. subst d1.
    rewrite (IH _ H). unfold records_of, dict_build. simpl.
    rewrite fold_left_app. reflexivity.
Qed.

(** C6: the labels reported missing are exactly the required labels that
    are not among the normalised labels of the sheet.  When one is
    missing, the sheet fails with the validation error of its name and
    these labels, whatever its rows are and whatever was gathered before
    it; so does the whole run when the sheets before it went through.
    When none is missing there is no validation error. *)
Theorem missing_columns_fail_validation :
  forall (sh : sheet) (date_to_activities : dict),
    let actual_columns := normalize_columns (columns sh) in
    let missing := missing_columns actual_columns in
    (forall col,
        In col missing <->
        In col expected_columns /\ ~ In col actual_columns)
    /\ ((exists col, In col expected_columns /\ ~ In col actual_columns) ->
        process_sheet date_to_activities sh
        = RaisesValueError (sheet_name sh) missing (columns sh)
        /\ (forall rows',
              process_sheet date_to_activities
                {| sheet_name := sheet_name sh; columns := columns sh;
                   rows := rows' |}
              = RaisesValueError (sheet_name sh) missing (columns sh))
        /\ (forall before after d,
              process_sheets [] before = Returns d ->
              table_to_json (before ++ sh :: after)
              = RaisesValueError (sheet_name sh) missing (columns sh)))
    /\ ((forall col, In col expected_columns -> In col actual_columns) ->
        missing = []
        /\ forall n m f,
             process_sheet date_to_activities sh <> RaisesValueError n m f).
Proof.
  intros sh d0 actual_columns missing.
  assert (Hmissing : forall col,
             In col missing <->
             In col expected_columns /\ ~ In col actual_columns).
  { intros col. unfold missing, missing_columns.
    rewrite filter_In, negb_true_iff, <- (mem_In col actual_columns).
    destruct (mem col actual_columns); intuition congruence. }
  assert (Hcheck : forall (d : dict) (rows' : list (list cell)),
             (exists col, In col expected_columns /\ ~ In col actual_columns) ->
             process_sheet d
               {| sheet_name := sheet_name sh; columns := columns sh;
                  rows := rows' |}
             = RaisesValueError (sheet_name sh) missing (columns sh)).
  { intros d rows' (col & Hcol & Habsent). unfold process_sheet.
    cbn [sheet_name columns rows]. fold actual_columns.
    replace (forallb (fun col => mem col actual_columns) expected_columns)
      with false; [reflexivity|].
    symmetry. apply not_true_is_false. intros H.
    rewrite forallb_forall in H. apply Habsent, mem_In, H, Hcol. }
  assert (Heta : forall d : dict,
             process_sheet d sh
             = process_sheet d
                 {| sheet_name := sheet_name sh; columns := columns sh;
                    rows := rows sh |})
    by (destruct sh; reflexivity).
  split; [exact Hmissing|]. split.
  - intros Hex. split; [|split].
    + rewrite (Heta d0). exact (Hcheck d0 (rows sh) Hex).
    + intros rows'. exact (Hcheck d0 rows' Hex).
    + intros before after d Hbefore. unfold table_to_json.
      rewrite (process_sheets_app _ _ _ _ Hbefore). cbn [process_sheets].
      rewrite (Heta d), (Hcheck d (rows sh) Hex). reflexivity.
  - intros Hall. split.
    + assert (Hno : forall col, ~ In col missing).
      { intros col H. apply Hmissing in H. destruct H as [H1 H2].
        exact (H2 (Hall _ H1)). }
      destruct missing as [|col rest]; [reflexivity|].
      exfalso. apply (Hno col). left. reflexivity.
    + intros n m f. unfold process_sheet. fold actual_columns.
      replace (forallb (fun col => mem col actual_columns) expected_columns)
        with true.
      * cbn [negb]. destruct (str_labels (columns sh)); discriminate.
      * symmetry. apply forallb_forall. intros col Hcol.
        apply mem_In, Hall, Hcol.
Qed.

(** C5: when [table_to_json] returns, the dates of its groups ascend
    strictly in the order of texts (code point by code point, which is not
    the order of the calendar: ["December 1, 2025"] comes before
    ["July 3, 2025"], and ["July 10, 2025"] before ["July 3, 2025"]); the
    dates are those of the rows; the activities of a group are the
    records of the rows with its date, in the order in which the sheets
    and their rows are met; and its city is the cities of these records
    without repetitions, in ascending order, joined by [", "]. *)
Theorem table_to_json_groups :
  forall (sheets : list sheet) (itinerary : list DateGroup.t),
    table_to_json sheets = Returns itinerary ->
    StronglySorted (fun date1 date2 => text_ltb date1 date2 = true)
      (map DateGroup.date itinerary)
    /\ (forall date,
          In date (map DateGroup.date itinerary) <->
          In date (map fst (records_of sheets)))
    /\ (forall g,
          In g itinerary ->
          DateGroup.activities g
          = map snd
              (filter (fun r => text_eqb (fst r) (DateGroup.date g))
                 (records_of sheets))
          /\ exists cities,
               DateGroup.city g = join (lit ", ") cities
               /\ StronglySorted (fun c1 c2 => text_ltb c1 c2 = true) cities
               /\ forall c,
                    In c cities <->
                    exists a, In a (DateGroup.activities g)
                              /\ Activity.city a = c)
    /\ text_ltb (lit "December 1, 2025") (lit "July 3, 2025") = true
    /\ text_ltb (lit "July 10, 2025") (lit "July 3, 2025") = true.
Proof.
  intros sheets itinerary H. unfold table_to_json in H.
  destruct (process_sheets [] sheets) as [d| |] eqn:E; try discriminate.
  injection H as <-. apply process_sheets_build in E.
  set (records := records_of sheets) in *.
  assert (Hdates :
            map DateGroup.date
              (map (fun '(date, activities) =>
                      {| DateGroup.city := cities_of activities;
                         DateGroup.date := date;
                         DateGroup.activities := activities |})
                   (sorted_items d))
            = sorted text_leb (map fst d)).
  { unfold sorted_items. rewrite <- map_sorted, map_map.
    apply map_ext. intros [date activities]. reflexivity. }
  assert (Hnd : NoDup (map fst d)) by (subst d; apply dict_build_keys_NoDup).
  split; [|split; [|split; [|split; reflexivity]]].
  - rewrite Hdates. apply sorted_texts_strict, Hnd.
  - intros date. rewrite Hdates. split.
    + intros Hin. apply (Permutation_in _ (sorted_perm _ text_leb _)) in Hin.
      apply dict_get_key in Hin. subst d. rewrite dict_get_build in Hin.
      apply values_of_In. destruct (values_of date records); congruence.
    + intros Hin.
      apply (Permutation_in _ (Permutation_sym (sorted_perm _ text_leb _))).
      apply dict_get_key. subst d. rewrite dict_get_build.
      apply values_of_In in Hin.
      destruct (values_of date records); congruence.
  - intros g Hg. apply in_map_iff in Hg.
    destruct Hg as ([date activities] & <- & Hin). cbn [DateGroup.activities
      DateGroup.date DateGroup.city].
    apply (Permutation_in _ (sorted_perm _ _ _)) in Hin.
    apply (dict_get_In _ _ _ Hnd) in Hin. subst d.
    rewrite dict_get_build in Hin. fold (values_of date records).
    assert (Hact : activities = values_of date records)
      by (destruct (values_of date records); congruence).
    split; [exact Hact|].
    exists (sorted text_leb (set_of (map Activity.city activities))).
    split; [reflexivity|]. split; [apply sorted_texts_strict, set_of_NoDup|].
    intros c. split.
    + intros Hc. apply (Permutation_in _ (sorted_perm _ _ _)) in Hc.
      apply set_of_In, in_map_iff in Hc. destruct Hc as (a & Ha & Hin').
      eauto.
    + intros (a & Ha & <-).
      apply (Permutation_in _ (Permutation_sym (sorted_perm _ _ _))).
      apply set_of_In, in_map. exact Ha.
Qed.

End Properties.

(** * Further properties *)

Section FurtherProperties.

Context {R : Runtime}.

(** ** assign_activity_type *)

(** X1: the tags of [assign_activity_type] are decided one by one: the tag
    "travel" is there exactly when a travel keyword is in the activity or
    the notes, "dining" exactly when a dining keyword is in the activity,
    and "activity" exactly when an activity keyword matches or neither of
    the other two tags applies.  The tags come in the order travel,
    dining, activity, each at most once. *)
Theorem assign_activity_type_tags :
  forall activity notes : text,
    let types := assign_activity_type activity notes in
    let travel := any_in travel_activity_keywords (lower activity)
                  || any_in travel_notes_keywords (lower notes) in
    let dining := any_in dining_keywords (lower activity) in
    let sights := any_in activity_keywords (lower activity)
                  || any_in activity_notes_keywords (lower notes) in
    (In (lit "travel") types <-> travel = true)
    /\ (In (lit "dining") types <-> dining = true)
    /\ (In (lit "activity") types <->
        sights = true \/ (travel = false /\ dining = false))
    /\ types = filter (fun tag => mem tag types)
                 [lit "travel"; lit "dining"; lit "activity"].
Proof.
  intros activity notes. cbv zeta. unfold assign_activity_type.
  destruct (any_in travel_activity_keywords (lower activity)
            || any_in travel_notes_keywords (lower notes)),
    (any_in dining_keywords (lower activity)),
    (any_in activity_keywords (lower activity)
     || any_in activity_notes_keywords (lower notes));
    cbn [app]; repeat split;
    try (intros H;
         first [ solve [vm_compute in H; intuition congruence]
               | solve [vm_compute; intuition congruence] ]).
Qed.

(** ** things_to_do *)

Lemma things_to_do_keywords_any (x : text) :
  any_in things_to_do_keywords x =
  contains (lit "arrive") x
  || contains (lit "walk") x
  || (contains (lit "taxi") x || contains (lit "flight") x
      || contains (lit "train") x || contains (lit "vaporetto") x)
  || (contains (lit "breakfast") x || contains (lit "lunch") x
      || contains (lit "dinner") x || contains (lit "gelato") x)
  || (contains (lit "view") x || contains (lit "explore") x
      || contains (lit "relax") x || contains (lit "free time") x)
  || (contains (lit "check-in") x || contains (lit "check out") x)
  || contains (lit "luggage") x.
Proof.
  unfold any_in, things_to_do_keywords. cbn [existsb].
  rewrite ?orb_false_r, !orb_assoc. reflexivity.
Qed.

(** X2: the list of things to do of a row is never empty and has at most
    seven phrases; it is the single phrase "Perform activity: ..." with
    the activity as it was written exactly when no keyword of the ladder
    is in the lower-cased activity. *)
Theorem things_to_do_nonempty_fallback :
  forall activity location : text,
    let things := things_to_do_of activity location in
    things <> []
    /\ List.length things <= 7
    /\ (any_in things_to_do_keywords (lower activity) = false <->
        things = [lit "Perform activity: " ++ activity ++ lit "."]).
Proof.
  intros activity location. cbv zeta.
  rewrite things_to_do_keywords_any. unfold things_to_do_of. cbv beta zeta.
  set (b1 := contains (lit "arrive") (lower activity)).
  set (b2 := contains (lit "walk") (lower activity)).
  set (b3 := contains (lit "taxi") _ || contains (lit "flight") _
             || contains (lit "train") _ || contains (lit "vaporetto") _).
  set (b4 := contains (lit "breakfast") _ || contains (lit "lunch") _
             || contains (lit "dinner") _ || contains (lit "gelato") _).
  set (b5 := contains (lit "view") _ || contains (lit "explore") _
             || contains (lit "relax") _ || contains (lit "free time") _).
  set (b6 := contains (lit "check-in") _ || contains (lit "check out") _).
  set (b7 := contains (lit "luggage") (lower activity)).
  destruct b1, b2, b3, b4, b5, b6, b7; cbn [app is_empty orb List.length];
    (split; [discriminate|]); (split; [lia|]);
    (split; intros H; [try discriminate H | ]);
    try reflexivity;
    exfalso; vm_compute in H; discriminate H.
Qed.

(** ** Directions and transportation *)

Lemma split_char_clean (c : char) (s : text) :
  Forall (fun piece => ~ In c piece) (split_char c s).
Proof.
  induction s as [|x s IH]; simpl.
  - constructor; [tauto | constructor].
  - destruct (N.eqb_spec x c).
    + constructor; [tauto | exact IH].
    + destruct (split_char c s) as [|h t]; [constructor; [|constructor]|].
      * intros [E|[]]. congruence.
      * inversion_clear IH as [|? ? Hh Ht]. constructor; [|exact Ht].
        intros [E|E]; [congruence | exact (Hh E)].
Qed.

Lemma lstrip_spaces (s : text) :
  forallb isspace s = true <-> lstrip s = [].
Proof.
  induction s as [|c s IH]; simpl; [tauto|].
  destruct (isspace c); simpl; [exact IH|]. split; discriminate.
Qed.

Lemma strip_nil (s : text) :
  strip s = [] <-> forallb isspace s = true.
Proof.
  split.
  - intros H. destruct (lstrip_split s) as (w1 & E1 & H1).
    destruct (rstrip_split (lstrip s)) as (w2 & E2 & H2).
    unfold strip in H. rewrite H in E2. simpl in E2.
    rewrite E1, E2, forallb_app, H1, H2. reflexivity.
  - intros H. apply lstrip_spaces in H. unfold strip. rewrite H. reflexivity.
Qed.

Lemma split_char_spaces (c : char) (s : text) :
  forallb (fun x => isspace x || N.eqb x c) s = true <->
  Forall (fun piece => forallb isspace piece = true) (split_char c s).
Proof.
  induction s as [|x s IH]; simpl.
  - split; [intros _; constructor; [reflexivity | constructor] | reflexivity].
  - destruct (N.eqb_spec x c) as [->|Hx].
    + rewrite orb_true_r. cbn [andb]. rewrite IH. split.
      * intros H. constructor; [reflexivity | exact H].
      * intros H. inversion_clear H. assumption.
    + rewrite orb_false_r. rewrite andb_true_iff, IH.
      destruct (split_char c s) as [|h t].
      * split.
        -- intros [Hs _]. constructor; [simpl; rewrite Hs; reflexivity|constructor].
        -- intros H. inversion_clear H as [|? ? Hh _]. simpl in Hh.
           rewrite andb_true_r in Hh. split; [exact Hh | constructor].
      * split.
        -- intros [Hs H]. inversion_clear H as [|? ? Hh Ht].
           constructor; [simpl; rewrite Hs, Hh; reflexivity | exact Ht].
        -- intros H. inversion_clear H as [|? ? Hh Ht]. simpl in Hh.
           apply andb_true_iff in Hh. destruct Hh as [Hs Hh].
           split; [exact Hs | constructor; assumption].
Qed.

(** X3: the list made of a directions or transportation text is
    [["N/A"]] for the text "N/A"; for any other text its entries are not
    empty, have no white space at their ends and no full stop, and the
    list is empty exactly when the text has nothing but full stops and
    white space. *)
Theorem sentence_list_entries :
  forall x : text,
    (x = lit "N/A" -> sentence_list x = [lit "N/A"])
    /\ (x <> lit "N/A" ->
        Forall (fun d => d <> [] /\ strip d = d /\ ~ In (ch ".") d)
          (sentence_list x)
        /\ (sentence_list x = [] <->
            forallb (fun c => isspace c || N.eqb c (ch ".")) x = true)).
Proof.
  intros x. split.
  - intros ->. reflexivity.
  - intros Hx. unfold sentence_list.
    rewrite (proj2 (text_eqb_neq x (lit "N/A")) Hx). split.
    + apply Forall_forall. intros d Hd. apply in_map_iff in Hd.
      destruct Hd as (piece & <- & Hp). apply filter_In in Hp.
      destruct Hp as [Hin Hne]. apply negb_true_iff, is_empty_false in Hne.
      split; [exact Hne|]. split; [apply strip_idem|].
      intros Hdot. apply In_strip in Hdot.
      pose proof (split_char_clean (ch ".") x) as Hclean.
      rewrite Forall_forall in Hclean. exact (Hclean _ Hin Hdot).
    + rewrite split_char_spaces.
      generalize (split_char (ch ".") x). intros pieces.
      induction pieces as [|piece pieces IH]; simpl.
      * split; [constructor | reflexivity].
      * destruct (strip piece) as [|c t] eqn:E; simpl.
        -- rewrite IH. apply strip_nil in E. split.
           ++ intros H. constructor; assumption.
           ++ intros H. inversion_clear H. assumption.
        -- split; [discriminate|]. intros H. inversion_clear H as [|? ? Hp _].
           apply strip_nil in Hp. congruence.
Qed.

(** ** process_notes *)

(** X4: the tickets-to-buy list is the costs-and-notes list without the
    entries that do not meet the ticket test, in the same order and with
    the same repetitions, or [["None."]] when none meets it; no entry of
    the costs-and-notes list has a full stop, a semicolon or a line break
    in it. *)
Theorem process_notes_tickets_in_order :
  forall notes : text,
    let costs_and_notes := fst (process_notes (Some notes)) in
    let tickets_to_buy := snd (process_notes (Some notes)) in
    ((filter mentions_ticket costs_and_notes <> []
      /\ tickets_to_buy = filter mentions_ticket costs_and_notes)
     \/ (filter mentions_ticket costs_and_notes = []
         /\ tickets_to_buy = [lit "None."]))
    /\ Forall (fun f => forall c, In c f -> is_sentence_separator c = false)
         costs_and_notes.
Proof.
  intros notes. cbv zeta. rewrite process_notes_eq. cbv zeta. cbn [fst snd].
  split.
  - destruct (filter mentions_ticket _) eqn:E; cbn [is_empty].
    + right. auto.
    + left. split; [discriminate | reflexivity].
  - apply Forall_forall. intros f Hf c Hc. unfold sentences_of in Hf.
    apply in_map_iff in Hf. destruct Hf as (piece & <- & Hp).
    apply filter_In in Hp. destruct Hp as [Hp _]. apply In_strip in Hc.
    exact (sentence_piece_clean _ _ _ Hp Hc).
Qed.

(** ** generate_map_link *)

(** X5: every link of a location, whether one or many, is the base URL
    followed by a name that has no space and no parenthesis, and there is
    at least one link. *)
Theorem generate_map_link_links :
  forall location : text,
    links_of (generate_map_link location) <> []
    /\ Forall
         (fun link =>
            exists name,
              link = maps_base ++ name
              /\ forallb (fun c => negb (is_space_or_paren c)) name = true)
         (links_of (generate_map_link location)).
Proof.
  intros location.
  assert (Hlink : forall loc,
             exists name,
               placeholder_link loc = maps_base ++ name
               /\ forallb (fun c => negb (is_space_or_paren c)) name = true).
  { intros loc. rewrite placeholder_link_eq. eexists. split; [reflexivity|].
    apply forallb_forall. intros c Hc. apply filter_In in Hc. tauto. }
  unfold generate_map_link.
  destruct (1 <? _)%nat eqn:E; cbn [links_of].
  - split.
    + intros H. apply map_eq_nil in H. rewrite H in E. discriminate E.
    + apply Forall_forall. intros link Hin. apply in_map_iff in Hin.
      destruct Hin as (loc & <- & _). apply Hlink.
  - split; [discriminate|]. constructor; [apply Hlink | constructor].
Qed.

(** ** convert_date *)

Ltac Zify.zify_post_hook ::= Z.to_euclidean_division_equations.

Ltac enum_N d :=
  destruct d as [|d]; [try lia|];
  repeat (destruct d as [d|d|]; try lia).

(** A text that starts with an ASCII character after the digits is of
    neither form. *)
Lemma strptime_letter (c : char) (t : text) :
  (58 <= c < 128)%N ->
  strptime_dby (c :: t) = None /\ strptime_YmdHMS (c :: t) = None.
Proof.
  intros H.
  assert (Hv : digit_value c = None).
  { rewrite digit_value_ascii by lia. cmp_by_lia. reflexivity. }
  assert (Hin : forall lo hi, (hi <= 9)%N -> digit_in lo hi c = None).
  { intros lo hi Hhi. unfold digit_in.
    replace (c <=? 48 + hi)%N with false by (symmetry; apply N.leb_gt; lia).
    rewrite andb_false_r. reflexivity. }
  split.
  - unfold strptime_dby, match_dby, dir_d. cbn [first_of two one sep].
    rewrite !Hin by lia.
    replace (N.eqb c 32) with false by (symmetry; apply N.eqb_neq; lia).
    reflexivity.
  - unfold strptime_YmdHMS, match_YmdHMS, dir_Y, two, one. rewrite Hv.
    reflexivity.
Qed.

Lemma strptime_dby_month (s : text) (dt : datetime) :
  strptime_dby s = Some dt -> (1 <= dt_month dt <= 12)%N.
Proof.
  unfold strptime_dby.
  destruct (match_dby s) as [[[[d b] y] rest]|]; [|discriminate].
  destruct (is_empty rest); [|discriminate].
  destruct (month_of_abbr b); [|discriminate].
  intros H. apply make_datetime_inv in H. destruct H as (-> & _ & Hm & _).
  exact Hm.
Qed.

Lemma strptime_YmdHMS_month (s : text) (dt : datetime) :
  strptime_YmdHMS s = Some dt -> (1 <= dt_month dt <= 12)%N.
Proof.
  unfold strptime_YmdHMS.
  destruct (match_YmdHMS s) as [[[[[[[y m] d] hh] mm] ss] rest]|];
    [|discriminate].
  destruct (is_empty rest); [|discriminate].
  intros H. apply make_datetime_inv in H. destruct H as (-> & _ & Hm & _).
  exact Hm.
Qed.

(** The formatted date starts with the capital letter of its month. *)
Lemma formatted_head (dt : datetime) :
  (1 <= dt_month dt <= 12)%N ->
  exists c t,
    replace (lit " 0") (lit " ") (strftime dt) = c :: t
    /\ (58 <= c < 128)%N.
Proof.
  intros Hm. unfold replace, strftime.
  rewrite replace_prefix by (apply month_name_no_space; exact Hm).
  destruct dt as [y m d hh mm ss]. cbn [dt_month] in *.
  set (X := replace_from _ _ _ _). clearbody X.
  enum_N m;
    (eexists; eexists; split;
     [reflexivity | split; [now vm_compute | now vm_compute]]).
Qed.

(** X6: what [convert_date] returns is of neither of the two forms it
    reads, so that converting a converted date changes nothing. *)
Theorem convert_date_result_is_final :
  forall date_str : text,
    strptime_dby (convert_date date_str) = None
    /\ strptime_YmdHMS (convert_date date_str) = None
    /\ convert_date (convert_date date_str) = convert_date date_str.
Proof.
  intros s.
  assert (H : strptime_dby (convert_date s) = None
              /\ strptime_YmdHMS (convert_date s) = None).
  { unfold convert_date.
    destruct (strptime_dby s) as [dt|] eqn:E1.
    - destruct (formatted_head dt (strptime_dby_month _ _ E1))
        as (c & t & -> & Hc).
      apply strptime_letter. exact Hc.
    - destruct (strptime_YmdHMS s) as [dt|] eqn:E2.
      + destruct (formatted_head dt (strptime_YmdHMS_month _ _ E2))
          as (c & t & -> & Hc).
        apply strptime_letter. exact Hc.
      + split; assumption. }
  destruct H as [H1 H2]. repeat split; try assumption.
  unfold convert_date at 1. rewrite H1, H2. reflexivity.
Qed.

Lemma lower_char_inv (c p : char) :
  lower_char c = p -> c = p \/ (c = (p - 32)%N /\ (97 <= p <= 122)%N).
Proof.
  unfold lower_char. destruct (_ && _)%bool eqn:E; intros <-.
  - right. apply andb_true_iff in E. destruct E as [E1 E2].
    apply N.leb_le in E1, E2. lia.
  - left. reflexivity.
Qed.

Lemma lower_char_ascii (s : text) :
  forallb is_ascii (map lower_char s) = true -> forallb is_ascii s = true.
Proof.
  induction s as [|c s IH]; simpl; [reflexivity|].
  intros H. apply andb_true_iff in H. destruct H as [Hc Hs].
  rewrite (IH Hs), andb_true_r. unfold is_ascii, lower_char in *.
  destruct (_ && _)%bool eqn:E; [|exact Hc].
  apply andb_true_iff in E. destruct E as [_ E]. apply N.leb_le in E.
  apply N.ltb_lt. lia.
Qed.

(** The abbreviation of a month in any mix of upper and lower case is
    matched by [%b]. *)
Lemma dir_b_any_case {A : Type} (m : N) (b rest : text)
    (k : text -> text -> option A) (x : A) :
  (1 <= m <= 12)%N ->
  map lower_char b = map lower_char (month_abbr m) ->
  k b rest = Some x -> dir_b (b ++ rest) k = Some x.
Proof.
  intros Hm Hb.
  enum_N m;
    match type of Hb with
    | _ = ?r => let v := eval vm_compute in r in change r with v in Hb
    end;
    destruct b as [|c1 [|c2 [|c3 [|c4 b]]]]; try discriminate Hb;
    cbn [map] in Hb; injection Hb as H1 H2 H3;
    apply lower_char_inv in H1, H2, H3;
    destruct H1 as [->|[-> _]], H2 as [->|[-> _]], H3 as [->|[-> _]];
    intros Hk; cbv in Hk |- *; rewrite Hk; reflexivity.
Qed.

Lemma month_of_abbr_any_case (m : N) (b : text) :
  (1 <= m <= 12)%N ->
  map lower_char b = map lower_char (month_abbr m) ->
  month_of_abbr b = Some m.
Proof.
  intros Hm Hb. unfold month_of_abbr.
  rewrite lower_ascii, Hb.
  - enum_N m; reflexivity.
  - apply lower_char_ascii. rewrite Hb. enum_N m; reflexivity.
Qed.

(** The match of a date in the form of ["3-Jul-25"], whatever the case of
    the letters of its month and whatever follows it. *)
Lemma match_dby_text (day b suffix : text) (d m y : N) :
  (1 <= d <= 31)%N -> (1 <= m <= 12)%N -> (y < 100)%N ->
  day = day_text d \/ day = pad2 d ->
  map lower_char b = map lower_char (month_abbr m) ->
  match_dby (day ++ lit "-" ++ b ++ lit "-" ++ pad2 y ++ suffix)
  = Some (d, b, y, suffix).
Proof.
  intros Hd Hm Hy Hday Hb. unfold match_dby. change (lit "-") with [ch "-"].
  cbn [app].
  assert (Hrest :
            sep (ch "-") (ch "-" :: b ++ ch "-" :: pad2 y ++ suffix)
              (fun s2 => dir_b s2 (fun b0 s3 =>
               sep (ch "-") s3 (fun s4 =>
               dir_y s4 (fun y0 s5 => Some (d, b0, y0, s5)))))
            = Some (d, b, y, suffix)).
  { rewrite sep_cons. apply (dir_b_any_case m); [exact Hm | exact Hb |].
    rewrite sep_cons. rewrite dir_y_pad2 by exact Hy. reflexivity. }
  destruct Hday as [-> | ->].
  - apply dir_d_day_text; [lia | reflexivity | exact Hrest].
  - apply dir_d_pad2; [lia | exact Hrest].
Qed.

(** X7: the abbreviation of the month is read in any mix of upper and
    lower case: "3-JUL-25" and "3-jul-25" are converted as "3-Jul-25"
    is. *)
Theorem convert_date_month_any_case :
  forall (day b : text) (d m y : N),
    (1 <= m <= 12)%N -> (y < 100)%N ->
    (1 <= d <= days_in_month (full_year y) m)%N ->
    day = day_text d \/ day = pad2 d ->
    map lower_char b = map lower_char (month_abbr m) ->
    convert_date (day ++ lit "-" ++ b ++ lit "-" ++ pad2 y)
    = month_name m ++ lit " " ++ day_text d ++ lit ", "
      ++ pad4 (full_year y).
Proof.
  intros day b d m y Hm Hy Hd Hday Hb.
  pose proof (days_in_month_le (full_year y) m) as Hle.
  assert (Hacc : strptime_dby (day ++ lit "-" ++ b ++ lit "-" ++ pad2 y)
                 = Some {| dt_year := full_year y; dt_month := m;
                           dt_day := d; dt_hour := 0; dt_minute := 0;
                           dt_second := 0 |}).
  { unfold strptime_dby.
    rewrite <- (app_nil_r (pad2 y)).
    rewrite (match_dby_text day b [] d m y) by (assumption || lia).
    cbn [is_empty]. rewrite (month_of_abbr_any_case m b Hm Hb).
    apply make_datetime_valid; try lia.
    unfold full_year. destruct (N.leb_spec y 68); lia. }
  apply convert_date_dby in Hacc. destruct Hacc as [Hacc _]. exact Hacc.
Qed.

(** X8: a date of the form of "3-Jul-25" with anything after it, be it
    one space, is not read as a date and is returned as it was
    written. *)
Theorem convert_date_trailing_text :
  forall (day suffix : text) (d m y : N),
    (1 <= m <= 12)%N -> (y < 100)%N -> (1 <= d <= 31)%N ->
    day = day_text d \/ day = pad2 d ->
    suffix <> [] ->
    convert_date (dby_text day m y ++ suffix) = dby_text day m y ++ suffix.
Proof.
  intros day suffix d m y Hm Hy Hd Hday Hs.
  assert (Heq : dby_text day m y ++ suffix
                = day ++ lit "-" ++ month_abbr m ++ lit "-" ++ pad2 y
                  ++ suffix).
  { unfold dby_text. rewrite <- !app_assoc. reflexivity. }
  assert (H1 : strptime_dby (dby_text day m y ++ suffix) = None).
  { unfold strptime_dby. rewrite Heq.
    rewrite (match_dby_text day (month_abbr m) suffix d m y)
      by (assumption || reflexivity).
    destruct suffix; [congruence | reflexivity]. }
  assert (H2 : strptime_YmdHMS (dby_text day m y ++ suffix) = None).
  { unfold strptime_YmdHMS.
    destruct (match_YmdHMS _) as [r|] eqn:E; [|reflexivity].
    unfold match_YmdHMS in E. apply dir_Y_inv in E.
    destruct E as (c1 & c2 & c3 & rest & Hc & _ & H2 & H3).
    rewrite Heq in Hc. change (lit "-") with [45%N] in Hc.
    exfalso. destruct Hday as [-> | ->].
    - unfold day_text in Hc. destruct (d <? 10)%N.
      + cbn [app] in Hc. injection Hc as _ <- _.
        apply H2. apply digit_value_low. lia.
      + unfold pad2 in Hc. cbn [app] in Hc. injection Hc as _ _ <- _.
        apply H3. apply digit_value_low. lia.
    - unfold pad2 in Hc. cbn [app] in Hc. injection Hc as _ _ <- _.
      apply H3. apply digit_value_low. lia. }
  unfold convert_date. rewrite H1, H2. reflexivity.
Qed.

Lemma match_dby_no_day (a b : N) (rest : text) :
  (a < 10)%N -> (b < 10)%N -> ~ (1 <= 10 * a + b <= 31)%N ->
  match_dby (digit a :: digit b :: rest) = None.
Proof.
  intros Ha Hb H. enum_N a; enum_N b; try (exfalso; lia); reflexivity.
Qed.

(** X9: a date in the form of "31-Apr-25" whose day the month does not
    have (day 0, a day after the last of the month, 29 February of a year
    that is not a leap year) is returned as it was written. *)
Theorem convert_date_impossible_day :
  forall d m y : N,
    (1 <= m <= 12)%N -> (y < 100)%N -> (d < 100)%N ->
    ~ (1 <= d <= days_in_month (full_year y) m)%N ->
    convert_date (dby_text (pad2 d) m y) = dby_text (pad2 d) m y.
Proof.
  intros d m y Hm Hy Hd Hday.
  assert (H2 : strptime_YmdHMS (dby_text (pad2 d) m y) = None).
  { unfold strptime_YmdHMS.
    destruct (match_YmdHMS _) as [r|] eqn:E; [|reflexivity].
    unfold match_YmdHMS in E. apply dir_Y_inv in E.
    destruct E as (c1 & c2 & c3 & rest & Heq & _ & _ & H3).
    unfold dby_text, pad2 in Heq. change (lit "-") with [45%N] in Heq.
    cbn [app] in Heq. injection Heq as _ _ <- _.
    exfalso. apply H3. apply digit_value_low. lia. }
  assert (H1 : strptime_dby (dby_text (pad2 d) m y) = None).
  { unfold strptime_dby.
    destruct (N.le_gt_cases 1 d) as [Hlo|Hlo];
      [destruct (N.le_gt_cases d 31) as [Hhi|Hhi]|].
    - unfold dby_text. rewrite <- (app_nil_r (pad2 y)).
      rewrite (match_dby_text (pad2 d) (month_abbr m) [] d m y)
        by (lia || reflexivity || (right; reflexivity)).
      cbn [is_empty].
      rewrite (month_of_abbr_month_abbr _ Hm).
      destruct (make_datetime _ _ _ _ _ _) as [dt|] eqn:E; [|reflexivity].
      apply make_datetime_inv in E. exfalso. apply Hday. lia.
    - unfold dby_text, pad2. cbn [app].
      rewrite match_dby_no_day; [reflexivity | lia | lia | lia].
    - unfold dby_text, pad2. cbn [app].
      rewrite match_dby_no_day; [reflexivity | lia | lia | lia]. }
  unfold convert_date. rewrite H1, H2. reflexivity.
Qed.

(** ** table_to_json *)

Lemma str_labels_none (cols : list label) :
  str_labels cols = None <-> exists shown, In (OtherLabel shown) cols.
Proof.
  induction cols as [|[s|shown] cols IH]; simpl.
  - split; [discriminate | intros [? []]].
  - destruct (str_labels cols).
    + split; [discriminate|]. intros [shown [H|H]]; [discriminate H|].
      assert (E : Some l = None) by (apply IH; exists shown; exact H).
      discriminate E.
    + split; [|reflexivity]. intros _.
      destruct (proj1 IH eq_refl) as [shown H]. exists shown. right. exact H.
  - split; [|reflexivity]. intros _. exists shown. left. reflexivity.
Qed.

(** X10: a sheet ends the conversion with an [AttributeError] exactly
    when every expected column is among its normalised labels and one of
    its labels is not a [str]; its rows play no part in it. *)
Theorem process_sheet_attribute_error :
  forall (sh : sheet) (date_to_activities : dict),
    (process_sheet date_to_activities sh = RaisesAttributeError <->
     (forall col, In col expected_columns ->
                  In col (normalize_columns (columns sh)))
     /\ exists shown, In (OtherLabel shown) (columns sh))
    /\ (process_sheet date_to_activities sh = RaisesAttributeError ->
        forall rows' d',
          process_sheet d'
            {| sheet_name := sheet_name sh; columns := columns sh;
               rows := rows' |}
          = RaisesAttributeError).
Proof.
  intros sh d.
  assert (Hall : forall cols,
             forallb (fun col => mem col cols) expected_columns = true <->
             (forall col, In col expected_columns -> In col cols)).
  { intros cols. rewrite forallb_forall. split; intros H col Hc.
    - apply mem_In. apply H. exact Hc.
    - apply mem_In. apply H. exact Hc. }
  assert (Hiff : forall d0 rows0,
             process_sheet d0
               {| sheet_name := sheet_name sh; columns := columns sh;
                  rows := rows0 |} = RaisesAttributeError <->
             (forall col, In col expected_columns ->
                          In col (normalize_columns (columns sh)))
             /\ exists shown, In (OtherLabel shown) (columns sh)).
  { intros d0 rows0. unfold process_sheet. cbn [columns sheet_name rows].
    rewrite <- Hall, <- str_labels_none.
    destruct (forallb _ expected_columns); cbn [negb].
    - destruct (str_labels (columns sh)).
      + split; [discriminate | intros [_ H]; discriminate H].
      + split; [intros _; split; reflexivity | reflexivity].
    - split; [discriminate | intros [H _]; discriminate H]. }
  assert (Heta : sh = {| sheet_name := sheet_name sh; columns := columns sh;
                         rows := rows sh |}) by (destruct sh; reflexivity).
  split.
  - rewrite Heta at 1. apply Hiff.
  - intros H rows' d'. apply Hiff. rewrite Heta in H. apply Hiff in H.
    exact H.
Qed.


Lemma dict_append_perm {A : Type} (key : text) (value : A)
    (d : list (text * list A)) :
  Permutation (flat_map snd (dict_append key value d))
    (flat_map snd d ++ [value]).
Proof.
  induction d as [|[k vs] d IH]; simpl; [reflexivity|].
  destruct (text_eqb k key); simpl.
  - rewrite <- !app_assoc. apply Permutation_app_head.
    apply Permutation_app_comm.
  - rewrite <- app_assoc. apply Permutation_app_head. exact IH.
Qed.

Lemma dict_build_perm {A : Type} (records : list (text * A))
    (d : list (text * list A)) :
  Permutation (flat_map snd (dict_build records d))
    (flat_map snd d ++ map snd records).
Proof.
  unfold dict_build. revert d.
  induction records as [|r records IH]; intros d; simpl.
  - rewrite app_nil_r. reflexivity.
  - rewrite IH, dict_append_perm, <- app_assoc. reflexivity.
Qed.

Lemma dict_append_values {A : Type} (key : text) (value : A)
    (d : list (text * list A)) :
  Forall (fun e => snd e <> []) d ->
  Forall (fun e => snd e <> []) (dict_append key value d).
Proof.
  induction d as [|[k vs] d IH]; simpl; intros H.
  - constructor; [discriminate | constructor].
  - inversion_clear H as [|? ? Hh Ht]. destruct (text_eqb k key).
    + constructor; [|exact Ht]. simpl. destruct vs; discriminate.
    + constructor; [exact Hh | exact (IH Ht)].
Qed.

Lemma dict_build_values {A : Type} (records : list (text * A))
    (d : list (text * list A)) :
  Forall (fun e => snd e <> []) d ->
  Forall (fun e => snd e <> []) (dict_build records d).
Proof.
  unfold dict_build. revert d.
  induction records as [|r records IH]; intros d H; simpl.
  - exact H.
  - apply IH. apply dict_append_values. exact H.
Qed.

Lemma records_of_length (sheets : list sheet) :
  List.length (records_of sheets)
  = list_sum (map (fun sh => List.length (rows sh)) sheets).
Proof.
  unfold records_of.
  induction sheets as [|sh sheets IH]; cbn [flat_map map list_sum];
    [reflexivity|].
  rewrite length_app, IH. unfold records_of_sheet. rewrite length_map.
  reflexivity.
Qed.

(** X12: when the conversion returns, the activities of its groups are
    the records of the rows of all sheets, each row once: no row is lost
    and none comes twice, no group is without activities, and there are
    as many activities as the sheets have rows. *)
Theorem table_to_json_keeps_rows :
  forall (sheets : list sheet) (itinerary : list DateGroup.t),
    table_to_json sheets = Returns itinerary ->
    Permutation (flat_map DateGroup.activities itinerary)
      (map snd (records_of sheets))
    /\ Forall (fun g => DateGroup.activities g <> []) itinerary
    /\ List.length (flat_map DateGroup.activities itinerary)
       = list_sum (map (fun sh => List.length (rows sh)) sheets).
Proof.
  intros sheets itinerary H. unfold table_to_json in H.
  destruct (process_sheets [] sheets) as [d| |] eqn:E; try discriminate.
  injection H as <-. apply process_sheets_build in E. subst d.
  set (mk := fun '(date, activities) =>
               {| DateGroup.city := cities_of activities;
                  DateGroup.date := date;
                  DateGroup.activities := activities |}).
  assert (Hflat : forall l : dict,
             flat_map DateGroup.activities (map mk l) = flat_map snd l).
  { induction l as [|[k vs] l IH]; simpl; [reflexivity|].
    rewrite IH. reflexivity. }
  assert (Hperm : Permutation (flat_map DateGroup.activities
                                 (map mk (sorted_items
                                            (dict_build (records_of sheets) []))))
                    (map snd (records_of sheets))).
  { rewrite Hflat. unfold sorted_items.
    rewrite (Permutation_flat_map snd
               (sorted_perm _ (fun a b => text_leb (fst a) (fst b))
                  (dict_build (records_of sheets) []))).
    apply (dict_build_perm (records_of sheets) []). }
  split; [exact Hperm|]. split.
  - apply Forall_forall. intros g Hg. apply in_map_iff in Hg.
    destruct Hg as ([k vs] & <- & Hin). simpl.
    unfold sorted_items in Hin.
    apply (Permutation_in _ (sorted_perm _ _ _)) in Hin.
    pose proof (dict_build_values (records_of sheets) [] (Forall_nil _)) as Hv.
    rewrite Forall_forall in Hv. exact (Hv _ Hin).
  - rewrite (Permutation_length Hperm), length_map. apply records_of_length.
Qed.

Lemma set_of_constant (c : text) (l : list text) :
  l <> [] -> (forall x, In x l -> x = c) -> set_of l = [c].
Proof.
  induction l as [|x l IH]; [congruence|]. intros _ H. simpl.
  destruct l as [|y l].
  - simpl. rewrite (H x (or_introl eq_refl)). reflexivity.
  - replace (mem x (y :: l)) with true.
    + apply IH; [discriminate|]. intros z Hz. apply H. right. exact Hz.
    + symmetry. apply mem_In. left.
      rewrite (H x (or_introl eq_refl)), (H y (or_intror (or_introl eq_refl))).
      reflexivity.
Qed.

(** X13: the city of a group whose activities all come from the sheet
    [c] is the name [c] alone, however many the activities are. *)
Theorem cities_of_one_sheet :
  forall (activities : list Activity.t) (c : text),
    activities <> [] ->
    (forall a, In a activities -> Activity.city a = c) ->
    cities_of activities = c.
Proof.
  intros activities c Hne H. unfold cities_of.
  rewrite (set_of_constant c).
  - reflexivity.
  - destruct activities; [congruence | discriminate].
  - intros x Hx. apply in_map_iff in Hx. destruct Hx as (a & <- & Ha).
    apply H. exact Ha.
Qed.

(** X14: a row whose cells are all missing is filed under the date "nan"
    with the time "nan", empty activity and location, the lists
    [["N/A"]] for directions and transportation, the fallback phrase, no
    ticket, no note and the type "activity". *)
Theorem process_row_missing_cells :
  forall (name : text) (names : list text) (row : list cell),
    (forall col, In col expected_columns -> row_get names row col = None) ->
    process_row name names row
    = (lit "nan",
       {| Activity.time := lit "nan";
          Activity.activity := [];
          Activity.location := [];
          Activity.mapLink := OneLink maps_base;
          Activity.directions := [lit "N/A"];
          Activity.transportation := [lit "N/A"];
          Activity.thingsToDo := [lit "Perform activity: ."];
          Activity.ticketsToBuy := [lit "None."];
          Activity.costsAndNotes := [];
          Activity.type := [lit "activity"];
          Activity.city := name |}).
Proof.
  intros name names row H.
  assert (Hlow : lower [] = []) by (rewrite lower_ascii; reflexivity).
  assert (Hdate : convert_date (lit "nan") = lit "nan").
  { destruct (strptime_letter 110%N (lit "an")) as [H1 H2]; [lia|].
    change (110%N :: lit "an") with (lit "nan") in H1, H2.
    unfold convert_date. rewrite H1, H2. reflexivity. }
  unfold process_row. cbv zeta.
  rewrite !H by (vm_compute; tauto).
  cbn [cell_str cell_or]. rewrite Hdate.
  unfold things_to_do_of, assign_activity_type. rewrite Hlow.
  reflexivity.
Qed.

End FurtherProperties.

(** * Properties of update_html and main *)

Section UpdateProperties.

Context {R : Runtime} {G : GroupNames}.

Lemma json_induction (P : json -> Prop) :
  (forall s, P (JString s)) ->
  (forall items, Forall P items -> P (JArray items)) ->
  (forall members,
      Forall (fun m => P (snd m)) members -> P (JObject members)) ->
  forall o, P o.
Proof.
  intros HS HA HO.
  refine (fix F (o : json) : P o :=
            match o with
            | JString s => HS s
            | JArray items =>
                HA items
                  ((fix go (l : list json) : Forall P l :=
                      match l with
                      | [] => Forall_nil P
                      | x :: l' => Forall_cons x (F x) (go l')
                      end) items)
            | JObject members =>
                HO members
                  ((fix go (l : list (text * json))
                      : Forall (fun m => P (snd m)) l :=
                      match l with
                      | [] => Forall_nil _
                      | m :: l' => Forall_cons m (F (snd m)) (go l')
                      end) members)
            end).
Qed.

(** ** The first occurrence of a text *)

Lemma skipn_length_app {A : Type} (a b : list A) :
  skipn (List.length a) (a ++ b) = b.
Proof. induction a as [|x a IH]; simpl; [reflexivity | exact IH]. Qed.

Lemma find_text_some (needle hay before after : text) :
  find_text needle hay = Some (before, after) ->
  hay = before ++ needle ++ after
  /\ forall x y, hay = x ++ needle ++ y ->
                 List.length before <= List.length x.
Proof.
  revert before after. induction hay as [|c hay IH]; intros before after;
    cbn [find_text].
  - destruct (starts_with needle []) eqn:E; [|discriminate].
    intros H. injection H as <- <-. apply starts_with_app in E.
    destruct E as [rest E]. split; [|intros; simpl; lia].
    simpl. rewrite E at 2. rewrite skipn_length_app. exact E.
  - destruct (starts_with needle (c :: hay)) eqn:E.
    + intros H. injection H as <- <-. apply starts_with_app in E.
      destruct E as [rest E]. split; [|intros; simpl; lia].
      simpl. rewrite E at 2. rewrite skipn_length_app. exact E.
    + destruct (find_text needle hay) as [[b a]|] eqn:F; [|discriminate].
      intros H. injection H as <- <-.
      destruct (IH b a eq_refl) as [Heq Hmin]. split.
      * simpl. rewrite <- Heq. reflexivity.
      * intros x y Hxy. destruct x as [|x0 x].
        -- exfalso. simpl in Hxy.
           assert (E' : starts_with needle (c :: hay) = true)
             by (apply starts_with_app; exists y; exact Hxy).
           congruence.
        -- simpl in Hxy. injection Hxy as _ Hxy. simpl.
           apply le_n_S. exact (Hmin x y Hxy).
Qed.

Lemma find_text_none (needle hay : text) :
  find_text needle hay = None ->
  forall x y, hay <> x ++ needle ++ y.
Proof.
  induction hay as [|c hay IH]; cbn [find_text].
  - destruct (starts_with needle []) eqn:E; [discriminate|].
    intros _ x y H.
    destruct x as [|x0 x]; [|discriminate H]. simpl in H.
    assert (E' : starts_with needle [] = true)
      by (apply starts_with_app; exists y; exact H).
    congruence.
  - destruct (starts_with needle (c :: hay)) eqn:E; [discriminate|].
    destruct (find_text needle hay) as [[b a]|] eqn:F; [discriminate|].
    intros _ x y H. destruct x as [|x0 x].
    + simpl in H.
      assert (E' : starts_with needle (c :: hay) = true)
        by (apply starts_with_app; exists y; exact H).
      congruence.
    + simpl in H. injection H as _ H. exact (IH eq_refl x y H).
Qed.

(** ** The pattern *)

Lemma Matches_lit_of (s m : text) : Matches (lit_of s) m <-> m = s.
Proof.
  revert m. induction s as [|c s IH]; intros m; simpl.
  - split; [intros H; inversion H; reflexivity | intros ->; constructor].
  - split.
    + intros H. inversion H as [| |r1 r2 a b Ha Hb| | | | |]; subst.
      inversion Ha as [|p c' Hc| | | | | |]; subst.
      apply N.eqb_eq in Hc. subst c'. apply IH in Hb. subst b. reflexivity.
    + intros ->. apply (M_Seq _ _ [c] s).
      * constructor. apply N.eqb_refl.
      * apply IH. reflexivity.
Qed.

Lemma Matches_Seq_inv (r1 r2 : regex) (m : text) :
  Matches (Seq r1 r2) m ->
  exists a b, m = a ++ b /\ Matches r1 a /\ Matches r2 b.
Proof.
  intros H. inversion H as [| |r1' r2' a b Ha Hb| | | | |]; subst.
  exists a, b. auto.
Qed.

Lemma Matches_marker (m : text) :
  Matches marker_pattern m <->
  exists body, m = marker_open ++ body ++ marker_close.
Proof.
  unfold marker_pattern. split.
  - intros H. apply Matches_Seq_inv in H. destruct H as (a & b & -> & Ha & Hb).
    apply Matches_Seq_inv in Hb. destruct Hb as (body & c & -> & _ & Hc).
    apply Matches_lit_of in Ha, Hc. subst. exists body. reflexivity.
  - intros [body ->]. apply M_Seq; [apply Matches_lit_of; reflexivity|].
    apply M_Seq; [|apply Matches_lit_of; reflexivity].
    constructor. apply forallb_forall. reflexivity.
Qed.

Lemma app_prefix {A : Type} (a b c d : list A) :
  a ++ b = c ++ d -> List.length a <= List.length c ->
  exists z, c = a ++ z /\ b = z ++ d.
Proof.
  revert c. induction a as [|x a IH]; intros c H Hlen.
  - exists c. split; [reflexivity | exact H].
  - destruct c as [|y c]; [simpl in Hlen; lia|].
    simpl in H. injection H as -> H. simpl in Hlen.
    destruct (IH c H ltac:(lia)) as (z & -> & ->). exists z.
    split; reflexivity.
Qed.

(** X15: the text that [update_html] looks for is the leftmost text of
    the pattern and the shortest one at its place: it starts with the
    first [const itineraryData = {] and ends with the first [};] after
    it; where the search finds nothing, the page has no text of the
    pattern. *)
Theorem search_marker_leftmost_shortest :
  forall s : text,
    match search_marker s with
    | Some (before, m, rest) =>
        s = before ++ m ++ rest
        /\ Matches marker_pattern m
        /\ (forall a b, m = a ++ b -> b <> [] ->
                        ~ Matches marker_pattern a)
        /\ (forall x m' y, s = x ++ m' ++ y -> Matches marker_pattern m' ->
                           List.length before <= List.length x)
    | None => ~ occurs marker_pattern s
    end.
Proof.
  intros s. unfold search_marker.
  destruct (find_text marker_open s) as [[before after]|] eqn:E1.
  - apply find_text_some in E1. destruct E1 as [Hs Hleft].
    destruct (find_text marker_close after) as [[body rest]|] eqn:E2.
    + apply find_text_some in E2. destruct E2 as [Hafter Hfirst].
      split; [|split; [|split]].
      * rewrite Hs, Hafter, <- !app_assoc. reflexivity.
      * apply Matches_marker. exists body. reflexivity.
      * intros a b Hm Hb Ha. apply Matches_marker in Ha.
        destruct Ha as [body' ->].
        rewrite <- !app_assoc in Hm. apply app_inv_head in Hm.
        assert (H : after = body' ++ marker_close ++ b ++ rest).
        { rewrite Hafter.
          rewrite (app_assoc body marker_close rest), Hm, <- !app_assoc.
          reflexivity. }
        apply Hfirst in H.
        apply (f_equal (@List.length char)) in Hm.
        rewrite !length_app in Hm.
        destruct b as [|b0 b]; [congruence|]. simpl in Hm. lia.
      * intros x m' y Hx Hm'. apply Matches_marker in Hm'.
        destruct Hm' as [body' ->]. rewrite <- !app_assoc in Hx.
        exact (Hleft _ _ Hx).
    + intros (x & m' & y & Hx & Hm'). apply Matches_marker in Hm'.
      destruct Hm' as [body' ->]. rewrite <- !app_assoc in Hx.
      pose proof (Hleft _ _ Hx) as Hlen. rewrite Hs in Hx.
      destruct (app_prefix _ _ _ _ Hx Hlen) as (z & -> & Hz).
      assert (Hlen' : List.length marker_open
                      <= List.length (z ++ marker_open))
        by (rewrite length_app; lia).
      rewrite (app_assoc z) in Hz.
      destruct (app_prefix _ _ _ _ Hz Hlen') as (w & _ & Hw).
      rewrite app_assoc in Hw. exact (find_text_none _ _ E2 _ _ Hw).
  - intros (x & m' & y & Hx & Hm'). apply Matches_marker in Hm'.
    destruct Hm' as [body' ->]. rewrite <- !app_assoc in Hx.
    exact (find_text_none _ _ E1 _ _ Hx).
Qed.

(** ** The JSON text as a template *)

Lemma literal_nil (r : option (list piece)) : literal [] r = r.
Proof. destruct r; reflexivity. Qed.

Lemma literal_app (a b : text) (r : option (list piece)) :
  literal (a ++ b) r = literal a (literal b r).
Proof.
  destruct r as [t|]; [|reflexivity]. unfold literal. cbn [option_map].
  rewrite map_app, <- app_assoc. reflexivity.
Qed.

Definition no_backslash (p : text) : bool :=
  forallb (fun c => negb (N.eqb c backslash)) p.

Lemma parse_plain (p rest : text) :
  no_backslash p = true ->
  parse_template None (p ++ rest) = literal p (parse_template None rest).
Proof.
  induction p as [|c p IH]; intros H.
  - rewrite literal_nil. reflexivity.
  - cbn [no_backslash forallb] in H. apply andb_true_iff in H.
    destruct H as [Hc Hp]. apply negb_true_iff in Hc.
    cbn [app parse_template]. rewrite Hc, (IH Hp).
    rewrite <- ?literal_app, <- ?app_assoc. reflexivity.
Qed.

Lemma parse_escape (c : char) (rest : text) :
  parse_template None (json_escape c ++ rest)
  = if template_safe c
    then literal (quoted_char c) (parse_template None rest)
    else None.
Proof.
  unfold json_escape, quoted_char.
  destruct (N.eqb_spec c quote) as [->|H1]; [reflexivity|].
  destruct (N.eqb_spec c backslash) as [->|H2]; [reflexivity|].
  destruct (N.eqb_spec c 10) as [->|H3]; [reflexivity|].
  destruct (N.eqb_spec c 13) as [->|H4]; [reflexivity|].
  destruct (N.eqb_spec c 9) as [->|H5]; [reflexivity|].
  destruct (N.eqb_spec c 12) as [->|H6]; [reflexivity|].
  destruct (N.eqb_spec c 8) as [->|H7]; [reflexivity|].
  unfold template_safe.
  destruct (N.ltb_spec c 32) as [H8|H8].
  - cmp_by_lia. reflexivity.
  - cbn [app parse_template].
    replace (N.eqb c backslash) with false
      by (symmetry; apply N.eqb_neq; exact H2).
    replace (32 <=? c)%N with true by (symmetry; apply N.leb_le; exact H8).
    reflexivity.
Qed.

Lemma parse_escaped (s rest : text) :
  parse_template None (flat_map json_escape s ++ rest)
  = if forallb template_safe s
    then literal (flat_map quoted_char s) (parse_template None rest)
    else None.
Proof.
  induction s as [|c s IH]; cbn [flat_map forallb].
  - rewrite literal_nil. reflexivity.
  - rewrite <- app_assoc, parse_escape, IH.
    destruct (template_safe c); [|reflexivity].
    destruct (forallb template_safe s); cbn [andb]; [|reflexivity].
    rewrite literal_app. reflexivity.
Qed.

Lemma parse_encode_basestring (s rest : text) :
  parse_template None (encode_basestring s ++ rest)
  = if forallb template_safe s
    then literal (quoted_string s) (parse_template None rest)
    else None.
Proof.
  unfold encode_basestring, quoted_string.
  rewrite <- !app_assoc.
  rewrite (parse_plain [quote]) by reflexivity.
  rewrite parse_escaped.
  destruct (forallb template_safe s); [|reflexivity].
  rewrite (parse_plain [quote]) by reflexivity.
  rewrite <- ?literal_app, <- ?app_assoc. reflexivity.
Qed.

Lemma no_backslash_app (a b : text) :
  no_backslash (a ++ b) = no_backslash a && no_backslash b.
Proof. apply forallb_app. Qed.

Lemma no_backslash_newline_indent (level : nat) :
  no_backslash (newline_indent level) = true.
Proof.
  unfold newline_indent. cbn [no_backslash forallb]. cbn [negb N.eqb].
  induction level as [|n IH]; [reflexivity|].
  cbn [repeat concat]. fold (no_backslash (lit "  " ++ concat (repeat (lit "  ") n))).
  rewrite no_backslash_app. exact IH.
Qed.

Lemma forallb_flat_map {A B : Type} (p : B -> bool) (f : A -> list B)
    (l : list A) :
  forallb p (flat_map f l) = forallb (fun a => forallb p (f a)) l.
Proof.
  induction l as [|a l IH]; cbn [flat_map forallb]; [reflexivity|].
  rewrite forallb_app, IH. reflexivity.
Qed.

(** The items of a list or dictionary, each with its own encoding, and
    the separators between them. *)
Lemma parse_join {A : Type} (e e' : A -> text) (ok : A -> bool)
    (sep : text) (l : list A) :
  no_backslash sep = true ->
  Forall (fun a => forall rest,
              parse_template None (e a ++ rest)
              = if ok a then literal (e' a) (parse_template None rest)
                else None) l ->
  forall rest,
    parse_template None (join sep (map e l) ++ rest)
    = if forallb ok l
      then literal (join sep (map e' l)) (parse_template None rest)
      else None.
Proof.
  intros Hsep Hl. induction Hl as [|a l Ha Hl IH]; intros rest.
  - cbn [map join forallb app]. rewrite literal_nil. reflexivity.
  - destruct l as [|b l].
    + cbn [map join forallb]. rewrite andb_true_r. apply Ha.
    + change (join sep (map e (a :: b :: l)))
        with (e a ++ sep ++ join sep (map e (b :: l))).
      change (join sep (map e' (a :: b :: l)))
        with (e' a ++ sep ++ join sep (map e' (b :: l))).
      change (forallb ok (a :: b :: l))
        with (ok a && forallb ok (b :: l)).
      rewrite <- !app_assoc, Ha.
      destruct (ok a); cbn [andb]; [|reflexivity].
      rewrite (parse_plain sep) by exact Hsep. rewrite IH.
      destruct (forallb ok (b :: l)); [|reflexivity].
      rewrite <- ?literal_app, <- ?app_assoc. reflexivity.
Qed.

Definition strings_safe (o : json) : bool :=
  forallb (forallb template_safe) (strings_of o).

Lemma parse_iterencode (o : json) :
  forall (level : nat) (rest : text),
    parse_template None (iterencode encode_basestring o level ++ rest)
    = if strings_safe o
      then literal (iterencode quoted_string o level)
             (parse_template None rest)
      else None.
Proof.
  induction o as [s|items IH|members IH] using json_induction;
    intros level rest.
  - unfold strings_safe. cbn [iterencode strings_of forallb].
    rewrite andb_true_r. apply parse_encode_basestring.
  - unfold strings_safe. cbn [iterencode strings_of].
    rewrite forallb_flat_map.
    destruct items as [|x items].
    { cbn [is_empty forallb].
      rewrite (parse_plain (lit "[]")) by reflexivity. reflexivity. }
    cbn [is_empty].
    set (sep := lit "," ++ newline_indent (S level)).
    assert (Hsep : no_backslash sep = true).
    { unfold sep. rewrite no_backslash_app, no_backslash_newline_indent.
      reflexivity. }
    rewrite <- !app_assoc.
    rewrite (parse_plain (lit "[")) by reflexivity.
    rewrite (parse_plain (newline_indent (S level)))
      by apply no_backslash_newline_indent.
    rewrite (parse_join (fun value => iterencode encode_basestring value (S level))
               (fun value => iterencode quoted_string value (S level))
               (fun value => forallb (forallb template_safe) (strings_of value))
               sep (x :: items) Hsep).
    + destruct (forallb _ (x :: items)); [|reflexivity].
      rewrite (parse_plain (newline_indent level))
        by apply no_backslash_newline_indent.
      rewrite (parse_plain (lit "]")) by reflexivity.
      rewrite <- ?literal_app, <- ?app_assoc. reflexivity.
    + apply Forall_forall. intros value Hin rest'.
      rewrite Forall_forall in IH. exact (IH value Hin (S level) rest').
  - unfold strings_safe. cbn [iterencode strings_of].
    rewrite forallb_flat_map.
    destruct members as [|x members].
    { cbn [is_empty forallb].
      rewrite (parse_plain (lit "{}")) by reflexivity. reflexivity. }
    cbn [is_empty].
    set (sep := lit "," ++ newline_indent (S level)).
    assert (Hsep : no_backslash sep = true).
    { unfold sep. rewrite no_backslash_app, no_backslash_newline_indent.
      reflexivity. }
    rewrite <- !app_assoc.
    rewrite (parse_plain (lit "{")) by reflexivity.
    rewrite (parse_plain (newline_indent (S level)))
      by apply no_backslash_newline_indent.
    rewrite (parse_join
               (fun '(key, value) =>
                  encode_basestring key ++ lit ": "
                  ++ iterencode encode_basestring value (S level))
               (fun '(key, value) =>
                  quoted_string key ++ lit ": "
                  ++ iterencode quoted_string value (S level))
               (fun a => forallb (forallb template_safe)
                           (let '(key, value) := a in
                            key :: strings_of value))
               sep (x :: members) Hsep).
    + destruct (forallb _ (x :: members)); [|reflexivity].
      rewrite (parse_plain (newline_indent level))
        by apply no_backslash_newline_indent.
      rewrite (parse_plain (lit "}")) by reflexivity.
      rewrite <- ?literal_app, <- ?app_assoc. reflexivity.
    + apply Forall_forall. intros [key value] Hin rest'.
      rewrite Forall_forall in IH.
      rewrite <- !app_assoc, parse_encode_basestring.
      cbn [forallb].
      destruct (forallb template_safe key); cbn [andb]; [|reflexivity].
      rewrite (parse_plain (lit ": ")) by reflexivity.
      pose proof (IH (key, value) Hin (S level) rest') as Hv.
      cbn [snd] in Hv. unfold strings_safe in Hv. rewrite Hv.
      destruct (forallb (forallb template_safe) (strings_of value));
        [|reflexivity].
      rewrite <- ?literal_app, <- ?app_assoc. reflexivity.
Qed.

(** What [re] makes of the replacement of [update_html]. *)
Lemma parse_new_json_str (json_data : json) :
  parse_template None
    (lit "const itineraryData = " ++ dumps json_data ++ lit ";")
  = if strings_safe json_data
    then Some (map Lit (lit "const itineraryData = "
                        ++ iterencode quoted_string json_data 0
                        ++ lit ";"))
    else None.
Proof.
  rewrite (parse_plain (lit "const itineraryData = ")) by reflexivity.
  unfold dumps. rewrite parse_iterencode.
  destruct (strings_safe json_data); [|reflexivity].
  change (parse_template None (lit ";")) with (Some (map Lit (lit ";"))).
  unfold literal. cbn [option_map]. rewrite !map_app. reflexivity.
Qed.

Lemma expand_template_literal (repl m : text) :
  expand_template (map Lit repl) m = repl.
Proof.
  unfold expand_template. induction repl as [|c repl IH]; simpl;
    [reflexivity|]. rewrite IH. reflexivity.
Qed.

(** ** The replacement of the matches *)

Lemma search_marker_some (s before m rest : text) :
  search_marker s = Some (before, m, rest) ->
  s = before ++ m ++ rest
  /\ (exists body, m = marker_open ++ body ++ marker_close)
  /\ ~ occurs marker_pattern before.
Proof.
  unfold search_marker.
  destruct (find_text marker_open s) as [[b after]|] eqn:E1; [|discriminate].
  destruct (find_text marker_close after) as [[body r]|] eqn:E2;
    [|discriminate].
  remember (marker_open ++ body ++ marker_close) as m0 eqn:Hm0.
  intros H. injection H as <- <- <-. subst m0.
  apply find_text_some in E1, E2. destruct E1 as [Hs Hleft], E2 as [Ha _].
  split; [|split].
  - rewrite Hs, Ha, <- !app_assoc. reflexivity.
  - exists body. reflexivity.
  - intros (x & m' & y & Hx & Hm'). apply Matches_marker in Hm'.
    destruct Hm' as [body' ->].
    assert (H : s = x ++ marker_open
                      ++ (body' ++ marker_close ++ y ++ marker_open ++ after)).
    { rewrite Hs, Hx, <- !app_assoc. reflexivity. }
    apply Hleft in H. rewrite Hx, !length_app in H.
    change (List.length marker_open) with 23 in H. lia.
Qed.

Lemma search_marker_none (s : text) :
  search_marker s = None -> ~ occurs marker_pattern s.
Proof.
  unfold search_marker.
  destruct (find_text marker_open s) as [[before after]|] eqn:E1.
  - apply find_text_some in E1. destruct E1 as [Hs Hleft].
    destruct (find_text marker_close after) as [[body rest]|] eqn:E2;
      [discriminate|].
    intros _ (x & m' & y & Hx & Hm'). apply Matches_marker in Hm'.
    destruct Hm' as [body' ->]. rewrite <- !app_assoc in Hx.
    pose proof (Hleft _ _ Hx) as Hlen. rewrite Hs in Hx.
    destruct (app_prefix _ _ _ _ Hx Hlen) as (z & -> & Hz).
    assert (Hlen' : List.length marker_open
                    <= List.length (z ++ marker_open))
      by (rewrite length_app; lia).
    rewrite (app_assoc z) in Hz.
    destruct (app_prefix _ _ _ _ Hz Hlen') as (w & _ & Hw).
    rewrite app_assoc in Hw. exact (find_text_none _ _ E2 _ _ Hw).
  - intros _ (x & m' & y & Hx & Hm'). apply Matches_marker in Hm'.
    destruct Hm' as [body' ->]. rewrite <- !app_assoc in Hx.
    exact (find_text_none _ _ E1 _ _ Hx).
Qed.

Lemma search_marker_nil : search_marker [] = None.
Proof. reflexivity. Qed.

Lemma search_marker_shorter (s before m rest : text) :
  search_marker s = Some (before, m, rest) ->
  List.length rest < List.length s.
Proof.
  intros H. apply search_marker_some in H.
  destruct H as (-> & [body ->] & _). rewrite !length_app.
  change (List.length marker_open) with 23. lia.
Qed.

Lemma sub_marker_fuel_enough (template : list piece) :
  forall (n n' : nat) (s : text),
    List.length s <= n -> List.length s <= n' ->
    sub_marker_fuel n template s = sub_marker_fuel n' template s.
Proof.
  induction n as [|n IH]; intros n' s Hn Hn'.
  - destruct s; [|simpl in Hn; lia].
    destruct n'; [reflexivity|]. cbn [sub_marker_fuel].
    rewrite search_marker_nil. reflexivity.
  - destruct n' as [|n'].
    + destruct s; [|simpl in Hn'; lia]. cbn [sub_marker_fuel].
      rewrite search_marker_nil. reflexivity.
    + cbn [sub_marker_fuel].
      destruct (search_marker s) as [[[before m] rest]|] eqn:E;
        [|reflexivity].
      apply search_marker_shorter in E.
      rewrite (IH n' rest) by lia. reflexivity.
Qed.

Lemma sub_marker_eq (template : list piece) (s : text) :
  sub_marker template s =
  match search_marker s with
  | None => s
  | Some (before, m, rest) =>
      before ++ expand_template template m ++ sub_marker template rest
  end.
Proof.
  unfold sub_marker. destruct s as [|c s]; [reflexivity|].
  cbn [List.length sub_marker_fuel].
  destruct (search_marker (c :: s)) as [[[before m] rest]|] eqn:E;
    [|reflexivity].
  apply search_marker_shorter in E. cbn [List.length] in E.
  rewrite (sub_marker_fuel_enough template (List.length s)
             (List.length rest) rest) by lia.
  reflexivity.
Qed.

(** The match that the search finds is the leftmost text of the pattern
    and the shortest at its place. *)
Lemma search_marker_step (s before m rest : text) :
  search_marker s = Some (before, m, rest) ->
  (forall x m' y, s = x ++ m' ++ y -> Matches marker_pattern m' ->
                  List.length before <= List.length x)
  /\ shortest marker_pattern m rest.
Proof.
  unfold search_marker.
  destruct (find_text marker_open s) as [[b after]|] eqn:E1; [|discriminate].
  destruct (find_text marker_close after) as [[body r]|] eqn:E2;
    [|discriminate].
  remember (marker_open ++ body ++ marker_close) as m0 eqn:Hm0.
  intros H. injection H as <- <- <-. subst m0.
  apply find_text_some in E1, E2.
  destruct E1 as [Hs Hleft], E2 as [Ha Hfirst]. split.
  - intros x m' y Hx Hm'. apply Matches_marker in Hm'.
    destruct Hm' as [body' ->]. rewrite <- !app_assoc in Hx.
    exact (Hleft _ _ Hx).
  - intros m' y Hy Hm'. apply Matches_marker in Hm'.
    destruct Hm' as [body' ->]. rewrite <- !app_assoc in Hy.
    apply app_inv_head in Hy. rewrite <- Ha in Hy. apply Hfirst in Hy.
    rewrite !length_app. lia.
Qed.

(** The page after the replacement by a text without references: the
    parts between the matches, joined by the text. *)
Lemma sub_marker_literal (repl : text) :
  forall (n : nat) (s : text),
    List.length s <= n ->
    exists kept markers,
      leftmost_scan (shortest marker_pattern) marker_pattern s kept markers
      /\ List.length kept = S (List.length markers)
      /\ interleave kept markers = s
      /\ Forall (fun part => ~ occurs marker_pattern part) kept
      /\ sub_marker (map Lit repl) s = join repl kept.
Proof.
  induction n as [|n IH]; intros s Hn.
  - destruct s; [|simpl in Hn; lia]. exists [[]], [].
    assert (Hno : ~ occurs marker_pattern [])
      by (apply search_marker_none; reflexivity).
    cbn [leftmost_scan]. repeat split; try reflexivity; auto.
  - rewrite sub_marker_eq.
    destruct (search_marker s) as [[[before m] rest]|] eqn:E.
    + pose proof (search_marker_shorter _ _ _ _ E) as Hlen.
      destruct (search_marker_step _ _ _ _ E) as [Hleft Hshort].
      apply search_marker_some in E. destruct E as (Hs & Hm & Hb).
      destruct (IH rest ltac:(lia))
        as (kept & markers & Hscan & Hk & Hi & Hks & Hsub).
      exists (before :: kept), (m :: markers).
      split.
      { cbn [leftmost_scan]. exists rest. split; [exact Hs|].
        split; [apply Matches_marker; exact Hm|].
        split; [exact Hleft|]. split; [exact Hshort | exact Hscan]. }
      split; [simpl; lia|]. split.
      { destruct kept; [discriminate Hk|]. cbn [interleave].
        cbn [interleave] in Hi. rewrite Hs. f_equal. f_equal.
        exact Hi. }
      split; [constructor; assumption|].
      rewrite expand_template_literal, Hsub.
      destruct kept; [discriminate Hk | reflexivity].
    + pose proof (search_marker_none _ E) as Hno.
      exists [s], []. cbn [leftmost_scan].
      repeat split; try reflexivity; auto.
Qed.

Lemma forallb_false {A : Type} (p : A -> bool) (l : list A) :
  forallb p l = false -> exists x, In x l /\ p x = false.
Proof.
  induction l as [|a l IH]; cbn [forallb]; [discriminate|].
  destruct (p a) eqn:E; cbn [andb].
  - intros H. destruct (IH H) as (x & Hx & Hp). exists x. split;
      [right; exact Hx | exact Hp].
  - intros _. exists a. split; [left; reflexivity | exact E].
Qed.

Lemma strings_safe_true (json_data : json) :
  strings_safe json_data = true <->
  forall s c, In s (strings_of json_data) -> In c s ->
              template_safe c = true.
Proof.
  unfold strings_safe. rewrite forallb_forall. split.
  - intros H s c Hs Hc. specialize (H s Hs). rewrite forallb_forall in H.
    exact (H c Hc).
  - intros H s Hs. apply forallb_forall. intros c Hc. exact (H s c Hs Hc).
Qed.

Lemma template_safe_false (c : char) :
  template_safe c = false <->
  (c < 32)%N /\ ~ In c [8; 9; 10; 12; 13]%N.
Proof.
  unfold template_safe. rewrite !orb_false_iff, N.leb_gt, !N.eqb_neq.
  simpl. intuition congruence.
Qed.

Lemma strings_safe_false (json_data : json) :
  strings_safe json_data = false <->
  exists s c, In s (strings_of json_data) /\ In c s
              /\ (c < 32)%N /\ ~ In c [8; 9; 10; 12; 13]%N.
Proof.
  split.
  - intros E. unfold strings_safe in E.
    apply forallb_false in E. destruct E as (s & Hs & E).
    apply forallb_false in E. destruct E as (c & Hc & E).
    apply template_safe_false in E. exists s, c. tauto.
  - intros (s & c & Hs & Hc & Hbad). apply template_safe_false in Hbad.
    destruct (strings_safe json_data) eqn:E; [|reflexivity].
    rewrite (proj1 (strings_safe_true json_data) E s c Hs Hc) in Hbad.
    discriminate Hbad.
Qed.

(** A run in which the page is read and every step of the [try] block
    that the system can fail succeeds. *)
Lemma update_html_success (sys : system) (json_data : json) (stored : text) :
  page sys = Some stored ->
  prints_json sys = true -> writes_page sys = true ->
  prints_success sys = true ->
  strings_safe json_data = true ->
  update_html sys json_data
  = {| html_file :=
         Holds (write_newlines (linesep sys)
                  (sub_marker
                     (map Lit (lit "const itineraryData = "
                               ++ iterencode quoted_string json_data 0
                               ++ lit ";"))
                     (universal_newlines stored)));
       debug_file := Untouched;
       raises := false |}.
Proof.
  intros Hpage Hpj Hwp Hps Hsafe. unfold update_html, re_sub_marker.
  cbv zeta. rewrite Hpage, Hpj, Hwp, Hps, parse_new_json_str, Hsafe.
  reflexivity.
Qed.

(** X16: in a run in which the page is read and every print and the
    writing of the page succeed, and no key or string of the data has a
    character that JSON writes as [\u00XX], the page is written back
    with every text of the pattern replaced and the rest of what was read
    kept: the texts replaced are found from left to right, each the
    leftmost in what is left of the page and the shortest at its place.
    What stands in place of each is not the JSON text but the text with
    the strings as [re] leaves them in a template: a backslash before
    each quote and nothing else escaped.  The page is read with its line
    ends as line feeds and written with the line separator of the
    system. *)
Theorem update_html_replaces_markers :
  forall (sys : system) (json_data : json) (stored : text),
    page sys = Some stored ->
    prints_json sys = true -> writes_page sys = true ->
    prints_success sys = true ->
    (forall s c, In s (strings_of json_data) -> In c s ->
                 template_safe c = true) ->
    exists kept markers,
      leftmost_scan (shortest marker_pattern) marker_pattern
        (universal_newlines stored) kept markers
      /\ List.length kept = S (List.length markers)
      /\ interleave kept markers = universal_newlines stored
      /\ Forall (fun part => ~ occurs marker_pattern part) kept
      /\ update_html sys json_data
         = {| html_file :=
                Holds (write_newlines (linesep sys)
                         (join (lit "const itineraryData = "
                                ++ iterencode quoted_string json_data 0
                                ++ lit ";")
                            kept));
              debug_file := Untouched;
              raises := false |}.
Proof.
  intros sys json_data stored Hpage Hpj Hwp Hps Hsafe.
  apply strings_safe_true in Hsafe.
  destruct (sub_marker_literal
              (lit "const itineraryData = "
               ++ iterencode quoted_string json_data 0 ++ lit ";")
              (List.length (universal_newlines stored))
              (universal_newlines stored) (le_n _))
    as (kept & markers & Hscan & Hk & Hi & Hks & Hsub).
  exists kept, markers. repeat split; try assumption.
  rewrite (update_html_success sys json_data stored) by assumption.
  rewrite Hsub. reflexivity.
Qed.


Lemma contains_find_text (needle hay : text) :
  contains needle hay = false -> find_text needle hay = None.
Proof.
  intros H. destruct (find_text needle hay) as [[before after]|] eqn:E;
    [|reflexivity].
  apply find_text_some in E. destruct E as [E _].
  assert (H' : contains needle hay = true)
    by (apply contains_app; exists before, after; exact E).
  congruence.
Qed.

Lemma write_newlines_lf (s : text) : write_newlines [10%N] s = s.
Proof.
  unfold write_newlines. induction s as [|c s IH]; [reflexivity|].
  cbn [flat_map]. rewrite IH. destruct (N.eqb_spec c 10) as [->|];
    reflexivity.
Qed.

Lemma universal_newlines_no_cr (s : text) :
  ~ In 13%N s -> universal_newlines s = s.
Proof.
  induction s as [|c s IH]; [reflexivity|]. intros H.
  cbn [universal_newlines]. destruct (N.eqb_spec c 13) as [->|_].
  - exfalso. apply H. left. reflexivity.
  - rewrite IH; [reflexivity|]. intros Hin. apply H. right. exact Hin.
Qed.

(** X18: in a run in which the page is read and every print and the
    writing of the page succeed, a page that has no
    [const itineraryData = {] is written back as it was read, where the
    data has no character that JSON writes as [\u00XX]: the run ends as
    a successful update with nothing updated.  What is written is the page
    with its line ends turned into the line separator of the system; it
    is the page as it was where that separator is the line feed and the
    page has no carriage return. *)
Theorem update_html_without_marker :
  forall (sys : system) (json_data : json) (stored : text),
    page sys = Some stored ->
    prints_json sys = true -> writes_page sys = true ->
    prints_success sys = true ->
    contains marker_open (universal_newlines stored) = false ->
    (forall s c, In s (strings_of json_data) -> In c s ->
                 template_safe c = true) ->
    update_html sys json_data
    = {| html_file :=
           Holds (write_newlines (linesep sys) (universal_newlines stored));
         debug_file := Untouched;
         raises := false |}
    /\ (linesep sys = [10%N] -> ~ In 13%N stored ->
        write_newlines (linesep sys) (universal_newlines stored) = stored).
Proof.
  intros sys json_data stored Hpage Hpj Hwp Hps Hno Hsafe.
  apply strings_safe_true in Hsafe. split.
  - rewrite (update_html_success sys json_data stored) by assumption.
    rewrite sub_marker_eq. unfold search_marker.
    rewrite (contains_find_text _ _ Hno). reflexivity.
  - intros -> Hcr. rewrite write_newlines_lf.
    apply universal_newlines_no_cr. exact Hcr.
Qed.

(** ** The text that is put in and the JSON text *)

Lemma quoted_char_length (c : char) :
  List.length (quoted_char c) <= List.length (json_escape c)
  /\ (List.length (quoted_char c) = List.length (json_escape c) ->
      quoted_char c = json_escape c /\ (32 <= c)%N /\ c <> backslash).
Proof.
  unfold quoted_char, json_escape.
  destruct (N.eqb_spec c quote) as [->|H1].
  { split; [simpl; lia|]. intros _. repeat split; [now vm_compute|].
    discriminate. }
  destruct (N.eqb_spec c backslash) as [->|H2]; [simpl; split; lia|].
  destruct (N.eqb_spec c 10) as [->|H3]; [simpl; split; lia|].
  destruct (N.eqb_spec c 13) as [->|H4]; [simpl; split; lia|].
  destruct (N.eqb_spec c 9) as [->|H5]; [simpl; split; lia|].
  destruct (N.eqb_spec c 12) as [->|H6]; [simpl; split; lia|].
  destruct (N.eqb_spec c 8) as [->|H7]; [simpl; split; lia|].
  destruct (N.ltb_spec c 32) as [H8|H8]; [simpl; split; lia|].
  split; [simpl; lia|]. intros _. repeat split; assumption.
Qed.

Lemma quoted_chars_length (s : text) :
  List.length (flat_map quoted_char s)
  <= List.length (flat_map json_escape s)
  /\ (List.length (flat_map quoted_char s)
      = List.length (flat_map json_escape s) ->
      forall c, In c s -> (32 <= c)%N /\ c <> backslash).
Proof.
  induction s as [|c s [IH1 IH2]]; cbn [flat_map].
  - split; [lia|]. intros _ c [].
  - rewrite !length_app. destruct (quoted_char_length c) as [H1 H2].
    split; [lia|]. intros H x [<-|Hx].
    + apply H2. lia.
    + apply IH2; [lia | exact Hx].
Qed.

Lemma quoted_char_plain (c : char) :
  (32 <= c)%N -> c <> backslash -> quoted_char c = json_escape c.
Proof.
  intros H1 H2. unfold quoted_char, json_escape.
  destruct (N.eqb_spec c quote); [reflexivity|].
  destruct (N.eqb_spec c backslash); [congruence|].
  destruct (N.eqb_spec c 10); [lia|]. destruct (N.eqb_spec c 13); [lia|].
  destruct (N.eqb_spec c 9); [lia|]. destruct (N.eqb_spec c 12); [lia|].
  destruct (N.eqb_spec c 8); [lia|].
  destruct (N.ltb_spec c 32); [lia | reflexivity].
Qed.

Lemma quoted_string_plain (s : text) :
  quoted_string s = encode_basestring s <->
  forall c, In c s -> (32 <= c)%N /\ c <> backslash.
Proof.
  unfold quoted_string, encode_basestring. split.
  - intros H. apply app_inv_head, app_inv_tail in H.
    apply quoted_chars_length. rewrite H. reflexivity.
  - intros H. f_equal. f_equal.
    induction s as [|c s IH]; [reflexivity|]. cbn [flat_map].
    rewrite IH by (intros x Hx; apply H; right; exact Hx).
    rewrite quoted_char_plain; [reflexivity | |]; apply H; left; reflexivity.
Qed.

Lemma join_map_ext {A : Type} (f g : A -> text) (sep : text) (l : list A) :
  Forall (fun a => f a = g a) l ->
  join sep (map f l) = join sep (map g l).
Proof.
  intros H. f_equal. induction H as [|a l Ha _ IH]; [reflexivity|].
  cbn [map]. rewrite Ha, IH. reflexivity.
Qed.

Lemma iterencode_ext (e e' : text -> text) (o : json) :
  (forall s, In s (strings_of o) -> e s = e' s) ->
  forall level, iterencode e o level = iterencode e' o level.
Proof.
  induction o as [s|items IH|members IH] using json_induction;
    intros H level; cbn [iterencode].
  - apply H. left. reflexivity.
  - destruct (is_empty items); [reflexivity|]. do 2 f_equal.
    f_equal. apply join_map_ext. apply Forall_forall. intros value Hin.
    rewrite Forall_forall in IH. apply (IH value Hin).
    intros s Hs. apply H. cbn [strings_of]. apply in_flat_map.
    exists value. split; assumption.
  - destruct (is_empty members); [reflexivity|]. do 2 f_equal.
    f_equal. apply join_map_ext. apply Forall_forall.
    intros [key value] Hin. rewrite Forall_forall in IH.
    assert (Hkey : e key = e' key).
    { apply H. cbn [strings_of]. apply in_flat_map.
      exists (key, value). split; [exact Hin | left; reflexivity]. }
    rewrite Hkey. do 2 f_equal. apply (IH (key, value) Hin).
    intros s Hs. apply H. cbn [strings_of]. apply in_flat_map.
    exists (key, value). split; [exact Hin | right; exact Hs].
Qed.

Lemma map_Lit_inj (a b : text) : map Lit a = map Lit b -> a = b.
Proof.
  revert b. induction a as [|x a IH]; intros [|y b] H;
    try discriminate H; [reflexivity|].
  cbn [map] in H. injection H as -> H. rewrite (IH b H). reflexivity.
Qed.

(** X19: [re] leaves a JSON string of the replacement as it is exactly
    when the string has no backslash and no character below U+0020; in
    a run in which the page is read and every print and the writing of
    the page succeed, and no key or string of the data has such a
    character, each text of the pattern is replaced by
    [const itineraryData = ], the JSON text and a semicolon. *)
Theorem update_html_puts_json :
  (forall s : text,
      parse_template None (encode_basestring s)
      = Some (map Lit (encode_basestring s)) <->
      forall c, In c s -> (32 <= c)%N /\ c <> backslash)
  /\ forall (sys : system) (json_data : json) (stored : text),
       page sys = Some stored ->
       prints_json sys = true -> writes_page sys = true ->
       prints_success sys = true ->
       (forall s c, In s (strings_of json_data) -> In c s ->
                    (32 <= c)%N /\ c <> backslash) ->
       exists kept markers,
         leftmost_scan (shortest marker_pattern) marker_pattern
           (universal_newlines stored) kept markers
         /\ update_html sys json_data
            = {| html_file :=
                   Holds (write_newlines (linesep sys)
                            (join (lit "const itineraryData = "
                                   ++ dumps json_data ++ lit ";")
                               kept));
                 debug_file := Untouched;
                 raises := false |}.
Proof.
  split.
  - intros s.
    pose proof (parse_encode_basestring s []) as Hp.
    rewrite app_nil_r in Hp. rewrite Hp. cbn [parse_template].
    unfold literal. cbn [option_map]. rewrite app_nil_r. split.
    + destruct (forallb template_safe s); [|discriminate].
      intros H.
      assert (H' : map Lit (quoted_string s)
                   = map Lit (encode_basestring s)) by congruence.
      apply quoted_string_plain. exact (map_Lit_inj _ _ H').
    + intros H.
      replace (forallb template_safe s) with true.
      * rewrite (proj2 (quoted_string_plain s) H). reflexivity.
      * symmetry. apply forallb_forall. intros c Hc.
        destruct (H c Hc) as [Hc32 _]. unfold template_safe.
        replace (32 <=? c)%N with true
          by (symmetry; apply N.leb_le; exact Hc32).
        reflexivity.
  - intros sys json_data stored Hpage Hpj Hwp Hps H.
    assert (Hsafe : strings_safe json_data = true).
    { apply strings_safe_true. intros s c Hs Hc.
      destruct (H s c Hs Hc) as [Hc32 _]. unfold template_safe.
      replace (32 <=? c)%N with true
        by (symmetry; apply N.leb_le; exact Hc32).
      reflexivity. }
    assert (Hsame : iterencode quoted_string json_data 0 = dumps json_data).
    { unfold dumps. apply iterencode_ext. intros s Hs.
      apply quoted_string_plain. intros c Hc. exact (H s c Hs Hc). }
    destruct (sub_marker_literal
                (lit "const itineraryData = " ++ dumps json_data ++ lit ";")
                (List.length (universal_newlines stored))
                (universal_newlines stored) (le_n _))
      as (kept & markers & Hscan & _ & _ & _ & Hsub).
    exists kept, markers. split; [exact Hscan|].
    rewrite (update_html_success sys json_data stored) by assumption.
    rewrite Hsame, Hsub. reflexivity.
Qed.

(** ** main *)

Lemma expected_columns_present (cols : list text) :
  forallb (fun col => mem col cols) expected_columns = true <->
  (forall col, In col expected_columns -> In col cols).
Proof.
  rewrite forallb_forall. split; intros H col Hc; apply mem_In, H, Hc.
Qed.

Lemma process_sheet_accepted (sh : sheet) (d : dict) :
  (exists d', process_sheet d sh = Returns d') <-> sheet_accepted sh.
Proof.
  unfold process_sheet, sheet_accepted.
  rewrite <- expected_columns_present.
  destruct (forallb _ expected_columns); cbn [negb].
  - destruct (str_labels (columns sh)) as [l|] eqn:E.
    + split; [|intros _; eexists; reflexivity]. intros _.
      split; [reflexivity|]. intros shown Hin.
      assert (E' : str_labels (columns sh) = None)
        by (apply str_labels_none; exists shown; exact Hin).
      congruence.
    + split; [intros [d' H]; discriminate H|]. intros [_ H]. exfalso.
      apply str_labels_none in E. destruct E as [shown Hin].
      exact (H shown Hin).
  - split; [intros [d' H]; discriminate H | intros [H _]; discriminate H].
Qed.

Lemma process_sheet_lacks_column (sh : sheet) (d : dict) :
  (exists name missing found,
      process_sheet d sh = RaisesValueError name missing found) <->
  sheet_lacks_column sh.
Proof.
  unfold process_sheet, sheet_lacks_column.
  destruct (forallb _ expected_columns) eqn:E; cbn [negb].
  - split.
    + intros (n & m & f & H). destruct (str_labels (columns sh));
        discriminate H.
    + intros (col & Hc & Hn). exfalso. apply Hn.
      apply (proj1 (expected_columns_present _) E). exact Hc.
  - split; [|intros _; do 3 eexists; reflexivity]. intros _.
    apply forallb_false in E. destruct E as (col & Hc & Hm).
    exists col. split; [exact Hc|]. intros Hin. apply mem_In in Hin.
    congruence.
Qed.

Lemma process_sheet_other_label (sh : sheet) (d : dict) :
  (forall col, In col expected_columns ->
               In col (normalize_columns (columns sh))) ->
  (exists shown, In (OtherLabel shown) (columns sh)) ->
  process_sheet d sh = RaisesAttributeError.
Proof.
  intros Hall Hother. unfold process_sheet.
  rewrite (proj2 (expected_columns_present _) Hall). cbn [negb].
  rewrite (proj2 (str_labels_none _) Hother). reflexivity.
Qed.

Lemma process_sheets_accepted (sheets : list sheet) :
  forall d,
    (exists d', process_sheets d sheets = Returns d') <->
    Forall sheet_accepted sheets.
Proof.
  induction sheets as [|sh sheets IH]; intros d; cbn [process_sheets].
  - split; [constructor | intros _; eexists; reflexivity].
  - split.
    + intros [d' H].
      destruct (process_sheet d sh) as [d1| |] eqn:E; try discriminate H.
      constructor.
      * apply (process_sheet_accepted sh d). exists d1. exact E.
      * apply (IH d1). exists d'. exact H.
    + intros H. inversion_clear H as [|? ? Hsh Hrest].
      apply (process_sheet_accepted sh d) in Hsh. destruct Hsh as [d1 ->].
      apply (IH d1). exact Hrest.
Qed.

(** The sheet at which the conversion stops with a [ValueError]. *)
Lemma process_sheets_value_error (sheets : list sheet) :
  forall d,
    (exists name missing found,
        process_sheets d sheets = RaisesValueError name missing found) <->
    exists before sh after,
      sheets = before ++ sh :: after
      /\ Forall sheet_accepted before /\ sheet_lacks_column sh.
Proof.
  induction sheets as [|sh sheets IH]; intros d; cbn [process_sheets].
  - split.
    + intros (n & m & f & H). discriminate H.
    + intros (before & sh & after & H & _). destruct before; discriminate H.
  - destruct (process_sheet d sh) as [d1| |] eqn:E.
    + assert (Hsh : sheet_accepted sh)
        by (apply (process_sheet_accepted sh d); exists d1; exact E).
      rewrite (IH d1). split.
      * intros (before & sh' & after & -> & Hb & Hl).
        exists (sh :: before), sh', after. repeat split;
          [constructor; assumption | exact Hl].
      * intros (before & sh' & after & H & Hb & Hl).
        destruct before as [|b before].
        -- simpl in H. injection H as <- <-. exfalso.
           destruct Hl as (col & Hc & Hn). exact (Hn (proj1 Hsh col Hc)).
        -- simpl in H. injection H as <- ->.
           inversion_clear Hb as [|? ? _ Hb'].
           exists before, sh', after. repeat split; assumption.
    + assert (Hsh : sheet_lacks_column sh).
      { apply (process_sheet_lacks_column sh d). do 3 eexists. exact E. }
      split; [|intros _; do 3 eexists; reflexivity]. intros _.
      exists [], sh, sheets. repeat split; [constructor | exact Hsh].
    + split; [intros (n & m & f & H); discriminate H|].
      intros (before & sh' & after & H & Hb & Hl). exfalso.
      destruct before as [|b before].
      * simpl in H. injection H as <- <-.
        apply (process_sheet_lacks_column sh d) in Hl.
        destruct Hl as (n & m & f & Hl). congruence.
      * simpl in H. injection H as <- ->.
        inversion_clear Hb as [|? ? Hb0 _].
        apply (process_sheet_accepted sh d) in Hb0.
        destruct Hb0 as [d' Hb0]. congruence.
Qed.

Lemma table_to_json_accepted (sheets : list sheet) :
  (exists itinerary, table_to_json sheets = Returns itinerary) <->
  Forall sheet_accepted sheets.
Proof.
  rewrite <- (process_sheets_accepted sheets []). unfold table_to_json.
  split.
  - intros [it H].
    destruct (process_sheets [] sheets) as [d| |]; try discriminate H.
    exists d. reflexivity.
  - intros [d ->]. eexists. reflexivity.
Qed.

Lemma table_to_json_value_error (sheets : list sheet) :
  (exists name missing found,
      table_to_json sheets = RaisesValueError name missing found) <->
  exists before sh after,
    sheets = before ++ sh :: after
    /\ Forall sheet_accepted before /\ sheet_lacks_column sh.
Proof.
  rewrite <- (process_sheets_value_error sheets []). unfold table_to_json.
  split.
  - intros (n & m & f & H).
    destruct (process_sheets [] sheets) as [d| |]; try discriminate H.
    do 3 eexists. reflexivity.
  - intros (n & m & f & ->). do 3 eexists. reflexivity.
Qed.

Lemma distinct_NoDup (l : list text) : distinct l = true -> NoDup l.
Proof.
  induction l as [|x l IH]; cbn [distinct]; [constructor|].
  intros H. apply andb_true_iff in H. destruct H as [Hx Hl].
  constructor; [|exact (IH Hl)]. intros Hin. apply mem_In in Hin.
  rewrite Hin in Hx. discriminate Hx.
Qed.


End UpdateProperties.

(** * The ASCII runtime

    Lowering of the ASCII letters only: the runtime on texts whose cased
    letters are ASCII, with a C library that pads the year. *)

Lemma lstrip_map (f : char -> char) (s : text) :
  (forall c, isspace (f c) = isspace c) ->
  lstrip (map f s) = map f (lstrip s).
Proof.
  intros Hf. induction s as [|c s IH]; simpl; [reflexivity|].
  rewrite Hf. destruct (isspace c); [exact IH | reflexivity].
Qed.

Lemma strip_map (f : char -> char) (s : text) :
  (forall c, isspace (f c) = isspace c) ->
  strip (map f s) = map f (strip s).
Proof.
  intros Hf. unfold strip, rstrip.
  rewrite (lstrip_map _ _ Hf), <- map_rev, (lstrip_map _ _ Hf), map_rev.
  reflexivity.
Qed.

Lemma isspace_lower_char (c : char) : isspace (lower_char c) = isspace c.
Proof.
  unfold lower_char.
  destruct (N.leb_spec 65 c); [destruct (N.leb_spec c 90)|]; simpl;
    try reflexivity.
  unfold isspace. cmp_by_lia. reflexivity.
Qed.

Lemma lower_char_idem (c : char) : lower_char (lower_char c) = lower_char c.
Proof.
  unfold lower_char.
  destruct (N.leb_spec 65 c); [destruct (N.leb_spec c 90)|]; simpl.
  - cmp_by_lia. reflexivity.
  - cmp_by_lia. reflexivity.
  - cmp_by_lia. reflexivity.
Qed.

Lemma ascii_lower_idem (s : text) :
  map lower_char (map lower_char s) = map lower_char s.
Proof.
  rewrite map_map. apply map_ext. exact lower_char_idem.
Qed.

Lemma ascii_lower_stripped (s : text) :
  strip s = s -> strip (map lower_char s) = map lower_char s.
Proof.
  intros H. rewrite (strip_map _ _ isspace_lower_char), H. reflexivity.
Qed.

Lemma no_nonascii_digit (c : char) (v : N) :
  @None N = Some v -> (v < 10)%N /\ (128 <= c)%N.
Proof. discriminate. Qed.

#[export] Instance ascii_runtime : Runtime := {|
  lower := map lower_char;
  nonascii_digit := fun _ => None;
  year_padded := true;
  lower_ascii := fun s _ => eq_refl;
  lower_idem := ascii_lower_idem;
  lower_stripped := ascii_lower_stripped;
  nonascii_digit_spec := no_nonascii_digit
|}.

(** The runtime of a C library that does not pad the year. *)
Definition ascii_runtime_unpadded : Runtime := {|
  lower := map lower_char;
  nonascii_digit := fun _ => None;
  year_padded := false;
  lower_ascii := fun s _ => eq_refl;
  lower_idem := ascii_lower_idem;
  lower_stripped := ascii_lower_stripped;
  nonascii_digit_spec := no_nonascii_digit
|}.

(** * Runs of the program *)

(** The default type on a text without keywords. *)
Lemma assign_activity_type_default_witness :
  assign_activity_type (lit "Museum") (lit "bring water") = [lit "activity"].
Proof.
  apply (proj2 (assign_activity_type_nonempty_default
                  (lit "Museum") (lit "bring water"))); reflexivity.
Defined.

(** The counterexample to C2 as stated: a fragment with a dollar sign, a
    currency symbol, and without the words is not put on the
    tickets-to-buy list. *)
Lemma process_notes_dollar_not_ticket :
  sentences_of (strip (re_sub filler_pattern [] (lit "Entry $5")))
  = [lit "Entry $5"]
  /\ contains (lit "$") (lit "Entry $5") = true
  /\ process_notes (Some (lit "Entry $5")) = ([lit "Entry $5"], [lit "None."])
  /\ ~ In (lit "Entry $5") (snd (process_notes (Some (lit "Entry $5")))).
Proof.
  repeat split. intros [H|[]]. discriminate H.
Qed.

(** A fragment with the word "fare" is on both lists. *)
Lemma process_notes_fragments_witness :
  In (lit "Fare 5") (snd (process_notes (Some (lit "Cash only. Fare 5")))).
Proof.
  pose proof (proj1 (proj2 (proj2 (process_notes_fragments
                                     (lit "Cash only. Fare 5"))))) as H.
  apply (H (lit "Fare 5")).
  - right. left. reflexivity.
  - right. left. reflexivity.
Defined.

(** Absent notes. *)
Lemma process_notes_total_witness :
  process_notes None = ([], [lit "None."]).
Proof.
  exact (proj1 (proj2 (process_notes_total None)) (or_introl eq_refl)).
Defined.

(** The counterexample to C8 as stated: "Hold kids' hands" with the ASCII
    apostrophe is not a text of the pattern and stays in the notes. *)
Lemma process_notes_keeps_ascii_apostrophe :
  re_sub filler_pattern [] (lit "Hold kids' hands. Buy ticket")
  = lit "Hold kids' hands. Buy ticket"
  /\ process_notes (Some (lit "Hold kids' hands. Buy ticket"))
     = ([lit "Hold kids' hands"; lit "Buy ticket"], [lit "Buy ticket"])
  /\ process_notes
       (Some (lit "Hold kids" ++ [rsquo] ++ lit " hands. Buy ticket"))
     = ([lit "Buy ticket"], [lit "Buy ticket"]).
Proof.
  repeat split.
Qed.

(** Notes that are a filler phrase only. *)
Lemma process_notes_removes_fillers_witness :
  process_notes (Some (lit "Watch kids")) = ([], [lit "None."]).
Proof.
  destruct (proj1 (process_notes_removes_fillers (lit "Watch kids")))
    as (kept & fillers & _ & _ & _ & _ & _ & Hsub & _ & Hnothing).
  apply Hnothing. rewrite <- Hsub. reflexivity.
Defined.

(** The counterexample to C4 as stated: the text of a date and time of the
    year 999 is accepted in the form ["YYYY-MM-DD HH:MM:SS"], and the
    result has a year of three digits, with or without padding in the C
    library; and a text in the form of ["3-Jul-25"] that names a day its
    month does not have is returned as it is. *)
Lemma convert_date_year_below_1000 :
  strptime_YmdHMS (timestamp_text 999 7 3 0 0 0)
  = Some {| dt_year := 999; dt_month := 7; dt_day := 3;
            dt_hour := 0; dt_minute := 0; dt_second := 0 |}
  /\ timestamp_text 999 7 3 0 0 0 = lit "0999-07-03 00:00:00"
  /\ @convert_date ascii_runtime (lit "0999-07-03 00:00:00")
     = lit "July 3, 999"
  /\ @convert_date ascii_runtime_unpadded (lit "0999-07-03 00:00:00")
     = lit "July 3, 999"
  /\ lit "July 3, 999"
     <> month_name 7 ++ lit " " ++ day_text 3 ++ lit ", " ++ pad4 999
  /\ dby_text (pad2 31) 2 25 = lit "31-Feb-25"
  /\ convert_date (lit "31-Feb-25") = lit "31-Feb-25".
Proof.
  repeat split. discriminate.
Qed.

(** The date of the source's docstring. *)
Lemma convert_date_formats_witness :
  convert_date (dby_text (day_text 3) 7 25) = lit "July 3, 2025".
Proof.
  apply (proj1 convert_date_formats (day_text 3) 3%N 7%N 25%N);
    [lia | lia | vm_compute; split; discriminate | left; reflexivity].
Defined.

(** The scenario of two sheets with one row each on the same date, and a
    sheet with a row in July before a row in December. *)
Definition itinerary_columns : list label :=
  map StrLabel
    [lit "Date"; lit "Time"; lit "Activity"; lit "Location";
     lit "Directions"; lit "Transportation Details"; lit "Notes"].

Definition venice_sheet : sheet := {|
  sheet_name := lit "Venice";
  columns := itinerary_columns;
  rows := [[Some (lit "3-Jul-25"); Some (lit "9:00"); Some (lit "Breakfast");
            Some (lit "Hotel"); None; None; Some (lit "Cash only")]]
|}.

Definition rome_sheet : sheet := {|
  sheet_name := lit "Rome";
  columns := itinerary_columns;
  rows := [[Some (lit "3-Jul-25"); Some (lit "10:00");
            Some (lit "Train to Florence"); Some (lit "Termini"); None;
            None; Some (lit "Fare 20")]]
|}.

Definition winter_sheet : sheet := {|
  sheet_name := lit "Milan";
  columns := itinerary_columns;
  rows := [[Some (lit "3-Jul-25"); None; Some (lit "Arrive"); None; None;
            None; None];
           [Some (lit "1-Dec-25"); None; Some (lit "Market"); None; None;
            None; None]]
|}.

Definition two_sheets_itinerary : outcome (list DateGroup.t) :=
  Eval vm_compute in table_to_json [venice_sheet; rome_sheet].

Definition winter_itinerary : outcome (list DateGroup.t) :=
  Eval vm_compute in table_to_json [winter_sheet].

Lemma table_to_json_groups_witness :
  (exists g,
      table_to_json [venice_sheet; rome_sheet] = Returns [g]
      /\ DateGroup.date g = lit "July 3, 2025"
      /\ DateGroup.city g = lit "Rome, Venice"
      /\ map Activity.city (DateGroup.activities g)
         = [lit "Venice"; lit "Rome"])
  /\ (exists g1 g2,
        table_to_json [winter_sheet] = Returns [g1; g2]
        /\ DateGroup.date g1 = lit "December 1, 2025"
        /\ DateGroup.date g2 = lit "July 3, 2025"
        /\ StronglySorted (fun date1 date2 => text_ltb date1 date2 = true)
             (map DateGroup.date [g1; g2])).
Proof.
  split.
  - destruct two_sheets_itinerary as [[|g [|]]| |] eqn:E; try discriminate E.
    exists g. unfold two_sheets_itinerary in E. injection E as <-.
    repeat split.
  - destruct winter_itinerary as [[|g1 [|g2 [|]]]| |] eqn:E;
      try discriminate E.
    exists g1, g2. unfold winter_itinerary in E.
    assert (Hrun : table_to_json [winter_sheet] = Returns [g1; g2])
      by (rewrite <- E; vm_compute; reflexivity).
    split; [exact Hrun|].
    injection E as <- <-. split; [reflexivity|]. split; [reflexivity|].
    exact (proj1 (table_to_json_groups [winter_sheet] _ Hrun)).
Defined.

(** A sheet without its notes column. *)
Lemma missing_columns_fail_validation_witness :
  process_sheet []
    {| sheet_name := lit "Venice";
       columns := map StrLabel
                    [lit "Date"; lit "Time"; lit "Activity"; lit "Location";
                     lit "Directions"; lit "Transportation Details"];
       rows := [] |}
  = RaisesValueError (lit "Venice") [lit "notes"]
      (map StrLabel
         [lit "Date"; lit "Time"; lit "Activity"; lit "Location";
          lit "Directions"; lit "Transportation Details"]).
Proof.
  pose proof (proj1 (proj2 (missing_columns_fail_validation
           {| sheet_name := lit "Venice";
              columns := map StrLabel
                           [lit "Date"; lit "Time"; lit "Activity";
                            lit "Location"; lit "Directions";
                            lit "Transportation Details"];
              rows := [] |} []))) as H.
  cbv zeta in H. destruct H as [H _]; [|exact H].
  exists (lit "notes"). split; [vm_compute; tauto|].
  vm_compute. intros H. repeat (destruct H as [H|H]; [discriminate H|]).
  exact H.
Defined.

(** A location with two legs and a location with one. *)
Lemma generate_map_link_legs_witness :
  (has_separator (lit "Lido" ++ [arrow] ++ lit "Burano") = true
   /\ exists links, generate_map_link (lit "Lido" ++ [arrow] ++ lit "Burano")
                    = LinkList links)
  /\ (has_separator (lit "Lido") = false
      /\ generate_map_link (lit "Lido") = OneLink (placeholder_link (lit "Lido"))).
Proof.
  split; (split; [reflexivity|]).
  - destruct (proj1 (generate_map_link_legs
                       (lit "Lido" ++ [arrow] ++ lit "Burano")) eq_refl)
      as (seps & _ & _ & _ & _ & _ & E).
    eexists. exact E.
  - exact (proj1 (proj2 (generate_map_link_legs (lit "Lido"))) eq_refl).
Defined.

(** Labels of both kinds that meet the condition. *)
Lemma normalize_columns_idempotent_witness :
  normalize_columns
    (map StrLabel
       (normalize_columns [StrLabel (lit " Date "); OtherLabel (lit "2025")]))
  = normalize_columns [StrLabel (lit " Date "); OtherLabel (lit "2025")].
Proof.
  apply (normalize_columns_idempotent
           [StrLabel (lit " Date "); OtherLabel (lit "2025")]).
  intros shown [E|[E|[]]]; [discriminate | injection E as <-; reflexivity].
Defined.

(** * Further runs *)

(** A [re] for which the names that stand for the whole match are those
    made of the digit 0. *)
#[export] Instance zero_names : GroupNames := {|
  refers_to_match := forallb (N.eqb 48)
|}.

Lemma convert_date_month_any_case_witness :
  convert_date (lit "3-JUL-25") = lit "July 3, 2025".
Proof.
  apply (convert_date_month_any_case (day_text 3) (lit "JUL") 3%N 7%N 25%N);
    [lia | lia | vm_compute; split; discriminate | left; reflexivity
    | reflexivity].
Defined.

Lemma convert_date_trailing_text_witness :
  convert_date (lit "3-Jul-25 ") = lit "3-Jul-25 ".
Proof.
  apply (convert_date_trailing_text (day_text 3) (lit " ") 3%N 7%N 25%N);
    [lia | lia | lia | left; reflexivity | discriminate].
Defined.

Lemma convert_date_impossible_day_witness :
  convert_date (lit "29-Feb-25") = lit "29-Feb-25".
Proof.
  apply (convert_date_impossible_day 29%N 2%N 25%N); [lia | lia | lia |].
  intros [_ H]. vm_compute in H. exact (H eq_refl).
Defined.

Lemma table_to_json_keeps_rows_witness :
  exists itinerary,
    table_to_json [venice_sheet; rome_sheet] = Returns itinerary
    /\ List.length (flat_map DateGroup.activities itinerary) = 2.
Proof.
  destruct two_sheets_itinerary as [itinerary| |] eqn:E; try discriminate E.
  unfold two_sheets_itinerary in E. exists itinerary.
  assert (Hrun : table_to_json [venice_sheet; rome_sheet] = Returns itinerary)
    by (rewrite <- E; vm_compute; reflexivity).
  split; [exact Hrun|].
  exact (proj2 (proj2 (table_to_json_keeps_rows _ _ Hrun))).
Defined.

Lemma cities_of_one_sheet_witness :
  cities_of (map snd (records_of [winter_sheet])) = lit "Milan".
Proof.
  apply (cities_of_one_sheet (map snd (records_of [winter_sheet]))
           (lit "Milan")).
  - vm_compute. discriminate.
  - intros a Ha. vm_compute in Ha. destruct Ha as [<-|[<-|[]]]; reflexivity.
Defined.

Lemma process_row_missing_cells_witness :
  fst (process_row (lit "Milan") (normalize_columns itinerary_columns) [])
  = lit "nan".
Proof.
  rewrite (process_row_missing_cells (lit "Milan")
             (normalize_columns itinerary_columns) []);
    [reflexivity | intros col _; reflexivity].
Defined.

(** A page with the marker, the data of the sheet of two rows and a
    system on which every step succeeds. *)
Definition sample_page : text :=
  lit "<script>const itineraryData = {};</script>".

Definition sample_data : json :=
  match winter_itinerary with
  | Returns itinerary => json_data_of itinerary
  | _ => JArray []
  end.

Definition system_with (stored : text) : system := {|
  page := Some stored;
  linesep := [10%N];
  prints_json := true;
  writes_page := true;
  prints_success := true;
  prints_error := true;
  writes_debug := true;
  prints_saved := true
|}.

Lemma update_html_replaces_markers_witness :
  exists kept markers,
    leftmost_scan (shortest marker_pattern) marker_pattern
      (universal_newlines sample_page) kept markers
    /\ List.length kept = S (List.length markers)
    /\ interleave kept markers = universal_newlines sample_page
    /\ Forall (fun part => ~ occurs marker_pattern part) kept
    /\ update_html (system_with sample_page) sample_data
       = {| html_file :=
              Holds (write_newlines (linesep (system_with sample_page))
                       (join (lit "const itineraryData = "
                              ++ iterencode quoted_string sample_data 0
                              ++ lit ";")
                          kept));
            debug_file := Untouched;
            raises := false |}.
Proof.
  apply (update_html_replaces_markers (system_with sample_page) sample_data
           sample_page); try reflexivity.
  apply strings_safe_true. vm_compute. reflexivity.
Defined.

Lemma update_html_without_marker_witness :
  html_file (update_html (system_with (lit "<html></html>")) sample_data)
  = Holds (lit "<html></html>").
Proof.
  assert (Hsafe : forall s c, In s (strings_of sample_data) -> In c s ->
                          template_safe c = true)
    by (apply strings_safe_true; vm_compute; reflexivity).
  rewrite (proj1 (update_html_without_marker
                    (system_with (lit "<html></html>")) sample_data
                    (lit "<html></html>")
                    eq_refl eq_refl eq_refl eq_refl eq_refl Hsafe)).
  reflexivity.
Defined.

Ltac sheet_is_accepted :=
  cbv beta; unfold sheet_accepted; split;
  [ apply expected_columns_present; reflexivity
  | intros shown Hin; vm_compute in Hin; intuition discriminate ].


